(** * Kompakkt server: resolver, saving strategies, ownership and explore scan

    A shallow embedding of the graph normalisation / resolution engine of the
    repository (the TypeScript services under [src/]) together with the
    properties that its specification states about it.

    Layout of the development:
    - identifiers, documents and the server state (store, cache, accounts);
    - a state-and-exception monad for the asynchronous, throwing code;
    - the resolver ([resolve] and the resolving strategies);
    - the saving strategies ([saveAnnotation], [saveMetaDataEntity], the older
      [addAndGetId]) and the request handler [addEntityToCollection];
    - the owner-array commands and the explore scan;
    - the theorems. *)

From Stdlib Require Import ZArith Ascii String.
From stdpp Require Import base option list strings gmap fin_maps sorting.

Local Open Scope string_scope.

(** ** Identifiers *)

Module ObjectId.

(** Identifiers are kept in their canonical textual form, the 24 lower-case
    hexadecimal digits that [ObjectId.prototype.toString] prints; on such a
    string [new ObjectId(s).toString()] is [s] itself, and [isValid] is the
    driver's test on such text.  A theorem that depends on how an id of a
    request is spelled says so in a hypothesis. *)
Definition is_hex (c : ascii) : bool :=
  let n := nat_of_ascii c in
  ((48 <=? n)%nat && (n <=? 57)%nat) || ((97 <=? n)%nat && (n <=? 102)%nat).

Definition isValid (s : string) : bool :=
  (String.length s =? 24)%nat && forallb is_hex (list_ascii_of_string s).

Definition hex_digit (n : N) : ascii :=
  match String.get (N.to_nat n) "0123456789abcdef" with
  | Some c => c
  | None => "0"%char
  end.

Fixpoint hex_of (digits : nat) (n : N) : string :=
  match digits with
  | O => ""
  | S k => hex_of k (n / 16)%N +:+ String (hex_digit (n mod 16)%N) ""
  end.

(** [new ObjectId()]: the [n]-th identifier the process generates. *)
Definition fresh (n : nat) : string := hex_of 24 (N.of_nat n).

(** Text that arrives in a route or in a form is not canonical.  The
    driver's [ObjectId.isValid] accepts a string of 12 bytes and a string of
    24 hexadecimal digits in either case; [new ObjectId(s).toString()] prints
    the 12 bytes as 24 lower-case digits, and the 24 digits in lower case.
    The handlers that canonicalise such text themselves are modelled with
    [accepts], [toHexString] and [parse]; strings are byte strings. *)
Definition is_hex_digit (c : ascii) : bool :=
  let n := nat_of_ascii c in
  is_hex c || ((65 <=? n)%nat && (n <=? 70)%nat).

Definition accepts (s : string) : bool :=
  (String.length s =? 12)%nat
  || ((String.length s =? 24)%nat && forallb is_hex_digit (list_ascii_of_string s)).

Definition lower_hex (c : ascii) : ascii :=
  let n := nat_of_ascii c in
  if (65 <=? n)%nat && (n <=? 70)%nat then ascii_of_nat (n + 32) else c.

Definition byte_hex (c : ascii) : list ascii :=
  let n := N_of_ascii c in [hex_digit (n / 16)%N; hex_digit (n mod 16)%N].

(** [new ObjectId(s).toString()], for a text that the driver accepts. *)
Definition toHexString (s : string) : string :=
  let bytes := list_ascii_of_string s in
  string_of_list_ascii
    (if (String.length s =? 12)%nat then List.flat_map byte_hex bytes
     else List.map lower_hex bytes).

(** [ObjectId.isValid(s) ? new ObjectId(s).toString() : s] *)
Definition parse (s : string) : string :=
  if accepts s then toHexString s else s.

End ObjectId.

(** JavaScript truthiness of a string: only the empty string is falsy. *)
Definition truthy (s : string) : bool :=
  match s with "" => false | _ => true end.

(** [hay.includes(needle)] *)
Definition includes (hay needle : string) : bool :=
  match String.index 0 needle hay with Some _ => true | None => false end.

(** [Array.from(new Set(l))] on strings: first occurrences, in order. *)
Fixpoint set_from (seen l : list string) : list string :=
  match l with
  | [] => []
  | x :: l' =>
      if bool_decide (x ∈ seen) then set_from seen l'
      else x :: set_from (x :: seen) l'
  end.

(** ** Documents *)

(** The records carry the properties of the documents that the services
    read and write; an optional property is an [option]. *)

(** A slot that holds either a bare reference (an id, or an object with
    nothing but [_id]) or the hydrated document. *)
Inductive ref (A : Type) : Type :=
| Unresolved (id : string)
| Resolved (a : A).
Arguments Unresolved {A} id.
Arguments Resolved {A} a.

Record Address := { address_id : string; address_text : string }.
Record Contact := { contact_id : string; contact_mail : string }.
Record Tag := { tag_id : string; tag_value : string }.

(** The per-context maps are JavaScript objects keyed by the id of the owning
    DigitalEntity / PhysicalEntity.  A key can be present with the value
    [undefined] (that is what [removeUnrelatedEntities] writes for a context
    the record has no entry for), hence the [option] in the value type.

    [role] (and, for a person, [institution]) are the properties of the
    submitted form that the saving strategies read: the role list for the
    context being saved and the institutions to save along. *)
Record Institution := {
  institution_id : string;
  institution_name : string;
  institution_roles : gmap string (option (list string));
  institution_addresses : gmap string (option (ref Address));
  institution_notes : gmap string (option string);
  institution_role : option (list string);
}.

Record Person := {
  person_id : string;
  person_name : string;
  person_roles : gmap string (option (list string));
  person_institutions : gmap string (option (list (ref Institution)));
  person_contact_references : gmap string (option (ref Contact));
  person_role : option (list string);
  person_institution : list (ref Institution);
}.

(** [IPerson | IInstitution], the argument type of [removeUnrelatedEntities];
    the [persons] and [institutions] arrays of a Digital/PhysicalEntity hold
    references to such records or the records themselves. *)
Inductive party :=
| PartyPerson (p : Person)
| PartyInstitution (i : Institution).

Record PhysicalEntity := {
  physical_id : string;
  physical_title : string;
  physical_persons : option (list (ref party));
  physical_institutions : option (list (ref party));
}.

Record DigitalEntity := {
  digital_id : string;
  digital_description : string;
  digital_licence : string;
  digital_persons : option (list (ref party));
  digital_institutions : option (list (ref party));
  digital_tags : option (list (ref Tag));
  digital_phyObjs : option (list (ref PhysicalEntity));
}.

(** Annotation bodies are compared with [===] in [saveAnnotation]; on objects
    that is reference identity, so a body carries the address of the object
    that holds it next to its content.  A record fetched from the store and
    a body parsed from a request are different objects, whatever they hold:
    fixtures give them different addresses. *)
Record Perspective := { perspective_preview : string }.
Record BodyContent := { content_relatedPerspective : option Perspective }.
Record Body := {
  body_addr : nat;
  body_content : option BodyContent;
}.
Record Source := {
  source_relatedEntity : option string;
  source_relatedCompilation : option string;
}.
Record Agent := { agent_id : string; agent_name : string; agent_type : string }.
Record Annotation := {
  annotation_id : string;
  annotation_body : option Body;
  annotation_source : option Source;        (* target.source *)
  annotation_generated : option string;
  annotation_lastModificationDate : option string;
  annotation_lastModifiedBy : Agent;
}.

(** Modelled from the spec: the interface declarations ([common/interfaces])
    are not under [src/]; "whitelist{enabled, ids}" (spec, data model). *)
Record Whitelist := { whitelist_enabled : bool; whitelist_ids : list string }.

Record Settings := { settings_preview : string }.

(** [relatedDigitalEntity] of an Entity: a reference, the hydrated document,
    or the [{description, licence}] projection that explore sends. *)
Inductive digital_slot :=
| DigitalUnresolved (id : string)
| DigitalResolved (d : DigitalEntity)
| DigitalPublic (description licence : option string).

Record Entity := {
  entity_id : string;
  entity_name : string;
  entity_mediaType : string;
  entity_finished : bool;
  entity_online : bool;
  entity_settings : option Settings;
  entity_whitelist : Whitelist;
  entity_annotations : gmap string (ref Annotation);
  entity_annotationList : option (list (option (ref Annotation)));
  entity_relatedDigitalEntity : digital_slot;
}.

(** An entity inside a compilation: reference, hydrated, or the
    [{mediaType, name, settings}] projection of explore. *)
Inductive entity_slot :=
| EntityUnresolved (id : string)
| EntityResolved (e : Entity)
| EntityPublic (mediaType name : string) (settings : option Settings).

(** [password] is a string in the store and a boolean in explore results. *)
Inductive password :=
| PasswordString (s : string)
| PasswordFlag (b : bool).

Record UserStub := { stub_id : string; stub_username : string; stub_fullname : string }.

Record Compilation := {
  compilation_id : string;
  compilation_name : string;
  compilation_description : string;
  compilation_password : option password;
  compilation_whitelist : Whitelist;
  compilation_relatedOwner : option UserStub;
  compilation_entities : gmap string entity_slot;
  compilation_annotations : gmap string (ref Annotation);
  compilation_annotationList : option (list (option (ref Annotation)));
}.

(** What a collection holds and what [resolve] returns. *)
Inductive doc :=
| DAddress (a : Address)
| DContact (c : Contact)
| DTag (t : Tag)
| DInstitution (i : Institution)
| DPerson (p : Person)
| DPhysicalEntity (p : PhysicalEntity)
| DDigitalEntity (d : DigitalEntity)
| DAnnotation (a : Annotation)
| DEntity (e : Entity)
| DCompilation (c : Compilation).

Definition doc_id (d : doc) : string :=
  match d with
  | DAddress a => address_id a
  | DContact c => contact_id c
  | DTag t => tag_id t
  | DInstitution i => institution_id i
  | DPerson p => person_id p
  | DPhysicalEntity p => physical_id p
  | DDigitalEntity d => digital_id d
  | DAnnotation a => annotation_id a
  | DEntity e => entity_id e
  | DCompilation c => compilation_id c
  end.

(** Owner record (account): the ids a user owns, per collection kind. *)
Record UserData := {
  user_id : string;
  user_username : string;
  user_fullname : string;
  user_mail : string;
  user_data : list (string * list string);
}.

(** ** Server state *)

(** A cache entry: a resolved document, an explore result set, or an object
    without [_id] (the "corrupt" entry that [resolve] deletes). *)
Inductive cached :=
| CachedDoc (d : doc)
| CachedItems (items : list doc)
| CachedEmpty.

Record State := {
  store : gmap (string * string) doc;     (* (collection, _id) ↦ document *)
  cache : gmap string cached;             (* RepoCache *)
  accounts : gmap string UserData;        (* accounts repository, by _id *)
  next_id : nat;                          (* generator behind [new ObjectId()] *)
}.

Definition set_store (f : gmap (string * string) doc → gmap (string * string) doc)
    (st : State) : State :=
  {| store := f (store st); cache := cache st;
     accounts := accounts st; next_id := next_id st |}.

Definition set_cache (f : gmap string cached → gmap string cached)
    (st : State) : State :=
  {| store := store st; cache := f (cache st);
     accounts := accounts st; next_id := next_id st |}.

Definition set_accounts (f : gmap string UserData → gmap string UserData)
    (st : State) : State :=
  {| store := store st; cache := cache st;
     accounts := f (accounts st); next_id := next_id st |}.

(** ** The monad of the asynchronous code

    State passing over [State], with the ways the code can fail: a
    [TypeError] (property access on [undefined]), a rejected promise carrying
    [{status: 'error', message}], a promise that never settles, and the
    exhaustion of the recursion budget of the model. *)

Inductive error :=
| TypeError
| Rejected (message : option string)
| Unsettled
| OutOfFuel.

Inductive result (A : Type) : Type :=
| Ok (a : A)
| Throw (e : error).
Arguments Ok {A} a.
Arguments Throw {A} e.

Definition M (A : Type) : Type := State → result A * State.

Definition ret {A} (a : A) : M A := fun st => (Ok a, st).

Definition bind {A B} (c : M A) (k : A → M B) : M B :=
  fun st =>
    match c st with
    | (Ok a, st') => k a st'
    | (Throw e, st') => (Throw e, st')
    end.

Definition throw {A} (e : error) : M A := fun st => (Throw e, st).

Definition get_state : M State := fun st => (Ok st, st).

Definition modify (f : State → State) : M unit := fun st => (Ok tt, f st).

(** [promise.catch(handler)]; a pending promise and the model's running out
    of fuel are not rejections and pass through. *)
Definition catch {A} (c : M A) (handler : error → M A) : M A :=
  fun st =>
    match c st with
    | (Ok a, st') => (Ok a, st')
    | (Throw OutOfFuel, st') => (Throw OutOfFuel, st')
    | (Throw Unsettled, st') => (Throw Unsettled, st')
    | (Throw e, st') => handler e st'
    end.

Notation "x <- c ;; k" := (bind c (fun x => k))
  (at level 200, c at level 99, right associativity).
Notation "c ;;; k" := (bind c (fun _ => k))
  (at level 200, right associativity).

(** [for (...) { acc = await f(acc, x) }] *)
Fixpoint foldM {A B} (f : B → A → M B) (l : list A) (b : B) : M B :=
  match l with
  | [] => ret b
  | x :: l' => b' <- f b x ;; foldM f l' b'
  end.

(** [for (i...) { l[i] = await f(l[i]) }], and [Promise.all(l.map(f))] with
    the promises run left to right. *)
Fixpoint mapM {A B} (f : A → M B) (l : list A) : M (list B) :=
  match l with
  | [] => ret []
  | x :: l' => y <- f x ;; ys <- mapM f l' ;; ret (y :: ys)
  end.

(** *** Collection accessor and cache *)

Definition findOne (coll _id : string) : M (option doc) :=
  st <- get_state ;; ret (store st !! (coll, _id)).

Module RepoCache.
Definition get (key : string) : M (option cached) :=
  st <- get_state ;; ret (cache st !! key).
Definition set (key : string) (v : cached) : M unit :=
  modify (set_cache (insert key v)).
Definition del (key : string) : M unit :=
  modify (set_cache (delete key)).
Definition flush : M unit :=
  modify (set_cache (fun _ => ∅)).
End RepoCache.

(** ** Resolver *)

(** What [resolve] is called on: nothing, an id, or an object (of which only
    [_id] matters; [""] stands for a missing [_id]). *)
Inductive target :=
| TNull
| TId (s : string)
| TObj (_id : string).

Definition resolver : Type := target → string → option Z → M (option doc).

(** [if (!obj) return undefined;
     const parsedId = (obj['_id'] ? obj['_id'] : obj).toString();] *)
Definition parsedId (obj : target) : option string :=
  match obj with
  | TNull => None
  | TId s => if truthy s then Some s else None
  | TObj _id => if truthy _id then Some _id else Some "[object Object]"
  end.

Definition ref_target {A} (id_of : A → string) (r : ref A) : target :=
  match r with
  | Unresolved id => TId id
  | Resolved a => TObj (id_of a)
  end.

Definition party_id (p : party) : string :=
  match p with
  | PartyPerson p => person_id p
  | PartyInstitution i => institution_id i
  end.

(** The casts behind the type arguments of [Mongo.resolve<T>].  A record read
    through the wrong type fails at the first property access the caller makes
    on it; the model raises that [TypeError] at the cast.  (For [as_party] and
    [as_institution] this is literally what the callers do: [obj.roles[id]]
    and [Object.entries(institution.addresses)] on a document without those
    fields.) *)
Definition as_party (d : doc) : M party :=
  match d with
  | DPerson p => ret (PartyPerson p)
  | DInstitution i => ret (PartyInstitution i)
  | _ => throw TypeError
  end.

Definition as_institution (p : party) : M Institution :=
  match p with
  | PartyInstitution i => ret i
  | PartyPerson _ => throw TypeError
  end.

Definition as_address (d : doc) : M Address :=
  match d with DAddress a => ret a | _ => throw TypeError end.
Definition as_contact (d : doc) : M Contact :=
  match d with DContact c => ret c | _ => throw TypeError end.
Definition as_tag (d : doc) : M Tag :=
  match d with DTag t => ret t | _ => throw TypeError end.
Definition as_annotation (d : doc) : M Annotation :=
  match d with DAnnotation a => ret a | _ => throw TypeError end.
Definition as_entity (d : doc) : M Entity :=
  match d with DEntity e => ret e | _ => throw TypeError end.
Definition as_compilation (d : doc) : M Compilation :=
  match d with DCompilation c => ret c | _ => throw TypeError end.
Definition as_digital (d : doc) : M DigitalEntity :=
  match d with DDigitalEntity e => ret e | _ => throw TypeError end.
Definition as_physical (d : doc) : M PhysicalEntity :=
  match d with DPhysicalEntity e => ret e | _ => throw TypeError end.

(** [const related = m[entityId]; m = {}; m[entityId] = related;] *)
Definition only_related {V} (m : gmap string (option V)) (entityId : string)
    : gmap string (option V) :=
  let related := mjoin (m !! entityId) in
  <[entityId := related]> ∅.

Definition removeUnrelatedEntities (obj : party) (entityId : string) : party :=
  match obj with
  | PartyPerson p =>
      PartyPerson
        {| person_id := person_id p;
           person_name := person_name p;
           person_roles := only_related (person_roles p) entityId;
           person_institutions := only_related (person_institutions p) entityId;
           person_contact_references :=
             only_related (person_contact_references p) entityId;
           person_role := person_role p;
           person_institution := person_institution p |}
  | PartyInstitution i =>
      PartyInstitution
        {| institution_id := institution_id i;
           institution_name := institution_name i;
           institution_roles := only_related (institution_roles i) entityId;
           institution_addresses := only_related (institution_addresses i) entityId;
           institution_notes := only_related (institution_notes i) entityId;
           institution_role := institution_role i |}
  end.

(** [if (entityId) obj = removeUnrelatedEntities(obj, entityId)] *)
Definition filter_context (obj : party) (entityId : option string) : party :=
  match entityId with
  | Some id => if truthy id then removeUnrelatedEntities obj id else obj
  | None => obj
  end.

(** Modelled from the spec: the type guard [isUnresolved] ([common/interfaces])
    is not under [src/]; it holds of a slot that is still a bare reference
    ("resolves ... if it is still a bare reference"). *)
Definition isUnresolved {A} (slot : option (ref A)) : bool :=
  match slot with
  | Some (Unresolved _) => true
  | _ => false
  end.

Definition slot_target {A} (slot : option (ref A)) : target :=
  match slot with
  | Some (Unresolved id) => TId id
  | _ => TNull
  end.

(** [IDigitalEntity | IPhysicalEntity]: what [resolveMetaDataEntity] and
    [saveMetaDataEntity] read and write of either.

    Modelled from the spec: the type guard [isDigitalEntity] is not under
    [src/]; it is the discriminant of the variant (spec, design notes). *)
Class IMetaDataEntity (T : Type) := {
  meta_id : T → string;
  meta_persons : T → option (list (ref party));
  meta_institutions : T → option (list (ref party));
  with_persons : option (list (ref party)) → T → T;
  with_institutions : option (list (ref party)) → T → T;
  with_id : string → T → T;
  isDigitalEntity : T → bool;
  meta_tags : T → option (list (ref Tag));
  with_tags : option (list (ref Tag)) → T → T;
}.

#[export] Instance digital_metadata : IMetaDataEntity DigitalEntity := {|
  meta_id := digital_id;
  meta_persons := digital_persons;
  meta_institutions := digital_institutions;
  with_persons := fun l d =>
    {| digital_id := digital_id d; digital_description := digital_description d;
       digital_licence := digital_licence d; digital_persons := l;
       digital_institutions := digital_institutions d;
       digital_tags := digital_tags d; digital_phyObjs := digital_phyObjs d |};
  with_institutions := fun l d =>
    {| digital_id := digital_id d; digital_description := digital_description d;
       digital_licence := digital_licence d; digital_persons := digital_persons d;
       digital_institutions := l;
       digital_tags := digital_tags d; digital_phyObjs := digital_phyObjs d |};
  with_id := fun _id d =>
    {| digital_id := _id; digital_description := digital_description d;
       digital_licence := digital_licence d; digital_persons := digital_persons d;
       digital_institutions := digital_institutions d;
       digital_tags := digital_tags d; digital_phyObjs := digital_phyObjs d |};
  isDigitalEntity := fun _ => true;
  meta_tags := digital_tags;
  with_tags := fun l d =>
    {| digital_id := digital_id d; digital_description := digital_description d;
       digital_licence := digital_licence d; digital_persons := digital_persons d;
       digital_institutions := digital_institutions d;
       digital_tags := l; digital_phyObjs := digital_phyObjs d |};
|}.

#[export] Instance physical_metadata : IMetaDataEntity PhysicalEntity := {|
  meta_id := physical_id;
  meta_persons := physical_persons;
  meta_institutions := physical_institutions;
  with_persons := fun l p =>
    {| physical_id := physical_id p; physical_title := physical_title p;
       physical_persons := l; physical_institutions := physical_institutions p |};
  with_institutions := fun l p =>
    {| physical_id := physical_id p; physical_title := physical_title p;
       physical_persons := physical_persons p; physical_institutions := l |};
  with_id := fun _id p =>
    {| physical_id := _id; physical_title := physical_title p;
       physical_persons := physical_persons p;
       physical_institutions := physical_institutions p |};
  isDigitalEntity := fun _ => false;
  meta_tags := fun _ => None;
  with_tags := fun _ p => p;
|}.

Definition party_roles (p : party) : gmap string (option (list string)) :=
  match p with
  | PartyPerson p => person_roles p
  | PartyInstitution i => institution_roles i
  end.

Definition with_roles (roles : gmap string (option (list string))) (p : party) : party :=
  match p with
  | PartyPerson p =>
      PartyPerson
        {| person_id := person_id p; person_name := person_name p;
           person_roles := roles;
           person_institutions := person_institutions p;
           person_contact_references := person_contact_references p;
           person_role := person_role p;
           person_institution := person_institution p |}
  | PartyInstitution i =>
      PartyInstitution
        {| institution_id := institution_id i; institution_name := institution_name i;
           institution_roles := roles;
           institution_addresses := institution_addresses i;
           institution_notes := institution_notes i;
           institution_role := institution_role i |}
  end.

(** [if (!p.roles) p.roles = {};  if (!p.roles[_id]) p.roles[_id] = [];]
    The first test never fires, [roles] is an object after
    [removeUnrelatedEntities]; an array, empty or not, is truthy. *)
Definition default_roles (p : party) (_id : string) : party :=
  match mjoin (party_roles p !! _id) with
  | Some _ => p
  | None => with_roles (<[_id := Some []]> (party_roles p)) p
  end.


Section Strategies.

(** [Mongo.resolve], the resolver the strategies call back into. *)
Variable Mongo_resolve : resolver.

Definition with_addresses (i : Institution)
    (m : gmap string (option (ref Address))) : Institution :=
  {| institution_id := institution_id i;
     institution_name := institution_name i;
     institution_roles := institution_roles i;
     institution_addresses := m;
     institution_notes := institution_notes i;
     institution_role := institution_role i |}.

(** One turn of the loop over [Object.entries(institution.addresses)]. *)
Definition resolve_address_entry (m : gmap string (option (ref Address)))
    (entry : string * option (ref Address)) : M (gmap string (option (ref Address))) :=
  let '(id, address) := entry in
  if negb (isUnresolved address) then ret m
  else
    resolved <- Mongo_resolve (slot_target address) "address" None ;;
    match resolved with
    | Some d => a <- as_address d ;; ret (<[id := Some (Resolved a)]> m)
    | None => ret (delete id m)
    end.

Definition resolveInstitution (institution : party) (entityId : option string)
    : M Institution :=
  institution <- as_institution (filter_context institution entityId) ;;
  addresses <- foldM resolve_address_entry
                 (map_to_list (institution_addresses institution))
                 (institution_addresses institution) ;;
  ret (with_addresses institution addresses).

Definition resolve_contact_entry (m : gmap string (option (ref Contact)))
    (entry : string * option (ref Contact)) : M (gmap string (option (ref Contact))) :=
  let '(id, contact) := entry in
  if negb (isUnresolved contact) then ret m
  else
    resolved <- Mongo_resolve (slot_target contact) "contact" None ;;
    match resolved with
    | Some d => c <- as_contact d ;; ret (<[id := Some (Resolved c)]> m)
    | None => ret (delete id m)
    end.

(** [Mongo.resolve(i, 'institution').then(resolved =>
      resolved ? resolveInstitution(resolved, entityId) : undefined)] *)
Definition resolve_nested_institution (entityId : option string)
    (i : ref Institution) : M (option Institution) :=
  resolved <- Mongo_resolve (ref_target institution_id i) "institution" None ;;
  match resolved with
  | None => ret None
  | Some d =>
      p <- as_party d ;;
      i' <- resolveInstitution p entityId ;;
      ret (Some i')
  end.

(** One turn of the loop over [Object.entries(person.institutions)];
    [institutions.map] on [undefined] is a [TypeError]. *)
Definition resolve_institutions_entry (entityId : option string)
    (m : gmap string (option (list (ref Institution))))
    (entry : string * option (list (ref Institution)))
    : M (gmap string (option (list (ref Institution)))) :=
  let '(id, institutions) := entry in
  match institutions with
  | None => throw TypeError
  | Some l =>
      resolvedInstitutions <- mapM (resolve_nested_institution entityId) l ;;
      ret (<[id := Some (Resolved <$> omap (fun x => x) resolvedInstitutions)]> m)
  end.

Definition as_person (p : party) : M Person :=
  match p with
  | PartyPerson p => ret p
  | PartyInstitution _ => throw TypeError
  end.

(** [Object.entries(person.contact_references)] on an institution is a
    [TypeError], hence the cast. *)
Definition resolvePerson (person : party) (entityId : option string) : M Person :=
  person <- as_person (filter_context person entityId) ;;
  contacts <- foldM resolve_contact_entry
                (map_to_list (person_contact_references person))
                (person_contact_references person) ;;
  institutions <- foldM (resolve_institutions_entry entityId)
                    (map_to_list (person_institutions person))
                    (person_institutions person) ;;
  ret {| person_id := person_id person;
         person_name := person_name person;
         person_roles := person_roles person;
         person_institutions := institutions;
         person_contact_references := contacts;
         person_role := person_role person;
         person_institution := person_institution person |}.

(** Body of the loop over [entity.persons]. *)
Definition resolve_person_slot (_id : string) (slot : ref party) : M (ref party) :=
  resolved <- Mongo_resolve (ref_target party_id slot) "person" None ;;
  match resolved with
  | None => ret slot
  | Some d =>
      p <- as_party d ;;
      ret (Resolved (default_roles (removeUnrelatedEntities p _id) _id))
  end.

(** Body of the loop over [entity.institutions]: the entry itself is handed
    to [resolveInstitution]; on a bare reference [obj.roles[entityId]] is a
    [TypeError]. *)
Definition resolve_institution_slot (_id : string) (slot : ref party) : M (ref party) :=
  match slot with
  | Unresolved _ => throw TypeError
  | Resolved p =>
      resolved <- resolveInstitution p (Some _id) ;;
      ret (Resolved (removeUnrelatedEntities (PartyInstitution resolved) _id))
  end.

Definition on_some {A B} (f : A → M B) (o : option A) : M (option B) :=
  match o with
  | None => ret None
  | Some a => b <- f a ;; ret (Some b)
  end.

Definition resolveMetaDataEntity {T} `{IMetaDataEntity T} (entity : T) : M T :=
  if negb (truthy (meta_id entity)) then ret entity
  else
    let _id := meta_id entity in
    persons <- on_some (mapM (resolve_person_slot _id)) (meta_persons entity) ;;
    institutions <- on_some (mapM (resolve_institution_slot _id))
                      (meta_institutions entity) ;;
    ret (with_institutions institutions (with_persons persons entity)).

Definition resolve_phyObj_slot (slot : ref PhysicalEntity) : M (ref PhysicalEntity) :=
  resolved <- Mongo_resolve (ref_target physical_id slot) "physicalentity" None ;;
  match resolved with
  | None => ret slot
  | Some d =>
      p <- as_physical d ;;
      p' <- resolveMetaDataEntity p ;;
      ret (Resolved p')
  end.

Definition resolve_tag (tag : ref Tag) : M (option Tag) :=
  resolved <- Mongo_resolve (ref_target tag_id tag) "tag" None ;;
  on_some as_tag resolved.

Definition resolveDigitalEntity (digitalEntity : DigitalEntity) : M DigitalEntity :=
  entity <- resolveMetaDataEntity digitalEntity ;;
  tags <- mapM resolve_tag (default [] (digital_tags entity)) ;;
  phyObjs <- on_some (mapM resolve_phyObj_slot) (digital_phyObjs entity) ;;
  ret {| digital_id := digital_id entity;
         digital_description := digital_description entity;
         digital_licence := digital_licence entity;
         digital_persons := digital_persons entity;
         digital_institutions := digital_institutions entity;
         digital_tags := Some (Resolved <$> omap (fun x => x) tags);
         digital_phyObjs := phyObjs |}.

(** One turn of [for (const id in m) { ... m[id] = resolved / delete m[id] }]. *)
Definition resolve_annotation_key (m : gmap string (ref Annotation))
    (entry : string * ref Annotation) : M (gmap string (ref Annotation)) :=
  resolved <- Mongo_resolve (TId entry.1) "annotation" None ;;
  match resolved with
  | None => ret (delete entry.1 m)
  | Some d => a <- as_annotation d ;; ret (<[entry.1 := Resolved a]> m)
  end.

Definition digital_slot_target (s : digital_slot) : target :=
  match s with
  | DigitalUnresolved id => TId id
  | DigitalResolved d => TObj (digital_id d)
  | DigitalPublic _ _ => TObj ""
  end.

(** Modelled from the spec: the type guards ([isDigitalEntity], [isEntity],
    ...) are not under [src/]; they are the discriminant of the variant
    (spec, design notes: "dispatch on the tag"). *)
Definition isDigitalEntity_slot (s : digital_slot) : bool :=
  match s with DigitalResolved _ => true | _ => false end.

Definition resolveEntity (entity : Entity) : M Entity :=
  annotations <- foldM resolve_annotation_key
                   (map_to_list (entity_annotations entity))
                   (entity_annotations entity) ;;
  related <-
    (if isDigitalEntity_slot (entity_relatedDigitalEntity entity)
     then ret (entity_relatedDigitalEntity entity)
     else
       resolved <- Mongo_resolve
                     (digital_slot_target (entity_relatedDigitalEntity entity))
                     "digitalentity" None ;;
       match resolved with
       | None => ret (entity_relatedDigitalEntity entity)
       | Some d => d' <- as_digital d ;; ret (DigitalResolved d')
       end) ;;
  ret {| entity_id := entity_id entity;
         entity_name := entity_name entity;
         entity_mediaType := entity_mediaType entity;
         entity_finished := entity_finished entity;
         entity_online := entity_online entity;
         entity_settings := entity_settings entity;
         entity_whitelist := entity_whitelist entity;
         entity_annotations := annotations;
         entity_annotationList := entity_annotationList entity;
         entity_relatedDigitalEntity := related |}.

Definition resolve_entity_key (m : gmap string entity_slot)
    (entry : string * entity_slot) : M (gmap string entity_slot) :=
  resolved <- Mongo_resolve (TId entry.1) "entity" None ;;
  match resolved with
  | None => ret (delete entry.1 m)
  | Some d => e <- as_entity d ;; ret (<[entry.1 := EntityResolved e]> m)
  end.

Definition resolveCompilation (compilation : Compilation) : M Compilation :=
  entities <- foldM resolve_entity_key
                (map_to_list (compilation_entities compilation))
                (compilation_entities compilation) ;;
  annotations <- foldM resolve_annotation_key
                   (map_to_list (compilation_annotations compilation))
                   (compilation_annotations compilation) ;;
  ret {| compilation_id := compilation_id compilation;
         compilation_name := compilation_name compilation;
         compilation_description := compilation_description compilation;
         compilation_password := compilation_password compilation;
         compilation_whitelist := compilation_whitelist compilation;
         compilation_relatedOwner := compilation_relatedOwner compilation;
         compilation_entities := entities;
         compilation_annotations := annotations;
         compilation_annotationList := compilation_annotationList compilation |}.

(** [depth && depth === 0] *)
Definition shallow_stop (depth : option Z) : bool :=
  match depth with
  | None => false
  | Some d => negb (d =? 0)%Z && (d =? 0)%Z
  end.

(** The first [.then] of [resolve]: the dispatch on the fetched record. *)
Definition resolve_strategy (depth : option Z) (resolve_result : option doc)
    : M (option doc) :=
  if shallow_stop depth then ret resolve_result
  else
    match resolve_result with
    | Some (DDigitalEntity d) =>
        d' <- resolveDigitalEntity d ;; ret (Some (DDigitalEntity d'))
    | Some (DEntity e) =>
        e' <- resolveEntity e ;; ret (Some (DEntity e'))
    | Some (DCompilation c) =>
        c' <- resolveCompilation c ;; ret (Some (DCompilation c'))
    | Some (DPerson p) =>
        p' <- resolvePerson (PartyPerson p) None ;;
        ret (Some (DPerson p'))
    | Some (DInstitution i) =>
        i' <- resolveInstitution (PartyInstitution i) None ;;
        ret (Some (DInstitution i'))
    | other => ret other
    end.

(** [RepoCache.get(parsedId)] and the validity test on what it returns; an
    entry without [_id] is deleted. *)
Definition cache_lookup (parsedId : string) : M (option doc) :=
  temp <- RepoCache.get parsedId ;;
  match temp with
  | None => ret None
  | Some (CachedDoc d) =>
      if truthy (doc_id d) then ret (Some d)
      else RepoCache.del parsedId ;;; ret None
  | Some _ => RepoCache.del parsedId ;;; ret None
  end.

(** One unfolding of [resolve], recursive calls going to [Mongo_resolve]. *)
Definition resolve_body : resolver := fun obj coll depth =>
  match parsedId obj with
  | None => ret None
  | Some parsedId =>
      if negb (ObjectId.isValid parsedId) then ret None
      else
        temp <- cache_lookup parsedId ;;
        match temp with
        | Some d => ret (Some d)
        | None =>
            catch
              (resolve_result <- findOne coll parsedId ;;
               result <- resolve_strategy depth resolve_result ;;
               match result with
               | Some d => RepoCache.set parsedId (CachedDoc d) ;;; ret result
               | None => ret result
               end)
              (fun _ => ret None)
        end
  end.

End Strategies.

(** [resolve]; [fuel] bounds the depth of nested resolutions. *)
Fixpoint resolve (fuel : nat) : resolver :=
  match fuel with
  | O => fun _ _ _ => throw OutOfFuel
  | S fuel' => resolve_body (resolve fuel')
  end.

(** The resolver of [services/mongo.ts]: the stored record, not hydrated. *)
Module Mongo.
(** [const id = (obj['_id']) ? obj['_id'] : obj;
     return await resolve_collection.findOne({ '_id': ... id })] *)
Definition resolve : resolver := fun obj coll _ =>
  match obj with
  | TNull => throw TypeError
  | TId s => findOne coll s
  | TObj _id => if truthy _id then findOne coll _id else ret None
  end.
End Mongo.

(** ** Collaborators *)

Record ExploreFilters := {
  filter_annotatable : bool;
  filter_annotated : bool;
  filter_restricted : bool;
  filter_associated : bool;
}.

Record ExploreRequest := {
  explore_searchEntity : bool;
  explore_types : list string;
  explore_filters : ExploreFilters;
  explore_searchText : string;
  explore_offset : nat;
}.

(** What the core consumes from outside: the clock, the image store, the
    driver's acknowledgement of a write to [(collection, _id)], the JSON
    printer, the cache's hash of a request body and the collation of names. *)
Record Env := {
  now : string;                                        (* new Date().toISOString() *)
  saveBase64toImage : string → string → string → string;
  acknowledged : string → string → bool;
  JSON_stringify : doc → string;
  hash : ExploreRequest → string;
  localeCompare_le : string → string → bool;           (* a.localeCompare(b) <= 0 *)
}.

(** Modelled from the spec: the owner-record service ([isUserOwnerOfEntity],
    [insertCurrentUserData] / [Users.makeOwnerOf]) is not under [src/];
    "isOwner(user, id) → bool" holds when the id is among the ids the owner
    record holds, "makeOwnerOf(user, id, collectionKind)" records it. *)
Definition isUserOwnerOfEntity (userData : UserData) (identifier : string) : bool :=
  existsb (fun entry => bool_decide (identifier ∈ entry.2)) (user_data userData).

Fixpoint add_owned (kind id : string) (data : list (string * list string))
    : list (string * list string) :=
  match data with
  | [] => [(kind, [id])]
  | (k, ids) :: data' =>
      if bool_decide (k = kind)
      then (k, if bool_decide (id ∈ ids) then ids else (ids ++ [id])%list) :: data'
      else (k, ids) :: add_owned kind id data'
  end.

Definition with_data (data : list (string * list string)) (u : UserData) : UserData :=
  {| user_id := user_id u; user_username := user_username u;
     user_fullname := user_fullname u; user_mail := user_mail u;
     user_data := data |}.

Definition insertCurrentUserData (userData : UserData) (_id kind : string) : M unit :=
  modify (set_accounts (fun accs =>
    match accs !! user_id userData with
    | Some u => <[user_id userData := with_data (add_owned kind _id (user_data u)) u]> accs
    | None => accs
    end)).

(** ** Saving strategies *)

(** [IEntity | ICompilation], the owners of an [annotationList]. *)
Inductive annotated :=
| AnnotatedEntity (e : Entity)
| AnnotatedCompilation (c : Compilation).

Definition as_annotated (d : doc) : M annotated :=
  match d with
  | DEntity e => ret (AnnotatedEntity e)
  | DCompilation c => ret (AnnotatedCompilation c)
  | _ => throw TypeError
  end.

Definition annotationList (obj : annotated) : option (list (option (ref Annotation))) :=
  match obj with
  | AnnotatedEntity e => entity_annotationList e
  | AnnotatedCompilation c => compilation_annotationList c
  end.

Definition entity_with_annotationList (l : option (list (option (ref Annotation))))
    (e : Entity) : Entity :=
  {| entity_id := entity_id e; entity_name := entity_name e;
     entity_mediaType := entity_mediaType e; entity_finished := entity_finished e;
     entity_online := entity_online e; entity_settings := entity_settings e;
     entity_whitelist := entity_whitelist e;
     entity_annotations := entity_annotations e;
     entity_annotationList := l;
     entity_relatedDigitalEntity := entity_relatedDigitalEntity e |}.

Definition compilation_with_annotationList (l : option (list (option (ref Annotation))))
    (c : Compilation) : Compilation :=
  {| compilation_id := compilation_id c; compilation_name := compilation_name c;
     compilation_description := compilation_description c;
     compilation_password := compilation_password c;
     compilation_whitelist := compilation_whitelist c;
     compilation_relatedOwner := compilation_relatedOwner c;
     compilation_entities := compilation_entities c;
     compilation_annotations := compilation_annotations c;
     compilation_annotationList := l |}.

Definition with_annotationList (l : option (list (option (ref Annotation))))
    (obj : annotated) : annotated :=
  match obj with
  | AnnotatedEntity e => AnnotatedEntity (entity_with_annotationList l e)
  | AnnotatedCompilation c => AnnotatedCompilation (compilation_with_annotationList l c)
  end.

(** The id an entry of an [annotationList] stands for:
    [isAnnotation(a) ? a._id.toString() : a.toString()]. *)
Definition entry_id (a : ref Annotation) : string :=
  match a with
  | Resolved a => annotation_id a
  | Unresolved id => id
  end.

(** [.filter(_annotation => _annotation)] *)
Definition filter_null (l : list (option (ref Annotation))) : list (ref Annotation) :=
  omap (fun x => x) l.

Section SavingStrategies.

Variable env : Env.
Variable Mongo_resolve : resolver.

Definition updateAnnotationList (entityOrCompId add_to_coll annotationId : string)
    : M annotated :=
  resolved <- Mongo_resolve (TId entityOrCompId) add_to_coll (Some 0%Z) ;;
  match resolved with
  | None => throw TypeError                 (* [obj.annotationList] on nothing *)
  | Some d =>
      obj <- as_annotated d ;;
      let list0 := filter_null (default [] (annotationList obj)) in
      let doesAnnotationExist :=
        List.find (fun a => bool_decide (entry_id a = annotationId)) list0 in
      let list1 :=
        match doesAnnotationExist with
        | Some _ => list0
        | None => (list0 ++ [Unresolved annotationId])%list
        end in
      let list2 := (fun a => Some (Unresolved (entry_id a))) <$> list1 in
      ret (with_annotationList (Some list2) obj)
  end.

(** [coll.updateOne({ _id }, { $set: { annotationList } })]: [true] when
    the driver reports [result.ok === 1]. *)
Definition update_annotationList (coll _id : string)
    (l : option (list (option (ref Annotation)))) : M bool :=
  if acknowledged env coll _id then
    modify (set_store (fun s =>
      match s !! (coll, _id) with
      | Some (DEntity e) => <[(coll, _id) := DEntity (entity_with_annotationList l e)]> s
      | Some (DCompilation c) =>
          <[(coll, _id) := DCompilation (compilation_with_annotationList l c)]> s
      | _ => s
      end)) ;;; ret true
  else ret false.

(** [new Promise(async (resolve, reject) => { ... })]: [reject] settles the
    promise; an exception thrown inside the async executor does not, the
    promise stays pending. *)
Definition promise_executor {A} (body : M A) : M A :=
  fun st =>
    match body st with
    | (Throw TypeError, st') => (Throw Unsettled, st')
    | r => r
    end.

Definition reject {A} (message : string) : M A := throw (Rejected (Some message)).

(** [oldAnnotation.body === annotation.body] *)
Definition same_body (old new : option Body) : bool :=
  match old, new with
  | Some b1, Some b2 => bool_decide (body_addr b1 = body_addr b2)
  | None, None => true
  | _, _ => false
  end.

Definition saveAnnotation (annotation : Annotation) (userData : UserData)
    (doesEntityExist : bool) : M Annotation :=
  promise_executor (
    let isAnnotationOwner :=
      if doesEntityExist then isUserOwnerOfEntity userData (annotation_id annotation)
      else true in
    match annotation_source annotation with
    | None => reject "Invalid annotation"
    | Some source =>
    match annotation_body annotation with
    | None => reject "Missing body.content.relatedPerspective"
    | Some body =>
    match body_content body with
    | None => reject "Missing body.content.relatedPerspective"
    | Some content =>
    match content_relatedPerspective content with
    | None => reject "Missing body.content.relatedPerspective"
    | Some perspective =>
    let preview := saveBase64toImage env (perspective_preview perspective)
                     "annotation" (annotation_id annotation) in
    let body := {| body_addr := body_addr body;
                   body_content := Some {| content_relatedPerspective :=
                     Some {| perspective_preview := preview |} |} |} in
    match source_relatedEntity source, source_relatedCompilation source with
    | Some relatedEntityId, Some relatedCompId =>
        let validEntity := ObjectId.isValid relatedEntityId in
        let validCompilation := ObjectId.isValid relatedCompId in
        if negb validEntity then reject "Invalid related entity id"
        else
          let isEntityOwner := isUserOwnerOfEntity userData relatedEntityId in
          if negb validCompilation && negb isEntityOwner
          then reject "Permission denied"
          else
            let isCompilationOwner := isUserOwnerOfEntity userData relatedCompId in
            (if negb isAnnotationOwner then
               if isCompilationOwner then
                 oldAnnotation <- Mongo_resolve (TObj (annotation_id annotation))
                                    "annotation" None ;;
                 match oldAnnotation with
                 | Some (DAnnotation old) =>
                     if same_body (annotation_body old) (Some body)
                     then reject "Permission denied"
                     else ret tt
                 | _ => ret tt
                 end
               else reject "Permission denied"
             else ret tt) ;;;
            let annotation :=
              {| annotation_id := annotation_id annotation;
                 annotation_body := Some body;
                 annotation_source := Some source;
                 annotation_generated :=
                   match annotation_generated annotation with
                   | Some g => if truthy g then Some g else Some (now env)
                   | None => Some (now env)
                   end;
                 annotation_lastModificationDate := Some (now env);
                 annotation_lastModifiedBy :=
                   {| agent_id := user_id userData;
                      agent_name := user_fullname userData;
                      agent_type := "person" |} |} in
            let entityOrCompId :=
              if negb validCompilation then relatedEntityId else relatedCompId in
            let requestedCollection :=
              if negb validCompilation then "entity" else "compilation" in
            resultEntityOrComp <-
              updateAnnotationList entityOrCompId requestedCollection
                (annotation_id annotation) ;;
            ok <- update_annotationList requestedCollection entityOrCompId
                    (annotationList resultEntityOrComp) ;;
            if negb ok then throw (Rejected None)
            else
              (if isAnnotationOwner
               then insertCurrentUserData userData (annotation_id annotation) "annotation"
               else ret tt) ;;;
              ret annotation
    | _, _ => reject "Related entity or compilation undefined"
    end end end end end).

End SavingStrategies.

(** *** Driver writes *)

Record UpdateResult := {
  result_ok : bool;
  upsertedId : option string;
}.

Definition new_ObjectId : M string :=
  st <- get_state ;;
  modify (fun st =>
    {| store := store st; cache := cache st; accounts := accounts st;
       next_id := S (next_id st) |}) ;;;
  ret (ObjectId.fresh (next_id st)).

Section MetaDataSaving.

Variable env : Env.
Variable Mongo_resolve : resolver.

(** [updateOne({ _id }, { $set: document }, { upsert: true })]:
    [upsertedId] is set only when the write inserted the document. *)
Definition updateOne_upsert (coll _id : string) (d : doc) : M UpdateResult :=
  st <- get_state ;;
  if acknowledged env coll _id then
    modify (set_store (insert (coll, _id) d)) ;;;
    ret {| result_ok := true;
           upsertedId := match store st !! (coll, _id) with
                         | Some _ => None
                         | None => Some _id
                         end |}
  else ret {| result_ok := false; upsertedId := None |}.

(** [.then(res => { const _id = res.upsertedId._id ? res.upsertedId._id : fallback;
                    Mongo.insertCurrentUserData(userData, _id, coll); return _id; })]
    [res.upsertedId] is [null] unless the document was inserted. *)
Definition upserted_id (res : UpdateResult) (fallback : string)
    (userData : UserData) (coll : string) : M string :=
  match upsertedId res with
  | None => throw TypeError
  | Some u =>
      let _id := if truthy u then u else fallback in
      insertCurrentUserData userData _id coll ;;; ret _id
  end.

Definition doc_institution (d : doc) : M Institution :=
  match d with DInstitution i => ret i | _ => throw TypeError end.
Definition doc_person (d : doc) : M Person :=
  match d with DPerson p => ret p | _ => throw TypeError end.

(** [saveInstitution], inner function of [saveMetaDataEntity]; [id] is
    [newEntity._id.toString()]. *)
Definition saveInstitution (id : string) (userData : UserData)
    (institution : Institution) : M string :=
  resolved <- Mongo_resolve (TObj (institution_id institution)) "institution" None ;;
  resolved <- on_some doc_institution resolved ;;
  _id <- match resolved with
         | Some r => ret (institution_id r)
         | None => new_ObjectId
         end ;;
  let roles := match resolved with
               | Some r => institution_roles r ∪ institution_roles institution
               | None => institution_roles institution
               end in
  let roles := <[id := institution_role institution]> roles in
  let institution :=
    {| institution_id := _id;
       institution_name := institution_name institution;
       institution_roles := roles;
       institution_addresses := institution_addresses institution;
       institution_notes := institution_notes institution;
       institution_role := institution_role institution |} in
  res <- updateOne_upsert "institution" _id (DInstitution institution) ;;
  upserted_id res _id userData "institution".

(** An element of [person.institution] or [entity.institutions] that is not
    an object cannot take the assignment [institution._id = ...]. *)
Definition save_institution_slot (id : string) (userData : UserData)
    (slot : ref Institution) : M (ref Institution) :=
  match slot with
  | Unresolved _ => throw TypeError
  | Resolved i => _id <- saveInstitution id userData i ;; ret (Unresolved _id)
  end.

Definition savePerson (id : string) (userData : UserData) (person : Person)
    : M string :=
  resolved <- Mongo_resolve (TObj (person_id person)) "person" None ;;
  resolved <- on_some doc_person resolved ;;
  _id <- match resolved with
         | Some r => ret (person_id r)
         | None => new_ObjectId
         end ;;
  let roles := match resolved with
               | Some r => person_roles r ∪ person_roles person
               | None => person_roles person
               end in
  let roles := <[id := person_role person]> roles in
  institution <- mapM (save_institution_slot id userData) (person_institution person) ;;
  let person :=
    {| person_id := _id;
       person_name := person_name person;
       person_roles := roles;
       person_institutions := person_institutions person;
       person_contact_references := person_contact_references person;
       person_role := person_role person;
       person_institution := institution |} in
  res <- updateOne_upsert "person" _id (DPerson person) ;;
  upserted_id res _id userData "person".

Definition save_person_party (id : string) (userData : UserData)
    (slot : ref party) : M (ref party) :=
  match slot with
  | Resolved (PartyPerson p) => _id <- savePerson id userData p ;; ret (Unresolved _id)
  | _ => throw TypeError
  end.

Definition save_institution_party (id : string) (userData : UserData)
    (slot : ref party) : M (ref party) :=
  match slot with
  | Resolved (PartyInstitution i) =>
      _id <- saveInstitution id userData i ;; ret (Unresolved _id)
  | _ => throw TypeError
  end.

(** Body of the loop over [newEntity.tags]; a string is the value of a new
    tag. *)
Definition save_tag (userData : UserData) (slot : ref Tag) : M (ref Tag) :=
  tag <- match slot with
         | Unresolved value =>
             _id <- new_ObjectId ;; ret {| tag_id := _id; tag_value := value |}
         | Resolved t => ret t
         end ;;
  _id <- (if ObjectId.isValid (tag_id tag) then ret (tag_id tag) else new_ObjectId) ;;
  res <- updateOne_upsert "tag" _id
           (DTag {| tag_id := _id; tag_value := tag_value tag |}) ;;
  _id <- upserted_id res _id userData "tag" ;;
  ret (Unresolved _id).

(** [array.length] on [undefined] is a [TypeError]. *)
Definition for_each {A} (f : A → M A) (l : option (list A)) : M (option (list A)) :=
  match l with
  | None => throw TypeError
  | Some l => l' <- mapM f l ;; ret (Some l')
  end.

Definition saveMetaDataEntity {T} `{IMetaDataEntity T} (entity : T)
    (userData : UserData) : M T :=
  let newEntity := entity in
  let id := meta_id newEntity in
  persons <- for_each (save_person_party id userData) (meta_persons newEntity) ;;
  let newEntity := with_persons persons newEntity in
  institutions <- for_each (save_institution_party id userData)
                    (meta_institutions entity) ;;
  let newEntity := with_institutions institutions newEntity in
  if isDigitalEntity newEntity then
    tags <- for_each (save_tag userData) (meta_tags entity) ;;
    ret (with_tags tags newEntity)
  else ret newEntity.

Definition save_phyObj (userData : UserData) (slot : ref PhysicalEntity)
    : M (ref PhysicalEntity) :=
  match slot with
  | Unresolved _ => throw TypeError
  | Resolved phyObj =>
      _id <- (if ObjectId.isValid (physical_id phyObj) then ret (physical_id phyObj)
              else new_ObjectId) ;;
      savedEntity <- saveMetaDataEntity (with_id _id phyObj) userData ;;
      res <- updateOne_upsert "physicalentity" (physical_id savedEntity)
               (DPhysicalEntity savedEntity) ;;
      _id <- upserted_id res (physical_id savedEntity) userData "physicalentity" ;;
      ret (Unresolved _id)
  end.

Definition saveDigitalEntity (digitalentity : DigitalEntity) (userData : UserData)
    : M DigitalEntity :=
  newEntity <- saveMetaDataEntity digitalentity userData ;;
  phyObjs <- for_each (save_phyObj userData) (digital_phyObjs newEntity) ;;
  ret {| digital_id := digital_id newEntity;
         digital_description := digital_description newEntity;
         digital_licence := digital_licence newEntity;
         digital_persons := digital_persons newEntity;
         digital_institutions := digital_institutions newEntity;
         digital_tags := digital_tags newEntity;
         digital_phyObjs := phyObjs |}.

Definition userStub (userData : UserData) : UserStub :=
  {| stub_id := user_id userData; stub_username := user_username userData;
     stub_fullname := user_fullname userData |}.

Definition saveEntity (entity : Entity) (userData : UserData) : M Entity :=
  let settings :=
    match entity_settings entity with
    | Some s =>
        if truthy (settings_preview s)
        then Some {| settings_preview :=
               saveBase64toImage env (settings_preview s) "entity" (entity_id entity) |}
        else Some s
    | None => None
    end in
  insertCurrentUserData userData (entity_id entity) "entity" ;;;
  ret {| entity_id := entity_id entity; entity_name := entity_name entity;
         entity_mediaType := entity_mediaType entity;
         entity_finished := entity_finished entity;
         entity_online := entity_online entity;
         entity_settings := settings;
         entity_whitelist := entity_whitelist entity;
         entity_annotations := entity_annotations entity;
         entity_annotationList := entity_annotationList entity;
         entity_relatedDigitalEntity := entity_relatedDigitalEntity entity |}.

End MetaDataSaving.

(** *** The older strategy: [addAndGetId] of [saveDigitalEntity]

    [addAndGetId] works on untyped form fields.  The model covers its calls on
    the two collections for which it handles roles, with a field that has no
    [person_institution] (then [addNestedInstitution] returns its argument);
    a field carries the properties the function reads. *)

Inductive party_collection := PersonCollection | InstitutionCollection.

Definition collection_name (c : party_collection) : string :=
  match c with
  | PersonCollection => "person"
  | InstitutionCollection => "institution"
  end.

Record Field := {
  field_id : option string;
  field_name : option string;
  field_roles : option (gmap string (list string));
  field_institution_role : option (list string);
  field_person_role : option (list string);
}.

(** The stored record as the object that [findOne] returns. *)
Definition stored_field (d : doc) : option Field :=
  match d with
  | DPerson p =>
      Some {| field_id := Some (person_id p);
              field_name := Some (person_name p);
              field_roles := Some (omap (fun x => x) (person_roles p));
              field_institution_role := None;
              field_person_role := person_role p |}
  | DInstitution i =>
      Some {| field_id := Some (institution_id i);
              field_name := Some (institution_name i);
              field_roles := Some (omap (fun x => x) (institution_roles i));
              field_institution_role := institution_role i;
              field_person_role := None |}
  | _ => None
  end.

Definition or_else {A} (x y : option A) : option A :=
  match x with Some _ => x | None => y end.

(** [{ ...findResult, ...field }] *)
Definition spread (findResult field : Field) : Field :=
  {| field_id := or_else (field_id field) (field_id findResult);
     field_name := or_else (field_name field) (field_name findResult);
     field_roles := or_else (field_roles field) (field_roles findResult);
     field_institution_role :=
       or_else (field_institution_role field) (field_institution_role findResult);
     field_person_role := or_else (field_person_role field) (field_person_role findResult) |}.

(** One turn of [for (const prop of ['institution_role', 'person_role'])]:
    the roles of the context after it, and the new value of [field[prop]]. *)
Definition add_roles (doRolesExist : bool) (new_roles prop : option (list string))
    (context_roles : list string) : list string * option (list string) :=
  match prop with
  | None => (context_roles, None)
  | Some given =>
      let given := match new_roles with Some r => r | None => given end in
      let merged := if doRolesExist then (context_roles ++ given)%list else given in
      (set_from [] merged, Some [])
  end.

(** What [$set: field] leaves in the collection. *)
Definition field_doc (c : party_collection) (_id : string) (field : Field)
    (old : option doc) : doc :=
  let roles := (fun l => Some l) <$> default ∅ (field_roles field) in
  match c with
  | PersonCollection =>
      DPerson
        {| person_id := _id;
           person_name := default "" (field_name field);
           person_roles := roles;
           person_institutions :=
             match old with Some (DPerson p) => person_institutions p | _ => ∅ end;
           person_contact_references :=
             match old with Some (DPerson p) => person_contact_references p | _ => ∅ end;
           person_role := field_person_role field;
           person_institution :=
             match old with Some (DPerson p) => person_institution p | _ => [] end |}
  | InstitutionCollection =>
      DInstitution
        {| institution_id := _id;
           institution_name := default "" (field_name field);
           institution_roles := roles;
           institution_addresses :=
             match old with Some (DInstitution i) => institution_addresses i | _ => ∅ end;
           institution_notes :=
             match old with Some (DInstitution i) => institution_notes i | _ => ∅ end;
           institution_role := field_institution_role field |}
  end.

(** [_digId] is the id of the context being saved: the physical object in
    whose loop the call is made, else the digital entity. *)
Definition addAndGetId (_digId : string) (in_field : Field)
    (add_to_coll : party_collection) (new_roles : option (list string)) : M string :=
  let coll := collection_name add_to_coll in
  let isIdValid := match field_id in_field with
                   | Some i => ObjectId.isValid i
                   | None => false
                   end in
  _id <- (if isIdValid then ret (default "" (field_id in_field)) else new_ObjectId) ;;
  findResult <- (if isIdValid then findOne coll _id else ret None) ;;
  let field := match findResult ≫= stored_field with
               | Some found => spread found in_field
               | None => in_field
               end in
  let doRolesExist := match field_roles field with Some _ => true | None => false end in
  let roles := default ∅ (field_roles field) in
  let context_roles := default [] (roles !! _digId) in
  let '(context_roles, institution_role) :=
    add_roles doRolesExist new_roles (field_institution_role field) context_roles in
  let '(context_roles, person_role) :=
    add_roles doRolesExist new_roles (field_person_role field) context_roles in
  let context_roles := List.filter truthy context_roles in
  let field := {| field_id := None;
                  field_name := field_name field;
                  field_roles := Some (<[_digId := context_roles]> roles);
                  field_institution_role := institution_role;
                  field_person_role := person_role |} in
  modify (set_store (insert (coll, _id) (field_doc add_to_coll _id field findResult))) ;;;
  ret _id.

(** *** [concatFix] of the older [saveDigitalEntity]

    The arrays hold form objects and the [{_id}] objects that [addAndGetId]
    returned; the function is variadic and every call passes at least two
    arrays. *)

(** [const filterEntitiesWithoutID = (obj: any) => ObjectId.isValid(obj._id)];
    the [_id] of a form object is text as the client sent it. *)
Definition filterEntitiesWithoutID (obj : Field) : bool :=
  match field_id obj with
  | Some _id => ObjectId.accepts _id
  | None => false
  end.

(** [for (const res of result) { const obj = { _id: new ObjectId(res._id) };
      const filtered = final.filter(_obj => _obj._id.toString() === obj._id.toString());
      if (filtered.length === 0) final.push(obj); }]
    on the ids of the [{_id}] objects, each as [toString] prints it. *)
Fixpoint push_distinct (final : list string) (result : list Field) : list string :=
  match result with
  | [] => final
  | res :: result' =>
      let _id := ObjectId.toHexString (default "" (field_id res)) in
      let filtered := List.filter (λ o, bool_decide (o = _id)) final in
      push_distinct
        (if (length filtered =? 0)%nat then (final ++ [_id])%list else final) result'
  end.

Definition concatFix (first : list Field) (rest : list (list Field)) : list string :=
  let result := foldl (λ result arr, (result ++ arr)%list) first rest in
  let result := List.filter filterEntitiesWithoutID result in
  push_distinct [] result.

(** ** The request handler [addEntityToCollection] *)

Record Request := {
  request_userData : UserData;
  request_doesEntityExist : bool;
  request_isValidObjectId : bool;
  request_collectionName : string;
  request_body : doc;
}.

Inductive payload :=
| SentError (err : error)
| SentText (message : string)
| SentDocument (d : option doc).

Record Response := { status : nat; sent : payload }.

(** The module [./saving-strategies] that the handler imports. *)
Record SavingStrategies := {
  strategy_saveCompilation : Compilation → UserData → M Compilation;
  strategy_saveEntity : Entity → UserData → M Entity;
  strategy_saveAnnotation : Annotation → UserData → bool → M Annotation;
  strategy_savePerson : Person → UserData → M Person;
  strategy_saveInstitution : Institution → UserData → M Institution;
  strategy_saveDigitalEntity : DigitalEntity → UserData → M DigitalEntity;
}.

(** [entity._id = _id] *)
Definition with_doc_id (_id : string) (d : doc) : doc :=
  match d with
  | DAddress a => DAddress {| address_id := _id; address_text := address_text a |}
  | DContact c => DContact {| contact_id := _id; contact_mail := contact_mail c |}
  | DTag t => DTag {| tag_id := _id; tag_value := tag_value t |}
  | DInstitution i =>
      DInstitution
        {| institution_id := _id; institution_name := institution_name i;
           institution_roles := institution_roles i;
           institution_addresses := institution_addresses i;
           institution_notes := institution_notes i;
           institution_role := institution_role i |}
  | DPerson p =>
      DPerson
        {| person_id := _id; person_name := person_name p;
           person_roles := person_roles p;
           person_institutions := person_institutions p;
           person_contact_references := person_contact_references p;
           person_role := person_role p;
           person_institution := person_institution p |}
  | DPhysicalEntity p => DPhysicalEntity (with_id _id p)
  | DDigitalEntity d => DDigitalEntity (with_id _id d)
  | DAnnotation a =>
      DAnnotation
        {| annotation_id := _id; annotation_body := annotation_body a;
           annotation_source := annotation_source a;
           annotation_generated := annotation_generated a;
           annotation_lastModificationDate := annotation_lastModificationDate a;
           annotation_lastModifiedBy := annotation_lastModifiedBy a |}
  | DEntity e =>
      DEntity
        {| entity_id := _id; entity_name := entity_name e;
           entity_mediaType := entity_mediaType e;
           entity_finished := entity_finished e; entity_online := entity_online e;
           entity_settings := entity_settings e;
           entity_whitelist := entity_whitelist e;
           entity_annotations := entity_annotations e;
           entity_annotationList := entity_annotationList e;
           entity_relatedDigitalEntity := entity_relatedDigitalEntity e |}
  | DCompilation c =>
      DCompilation
        {| compilation_id := _id; compilation_name := compilation_name c;
           compilation_description := compilation_description c;
           compilation_password := compilation_password c;
           compilation_whitelist := compilation_whitelist c;
           compilation_relatedOwner := compilation_relatedOwner c;
           compilation_entities := compilation_entities c;
           compilation_annotations := compilation_annotations c;
           compilation_annotationList := compilation_annotationList c |}
  end.

Section Handler.

Variable env : Env.
Variable strategies : SavingStrategies.

(** The [switch (true)] over the type guards, followed by the [.then] that
    makes the requester owner of a saved DigitalEntity.  Modelled from the
    spec: [Users.makeOwnerOf] is the owner-record service. *)
Definition savingPromise (req : Request) (_id : string) (entity : doc) : M doc :=
  let userData := request_userData req in
  match entity with
  | DCompilation c =>
      c' <- strategy_saveCompilation strategies c userData ;; ret (DCompilation c')
  | DEntity e =>
      e' <- strategy_saveEntity strategies e userData ;; ret (DEntity e')
  | DAnnotation a =>
      a' <- strategy_saveAnnotation strategies a userData
              (request_doesEntityExist req) ;;
      ret (DAnnotation a')
  | DPerson p =>
      p' <- strategy_savePerson strategies p userData ;; ret (DPerson p')
  | DInstitution i =>
      i' <- strategy_saveInstitution strategies i userData ;; ret (DInstitution i')
  | DDigitalEntity d =>
      d' <- strategy_saveDigitalEntity strategies d userData ;;
      insertCurrentUserData userData (digital_id d') "digitalentity" ;;;
      ret (DDigitalEntity d')
  | other =>
      insertCurrentUserData userData _id (request_collectionName req) ;;;
      ret other
  end.

(** [isValidObjectId ? new ObjectId(entity._id) : new ObjectId()] *)
Definition request_id (req : Request) : M string :=
  if request_isValidObjectId req then ret (doc_id (request_body req))
  else new_ObjectId.

Definition addEntityToCollection (fuel : nat) (req : Request) : M Response :=
  RepoCache.flush ;;;
  let coll := request_collectionName req in
  _id <- request_id req ;;
  let entity := with_doc_id _id (request_body req) in
  (* Modelled from the spec: [Logger.err] ([services/logger], not under
     [src/]) returns a truthy value, so that
     [.catch(err => Logger.err(err) && res.status(500).send(err))] sends the
     error (spec, error handling: "surfaced to the caller"). *)
  outcome <- catch (saved <- savingPromise req _id entity ;; ret (inl saved))
               (fun err => ret (inr err)) ;;
  match outcome with
  | inr err => ret {| status := 500; sent := SentError err |}
  | inl entity =>
      if acknowledged env coll _id then
        modify (set_store (insert (coll, _id) entity)) ;;;
        resolved <- resolve fuel (TId _id) coll None ;;
        ret {| status := 200; sent := SentDocument resolved |}
      else
        ret {| status := 500; sent := SentText ("Failed updating " +:+ coll +:+ " " +:+ _id) |}
  end.

End Handler.

(** ** JSON text of id arrays

    Ownership and whitelist membership are tested in the code as substring
    tests on [JSON.stringify] of the arrays of ids. *)

Definition dquote : string := String (ascii_of_nat 34) "".

Definition quoted (s : string) : string := dquote +:+ s +:+ dquote.

Fixpoint join (sep : string) (l : list string) : string :=
  match l with
  | [] => ""
  | [x] => x
  | x :: l' => x +:+ sep +:+ join sep l'
  end.

Definition stringify_ids (ids : list string) : string :=
  "[" +:+ join "," (quoted <$> ids) +:+ "]".

Definition stringify_data (data : list (string * list string)) : string :=
  "{" +:+ join "," ((fun entry => quoted entry.1 +:+ ":" +:+ stringify_ids entry.2) <$> data)
  +:+ "}".

Definition stringify_whitelist (w : Whitelist) : string :=
  "{" +:+ quoted "enabled" +:+ ":" +:+ (if whitelist_enabled w then "true" else "false")
  +:+ "," +:+ quoted "ids" +:+ ":" +:+ stringify_ids (whitelist_ids w) +:+ "}".

Definition lower_ascii (c : ascii) : ascii :=
  let n := nat_of_ascii c in
  if (65 <=? n)%nat && (n <=? 90)%nat then ascii_of_nat (n + 32) else c.

Fixpoint toLowerCase (s : string) : string :=
  match s with
  | EmptyString => EmptyString
  | String c s' => String (lower_ascii c) (toLowerCase s')
  end.

(** ** Owner-array commands *)

Inductive reply :=
| ReplyError (message : string)
| ReplyOk.

Record OwnerRequest := {
  owner_command : string;
  owner_ownerUsername : option string;
  owner_ownerId : option string;
  owner_targetId : option string;           (* entityId / modelId *)
}.

(** [resolve(...) === undefined] tells [undefined] from [null]. *)
Inductive fetched :=
| Undefined
| Null
| Found (d : doc).

Definition owned (kind : string) (u : UserData) : option (list string) :=
  snd <$> List.find (fun entry => bool_decide (entry.1 = kind)) (user_data u).

Fixpoint set_owned (kind : string) (ids : list string)
    (data : list (string * list string)) : list (string * list string) :=
  match data with
  | [] => [(kind, ids)]
  | (k, old) :: data' =>
      if bool_decide (k = kind) then (k, ids) :: data'
      else (k, old) :: set_owned kind ids data'
  end.

Definition text_truthy (o : option string) : bool :=
  match o with Some s => truthy s | None => false end.

Section Ownership.

Variable env : Env.

(** [Mongo.resolve] of the module that holds the command. *)
Variable Mongo_resolve : string → string → M fetched.

Definition is_undefined (f : fetched) : bool :=
  match f with Undefined => true | _ => false end.

(** [findAllEntityOwners]: the accounts whose [data.entity], printed as
    JSON, contains the id. *)
Definition findAllEntityOwners (entityId : string) : M (list UserStub) :=
  st <- get_state ;;
  ret ((fun u => userStub u) <$>
       List.filter
         (fun u => match owned "entity" u with
                   | Some ids => includes (stringify_ids ids) entityId
                   | None => false
                   end)
         (snd <$> map_to_list (accounts st))).

(** [ldap.findOne(findUserQuery)] *)
Definition find_account (ownerId ownerUsername : option string) : M (option UserData) :=
  st <- get_state ;;
  if text_truthy ownerId then
    let id := default "" ownerId in
    if ObjectId.isValid id then ret (accounts st !! id)
    else throw TypeError                    (* [new ObjectId(ownerId)] throws *)
  else
    ret (List.find (fun u => bool_decide (Some (user_username u) = ownerUsername))
           (snd <$> map_to_list (accounts st))).

(** [ldap.updateOne(findUserQuery, { $set: { data: account.data } })] *)
Definition update_account (coll : string) (account : UserData)
    (data : list (string * list string)) : M bool :=
  if acknowledged env coll (user_id account) then
    modify (set_accounts (insert (user_id account) (with_data data account))) ;;;
    ret true
  else ret false.

Definition invalid_command : string :=
  "Invalid command. Use " +:+ quoted "add" +:+ " or " +:+ quoted "remove".

Definition applyActionToEntityOwner (request : OwnerRequest) : M reply :=
  let command := owner_command request in
  if negb (bool_decide (command ∈ ["add"; "remove"])) then
    ret (ReplyError invalid_command)
  else
  let ownerUsername := owner_ownerUsername request in
  let ownerId := owner_ownerId request in
  if negb (text_truthy ownerId) && negb (text_truthy ownerUsername) then
    ret (ReplyError "No owner _id or username given")
  else if text_truthy ownerId && negb (text_truthy ownerUsername)
          && negb (ObjectId.isValid (default "" ownerId)) then
    ret (ReplyError "Incorrect owner _id given")
  else
  let entityId := default "" (owner_targetId request) in
  if negb (truthy entityId) || negb (ObjectId.isValid entityId) then
    ret (ReplyError "Invalid entity identifier")
  else
  resolved <- Mongo_resolve entityId "entity" ;;
  if is_undefined resolved then ret (ReplyError "Invalid entity identifier")
  else
  account <- find_account ownerId ownerUsername ;;
  match account with
  | None => ret (ReplyError "Incorrect owner _id or username given")
  | Some account =>
      let entity := List.filter truthy (default [] (owned "entity" account)) in
      if bool_decide (command = "add") then
        let entity :=
          match List.find (fun obj => bool_decide (obj = entityId)) entity with
          | Some _ => entity
          | None => (entity ++ [entityId])%list
          end in
        ok <- update_account "users" account
                (set_owned "entity" entity (user_data account)) ;;
        ret (if ok then ReplyOk else ReplyError "Failed updating entity array")
      else
        owners <- findAllEntityOwners entityId ;;
        if (length owners =? 1)%nat then ret (ReplyError "Cannot remove last owner")
        else
          let entity :=
            List.filter (fun e => negb (bool_decide (e = entityId))) entity in
          ok <- update_account "users" account
                  (set_owned "entity" entity (user_data account)) ;;
          ret (if ok then ReplyOk else ReplyError "Failed updating entity array")
  end.

(** The older command, on [data.model] of the [ldap] accounts. *)
Definition applyActionToModelOwner (request : OwnerRequest) : M reply :=
  let command := owner_command request in
  if negb (bool_decide (command ∈ ["add"; "remove"])) then
    ret (ReplyError invalid_command)
  else
  let ownerId := default "" (owner_ownerId request) in
  if negb (truthy ownerId) || negb (ObjectId.isValid ownerId) then
    ret (ReplyError "Invalid LDAP identifier")
  else
  let modelId := default "" (owner_targetId request) in
  if negb (truthy modelId) || negb (ObjectId.isValid modelId) then
    ret (ReplyError "Invalid model identifier")
  else
  resolved <- Mongo_resolve modelId "model" ;;
  if is_undefined resolved then ret (ReplyError "Invalid model identifier")
  else
  st <- get_state ;;
  match accounts st !! ownerId with
  | None => ret (ReplyError "Invalid LDAP identifier")
  | Some account =>
      let model := default [] (owned "model" account) in
      let model :=
        if bool_decide (command = "add") then
          match List.find (fun obj => bool_decide (obj = modelId)) model with
          | Some _ => model
          | None => (model ++ [modelId])%list
          end
        else List.filter (fun m => negb (bool_decide (m = modelId))) model in
      ok <- update_account "ldap" account
              (set_owned "model" model (user_data account)) ;;
      ret (if ok then ReplyOk else ReplyError "Failed updating model array")
  end.

End Ownership.

(** [Mongo.resolve] of [services/mongo.ts] as the commands see it: [findOne]
    yields [null] for a missing document, never [undefined]. *)
Definition Mongo_resolve_fetched (id coll : string) : M fetched :=
  found <- Mongo.resolve (TId id) coll None ;;
  ret (match found with Some d => Found d | None => Null end).

(** ** Explore *)

Definition limit : nat := 30.

Definition doc_name (d : doc) : string :=
  match d with
  | DEntity e => entity_name e
  | DCompilation c => compilation_name c
  | DPerson p => person_name p
  | DInstitution i => institution_name i
  | _ => ""
  end.

(** [findCursor({ finished: true, online: true, mediaType: { $in: types } })] *)
Definition entity_query (types : list string) (d : doc) : bool :=
  match d with
  | DEntity e =>
      entity_finished e && entity_online e && bool_decide (entity_mediaType e ∈ types)
  | _ => false
  end.

Definition name_order (a b : doc) : Prop :=
  String.leb (doc_name a) (doc_name b) = true.

#[local] Instance name_order_dec : RelDecision name_order.
Proof. intros a b. unfold name_order. apply _. Defined.

(** [Repo.<coll>.findCursor(query).sort({ name: 1 }).skip(offset)]: the
    documents the cursor will deliver. *)
Definition findCursor (coll : string) (query : doc → bool) (offset : nat)
    : M (list doc) :=
  st <- get_state ;;
  ret (drop offset
         (merge_sort name_order
            (List.filter query
               (snd <$> List.filter (fun entry => bool_decide (entry.1.1 = coll))
                          (map_to_list (store st)))))).

(** [Object.keys(resolved.entities)] after the projection loop of explore. *)
Definition project_entity (slot : entity_slot) : option entity_slot :=
  match slot with
  | EntityResolved e =>
      Some (EntityPublic (entity_mediaType e) (entity_name e) (entity_settings e))
  | _ => None
  end.

Definition project_annotation (slot : ref Annotation) : option (ref Annotation) :=
  match slot with
  | Resolved a => Some (Unresolved (annotation_id a))
  | Unresolved _ => None
  end.

Definition project_digital (slot : digital_slot) : digital_slot :=
  match slot with
  | DigitalResolved d =>
      DigitalPublic (Some (digital_description d)) (Some (digital_licence d))
  | DigitalUnresolved _ => DigitalPublic None None
  | DigitalPublic description licence => DigitalPublic description licence
  end.

Definition isPWProtected (c : Compilation) : bool :=
  match compilation_password c with
  | None => false
  | Some (PasswordString s) => truthy s
  | Some (PasswordFlag _) => true
  end.

Section Explore.

Variable env : Env.
Variable fuel : nat.

(** [Users.getBySession(req)]: the session user, if any. *)
Variable userData : option UserData.

Variable request : ExploreRequest.

Let types := explore_types request.
Let filters := explore_filters request.
Let searchText := explore_searchText request.

Definition userOwned : string :=
  match userData with
  | Some u => stringify_data (user_data u)
  | None => ""
  end.

(** Body of the [while] loop of the entity search: the candidate is
    skipped ([continue]) or pushed. *)
Definition explore_entity (entities : list Entity) (_entity : doc) : M (list Entity) :=
  if negb (truthy (doc_id _entity)) then ret entities
  else
    resolved <- resolve fuel (TObj (doc_id _entity)) "entity" None ;;
    match resolved with
    | None => ret entities
    | Some d =>
        resolved <- as_entity d ;;
        let isOwner := includes userOwned (entity_id resolved) in
        let metadata := toLowerCase (JSON_stringify env (DEntity resolved)) in
        let isAnnotatable := isOwner in
        if filter_annotatable filters && negb isAnnotatable then ret entities
        else
        let isAnnotated := (0 <? size (entity_annotations resolved))%nat in
        if filter_annotated filters && negb isAnnotated then ret entities
        else
        let whitelist := entity_whitelist resolved in
        (* [None]: skipped by the whitelist visibility filter *)
        let isRestricted :=
          if whitelist_enabled whitelist then
            match userData with
            | None => None
            | Some u =>
                let isWhitelisted :=
                  includes (stringify_whitelist whitelist) (user_id u) in
                if negb isOwner && negb isWhitelisted then None else Some true
            end
          else Some false in
        match isRestricted with
        | None => ret entities
        | Some isRestricted =>
        if filter_restricted filters && negb isRestricted then ret entities
        else
        let isAssociated :=
          match userData with
          | Some u =>
              includes metadata (toLowerCase (user_fullname u))
              || includes metadata (toLowerCase (user_mail u))
          | None => false
          end in
        if filter_associated filters && negb isAssociated then ret entities
        else
        if negb (bool_decide (searchText = "")) && negb (includes metadata searchText)
        then ret entities
        else
          ret (entities ++
               [{| entity_id := entity_id resolved;
                   entity_name := entity_name resolved;
                   entity_mediaType := entity_mediaType resolved;
                   entity_finished := entity_finished resolved;
                   entity_online := entity_online resolved;
                   entity_settings := entity_settings resolved;
                   entity_whitelist := entity_whitelist resolved;
                   entity_annotations := entity_annotations resolved;
                   entity_annotationList := entity_annotationList resolved;
                   entity_relatedDigitalEntity :=
                     project_digital (entity_relatedDigitalEntity resolved) |}])%list
        end
    end.

(** [canContinue]: [(await cursor.hasNext()) && found.length < limit
    && types.length > 0]; in the compilation search also [!cursor.closed],
    which holds as long as the cursor has a next document. *)
Definition canContinue {A B} (cursor : list A) (found : list B) : bool :=
  match cursor with [] => false | _ :: _ => true end
  && (length found <? limit)%nat && (0 <? length types)%nat.

(** [while (await canContinue()) { const _entity = await cursor.next(); ... }]:
    every turn takes one document off the cursor. *)
Fixpoint scan_entities (cursor : list doc) (entities : list Entity) : M (list Entity) :=
  if canContinue cursor entities then
    match cursor with
    | _entity :: cursor' =>
        entities' <- explore_entity entities _entity ;;
        scan_entities cursor' entities'
    | [] => ret entities
    end
  else ret entities.

Definition explore_compilation (compilations : list Compilation) (_comp : doc)
    : M (list Compilation) :=
  resolved <- resolve fuel (TObj (doc_id _comp)) "compilation" None ;;
  match resolved with
  | None => ret compilations
  | Some d =>
      resolved <- as_compilation d ;;
      if negb (truthy (compilation_id resolved)) then ret compilations
      else if (size (compilation_entities resolved) =? 0)%nat then ret compilations
      else if negb (bool_decide (searchText = ""))
              && negb (includes (toLowerCase (compilation_name resolved)) searchText)
              && negb (includes (toLowerCase (compilation_description resolved)) searchText)
      then ret compilations
      else
      let isOwner := includes userOwned (compilation_id resolved) in
      let protected := isPWProtected resolved in
      let isWhitelisted :=
        whitelist_enabled (compilation_whitelist resolved)
        && match userData with
           | Some u =>
               includes (stringify_whitelist (compilation_whitelist resolved)) (user_id u)
           | None => false
           end in
      let isAnnotatable := if isOwner then true else isWhitelisted in
      if filter_annotatable filters && negb isAnnotatable then ret compilations
      else if protected && negb isOwner && negb isAnnotatable then ret compilations
      else if filter_restricted filters && protected then ret compilations
      else
      let isAnnotated := (0 <? size (compilation_annotations resolved))%nat in
      if filter_annotated filters && negb isAnnotated then ret compilations
      else
        ret (compilations ++
             [{| compilation_id := compilation_id resolved;
                 compilation_name := compilation_name resolved;
                 compilation_description := compilation_description resolved;
                 compilation_password := Some (PasswordFlag protected);
                 compilation_whitelist := compilation_whitelist resolved;
                 compilation_relatedOwner := compilation_relatedOwner resolved;
                 compilation_entities :=
                   omap project_entity (compilation_entities resolved);
                 compilation_annotations :=
                   omap project_annotation (compilation_annotations resolved);
                 compilation_annotationList :=
                   compilation_annotationList resolved |}])%list
  end.

Fixpoint scan_compilations (cursor : list doc) (compilations : list Compilation)
    : M (list Compilation) :=
  if canContinue cursor compilations then
    match cursor with
    | _comp :: cursor' =>
        compilations' <- explore_compilation compilations _comp ;;
        scan_compilations cursor' compilations'
    | [] => ret compilations
    end
  else ret compilations.

Definition locale_order (a b : doc) : Prop :=
  localeCompare_le env (doc_name a) (doc_name b) = true.

#[local] Instance locale_order_dec : RelDecision locale_order.
Proof. intros a b. unfold locale_order. apply _. Defined.

(** [explore]: the items sent with status 200 (and cached). *)
Definition explore : M (list doc) :=
  let reqHash := hash env request in
  temp <- RepoCache.get reqHash ;;
  items <-
    match temp with
    | Some (CachedItems (item :: temp')) => ret (item :: temp')
    | _ =>
        if explore_searchEntity request then
          cursor <- findCursor "entity" (entity_query types) (explore_offset request) ;;
          entities <- scan_entities cursor [] ;;
          ret (DEntity <$> entities)
        else
          cursor <- findCursor "compilation" (fun _ => true) (explore_offset request) ;;
          compilations <- scan_compilations cursor [] ;;
          ret (DCompilation <$> compilations)
    end ;;
  let items := merge_sort locale_order items in
  RepoCache.set reqHash (CachedItems items) ;;;
  ret items.

End Explore.

(** ** The read and delete handlers of [Entities] *)

(** [req.params] of the entity routes. *)
Record EntityRequestParams := {
  params_identifier : string;
  params_collection : string;
  params_password : option string;
}.

(** What a handler answers: [res.status(n).send(x)] or [res.status(n).end()]. *)
Inductive answer_body :=
| NoBody
| Message (text : string)
| Document (d : doc)
| Documents (l : list doc).

Record Answer := { answer_status : nat; answered : answer_body }.

(** Modelled from the spec: [Users.isOwner] and [Users.undoOwnerOf] are the
    owner-record service, not under [src/] ("isOwner(user, id) → bool",
    "undoOwnerOf(user, id, collectionKind) → bool", collaborator contracts):
    the session user holds the id; the id leaves the user's array of the
    collection kind, [false] when the write is not acknowledged. *)
Definition isOwner (userData : option UserData) (_id : string) : bool :=
  match userData with
  | Some user => isUserOwnerOfEntity user _id
  | None => false
  end.

Fixpoint remove_owned (kind id : string) (data : list (string * list string))
    : list (string * list string) :=
  match data with
  | [] => []
  | (k, ids) :: data' =>
      if bool_decide (k = kind)
      then (k, List.filter (λ i, negb (bool_decide (i = id))) ids) :: data'
      else (k, ids) :: remove_owned kind id data'
  end.

Definition undoOwnerOf (env : Env) (user : UserData) (_id coll : string) : M bool :=
  if acknowledged env "users" (user_id user) then
    modify (set_accounts (λ accs,
      match accs !! user_id user with
      | Some u => <[user_id user := with_data (remove_owned coll _id (user_data u)) u]> accs
      | None => accs
      end)) ;;; ret true
  else ret false.

(** [Repo.get(coll).findAll()] *)
Definition findAll (coll : string) : M (list doc) :=
  st <- get_state ;;
  ret (snd <$> List.filter (λ entry, bool_decide (entry.1.1 = coll))
                 (map_to_list (store st))).

(** [Repo.get(coll).deleteOne(query(_id))]; falsy when the driver does not
    acknowledge the deletion. *)
Definition deleteOne (env : Env) (coll _id : string) : M bool :=
  if acknowledged env coll _id then
    modify (set_store (delete (coll, _id))) ;;; ret true
  else ret false.

(** [_pw && _pw !== ''] *)
Definition isPasswordProtected (c : Compilation) : bool :=
  match compilation_password c with
  | Some (PasswordString s) => truthy s
  | Some (PasswordFlag b) => b
  | None => false
  end.

(** [_pw && _pw === password] *)
Definition isPasswordCorrect (c : Compilation) (password : string) : bool :=
  match compilation_password c with
  | Some (PasswordString s) => truthy s && bool_decide (s = password)
  | _ => false
  end.

Section EntityHandlers.

Variable env : Env.
Variable fuel : nat.

(** [Users.getBySession(req)]: the session user, if any. *)
Variable userData : option UserData.

(** [String.prototype.toLowerCase] on the collection name of the route, for
    the handlers that look one document up; it folds every cased letter,
    the byte-wise [toLowerCase] only the ASCII ones. *)
Variable lowerCase : string → string.

Definition getEntityFromCollection (params : EntityRequestParams) : M Answer :=
  let RequestCollection := lowerCase (params_collection params) in
  (* [ObjectId.isValid(identifier) ? new ObjectId(identifier) : identifier] *)
  let _id := ObjectId.parse (params_identifier params) in
  let password := match params_password params with
                  | Some p => if truthy p then p else ""
                  | None => ""
                  end in
  entity <- resolve fuel (TId _id) RequestCollection None ;;
  match entity with
  | None =>
      ret {| answer_status := 404;
             answered := Message ("No " +:+ RequestCollection
                                  +:+ " found with given identifier") |}
  | Some (DCompilation compilation) =>
      if negb (isPasswordProtected compilation) || isOwner userData _id
         || isPasswordCorrect compilation password
      then ret {| answer_status := 200; answered := Document (DCompilation compilation) |}
      else ret {| answer_status := 200; answered := NoBody |}
  | Some entity => ret {| answer_status := 200; answered := Document entity |}
  end.

Definition getAllEntitiesFromCollection (params : EntityRequestParams) : M Answer :=
  let coll := toLowerCase (params_collection params) in
  let allowed := ["person"; "institution"; "tag"] in
  if negb (bool_decide (coll ∈ allowed)) then
    ret {| answer_status := 200; answered := Documents [] |}
  else
    docs <- findAll coll ;;
    resolved <- mapM (λ doc, resolve fuel (TObj (doc_id doc)) coll None) docs ;;
    ret {| answer_status := 200; answered := Documents (omap (λ x, x) resolved) |}.

(** [username] is [req.body?.username]. *)
Definition removeEntityFromCollection (params : EntityRequestParams)
    (username : option string) : M Answer :=
  let coll := lowerCase (params_collection params) in
  (* [ObjectId.isValid(identifier)
        ? new ObjectId(identifier).toString() : identifier] *)
  let _id := ObjectId.parse (params_identifier params) in
  match userData with
  | None => ret {| answer_status := 404; answered := Message "User not found" |}
  | Some user =>
      if negb (bool_decide (username = Some (user_username user))) then
        ret {| answer_status := 403;
               answered := Message
                 "Input username does not match username with current sessionID" |}
      else
        let UserRelatedEntities := concat (snd <$> user_data user) in
        let found := List.find (λ obj, bool_decide (obj = _id)) UserRelatedEntities in
        if negb (from_option truthy false found) then
          ret {| answer_status := 401;
                 answered := Message
                   "Entity removal failed because Entity does not belong to user" |}
        else
          deleteResult <- deleteOne env coll _id ;;
          if negb deleteResult then
            ret {| answer_status := 500;
                   answered := Message ("Failed deleting " +:+ coll +:+ " "
                                        +:+ params_identifier params) |}
          else
            undone <- undoOwnerOf env user _id coll ;;
            if negb undone then
              ret {| answer_status := 500;
                     answered := Message ("Failed removing owner of " +:+ coll +:+ " "
                                          +:+ params_identifier params) |}
            else
              RepoCache.flush ;;;
              ret {| answer_status := 200;
                     answered := Message ("Deleted " +:+ coll +:+ " "
                                          +:+ params_identifier params) |}
  end.

End EntityHandlers.

(** ** Sessions of the LDAP accounts ([services/mongo.ts])

    The middleware [checkAccount] and the login handler [addToAccounts] work
    on the collection [ldap] of the accounts repository, whose documents
    carry the session id next to the owned ids. *)

Module Ldap.

(** [data: { compilations, annotations, models }] *)
Record LinkedData := {
  compilations : list string;
  annotations : list string;
  models : list string;
}.

(** [sessionID] is [None] for [null] (and for a missing field, which the
    query [{ sessionID: null }] matches as well). *)
Record Account := {
  username : string;
  sessionID : option string;
  fullname : string;
  prename : string;
  surname : string;
  status : string;
  mail : string;
  data : LinkedData;
}.

(** [request.user], the LDAP entry that passport delivers. *)
Record LdapUser := {
  cn : string;
  givenName : string;
  sn : string;
  UniColognePersonStatus : string;
  user_mail : string;
}.

Inductive outcome :=
| Next                                      (* [next()] *)
| Send (status : string) (data : option LinkedData)   (* [{ status, data }] *)
| InvalidSession                            (* [{ message: 'Invalid session' }] *)
| Unanswered.                               (* the callback throws *)

(** [ldap.find(query).toArray()] *)
Definition find (query : Account → bool) (ldap : list Account) : list Account :=
  List.filter query ldap.

(** [ldap.updateMany(query, { $set })] and, [updateOne], the same on the
    first match only. *)
Definition updateMany (query : Account → bool) (set : Account → Account)
    (ldap : list Account) : list Account :=
  (λ a, if query a then set a else a) <$> ldap.

Fixpoint updateOne (query : Account → bool) (set : Account → Account)
    (ldap : list Account) : list Account :=
  match ldap with
  | [] => []
  | a :: ldap' =>
      if query a then set a :: ldap' else a :: updateOne query set ldap'
  end.

Definition has_session (sessionID' : option string) (a : Account) : bool :=
  bool_decide (sessionID a = sessionID').

Definition has_username (username' : string) (a : Account) : bool :=
  bool_decide (username a = username').

Definition with_session (s : option string) (a : Account) : Account :=
  {| username := username a; sessionID := s; fullname := fullname a;
     prename := prename a; surname := surname a; status := status a;
     mail := mail a; data := data a |}.

(** [request.sessionID = (request.cookies['connect.sid'])
      ? request.cookies['connect.sid'].substr(2, 36) : request.sessionID] *)
Definition session_of (cookie : option string) (sessionID' : option string)
    : option string :=
  match cookie with
  | Some c => if truthy c then Some (substring 2 36 c) else sessionID'
  | None => sessionID'
  end.

(** [checkAccount]: the answer, and the collection afterwards. *)
Definition checkAccount (cookie : option string) (sessionID' : option string)
    (ldap : list Account) : outcome * list Account :=
  let sessionID' := session_of cookie sessionID' in
  let found := find (has_session sessionID') ldap in
  match length found with
  | 0 => (InvalidSession, ldap)
  | 1 => (Next, ldap)
  | _ => (InvalidSession, updateMany (has_session sessionID') (with_session None) ldap)
  end.

(** [addToAccounts]; [inserted], [updated] and [fetched] tell whether the
    driver reports the insertion, the update and the [findOne] after the
    update without error. *)
Definition addToAccounts (user : LdapUser) (username' : string)
    (sessionID' : option string) (inserted updated fetched : bool)
    (ldap : list Account) : outcome * list Account :=
  let found := find (has_username username') ldap in
  match length found with
  | 0 =>
      let account :=
        {| username := username'; sessionID := sessionID';
           fullname := cn user; prename := givenName user; surname := sn user;
           status := UniColognePersonStatus user; mail := user_mail user;
           data := {| compilations := []; annotations := []; models := [] |} |} in
      if inserted then (Send "ok" (Some (data account)), (ldap ++ [account])%list)
      else (Send "error" None, ldap)
  | 1 =>
      if updated then
        let ldap' :=
          updateOne (has_username username')
            (λ a, {| username := username a; sessionID := sessionID';
                     fullname := cn user; prename := givenName user;
                     surname := sn user; status := UniColognePersonStatus user;
                     mail := user_mail user; data := data a |}) ldap in
        if negb fetched then (Send "error" None, ldap')
        else
          match List.find (λ a, has_session sessionID' a && has_username username' a)
                  ldap' with
          | Some f_res => (Send "ok" (Some (data f_res)), ldap')
          | None => (Unanswered, ldap')            (* [f_res.data] on [null] *)
          end
      else (Send "error" None, ldap)
  | _ => (Send "error" None, ldap)
  end.

(** The number of accounts that hold the session id / the username. *)
Definition holders (s : option string) (ldap : list Account) : nat :=
  length (find (has_session s) ldap).

Definition named (u : string) (ldap : list Account) : nat :=
  length (find (has_username u) ldap).

End Ldap.

(** ** The text search of [searchByTextFilter]

    [getNestedValues] and [filterResults] walk untyped values.  [JNull]
    stands for [null] and [undefined], which the two functions do not tell
    apart; of a number they only ask whether it is falsy.  The properties of
    an object are listed in the order of [Object.keys]. *)

#[warnings="-register-all"] Inductive json :=
| JNull
| JBool (b : bool)
| JNumber (n : Z)
| JString (s : string)
| JArray (l : list json)
| JObject (props : list (string * json)).

(** [!prop] *)
Definition falsy (prop : json) : bool :=
  match prop with
  | JNull => true
  | JBool b => negb b
  | JNumber n => (n =? 0)%Z
  | JString s => negb (truthy s)
  | JArray _ | JObject _ => false
  end.

(** The values [s[0], s[1], ...] of a string, which [Object.keys] lists. *)
Fixpoint characters (s : string) : list string :=
  match s with
  | EmptyString => []
  | String c s' => String c "" :: characters s'
  end.

(** [getNestedValues]; [None] is the [TypeError] of [Object.keys] on [null]
    or [undefined]. *)
Fixpoint getNestedValues (obj : json) : option (list string) :=
  (* the body of [for (const key of Object.keys(obj))] for [prop = obj[key]] *)
  let turn (prop : json) : option (list string) :=
    if falsy prop then Some []
    else
      match prop with
      | JObject _ => getNestedValues prop
      | JArray ps =>
          (fix each (ps : list json) : option (list string) :=
             match ps with
             | [] => Some []
             | p :: ps' =>
                 values ← getNestedValues p;
                 result ← each ps';
                 Some (values ++ result)%list
             end) ps
      | JString s => Some [s]
      | _ => Some []
      end in
  match obj with
  | JNull => None
  | JBool _ | JNumber _ => Some []
  | JString s => Some (characters s)
  | JArray l =>
      (fix keys (l : list json) : option (list string) :=
         match l with
         | [] => Some []
         | prop :: l' =>
             values ← turn prop;
             result ← keys l';
             Some (values ++ result)%list
         end) l
  | JObject props =>
      (fix keys (props : list (string * json)) : option (list string) :=
         match props with
         | [] => Some []
         | (_, prop) :: props' =>
             values ← turn prop;
             result ← keys props';
             Some (values ++ result)%list
         end) props
  end.

Section TextSearch.

(** [String.prototype.toLowerCase].  It folds every cased letter of Unicode,
    which the byte-wise [toLowerCase] above does for the ASCII letters only;
    the text search is modelled for any such function. *)
Variable lowerCase : string → string.

(** [getNestedValues(obj).join('').toLowerCase()] *)
Definition asText (obj : json) : option string :=
  values ← getNestedValues obj; Some (lowerCase (join "" values)).

(** The loop over the filter terms for one object: [break] at the first term
    that the text does not contain, [push] when the last term is reached. *)
Fixpoint passes (text : string) (filter : list string) : bool :=
  match filter with
  | [] => false
  | term :: filter' =>
      if negb (includes text term) then false
      else match filter' with
           | [] => true
           | _ :: _ => passes text filter'
           end
  end.

Fixpoint filterResults (filter : list string) (objs : list json)
    : option (list json) :=
  match objs with
  | [] => Some []
  | obj :: objs' =>
      text ← asText obj;
      result ← filterResults filter objs';
      Some (if passes text filter then obj :: result else result)
  end.

(** [req.body.filter ? req.body.filter.map(_ => _.toLowerCase()) : ['']] *)
Definition text_filter (filter : option (list string)) : list string :=
  match filter with
  | Some terms => lowerCase <$> terms
  | None => [""]
  end.

End TextSearch.

(** ** Predicates of the specification *)

(** A per-context map holds no key but [entityId]. *)
Definition single_key {V} (entityId : string) (m : gmap string V) : Prop :=
  ∀ k, k ≠ entityId → m !! k = None.

(** Every per-context map of the record holds no key but [entityId]. *)
Definition only_context (entityId : string) (obj : party) : Prop :=
  match obj with
  | PartyPerson p =>
      single_key entityId (person_roles p)
      ∧ single_key entityId (person_institutions p)
      ∧ single_key entityId (person_contact_references p)
  | PartyInstitution i =>
      single_key entityId (institution_roles i)
      ∧ single_key entityId (institution_addresses i)
      ∧ single_key entityId (institution_notes i)
  end.

(** An institution slot that is hydrated and filtered to [entityId]. *)
Definition hydrated_under (entityId : string) (r : ref Institution) : Prop :=
  ∃ i, r = Resolved i ∧ only_context entityId (PartyInstitution i).

(** The institutions listed in the person's entry for [entityId] are hydrated
    and filtered to [entityId]. *)
Definition nested_only_context (entityId : string) (p : Person) : Prop :=
  ∀ l, person_institutions p !! entityId = Some (Some l) →
       Forall (hydrated_under entityId) l.

(** What [resolveMetaDataEntity] does to an entry of [persons]: it leaves it
    (the reference did not resolve) or replaces it by a record filtered to the
    owning id. *)
Definition embedded_under (_id : string) (old new : ref party) : Prop :=
  new = old ∨ ∃ p, new = Resolved p ∧ only_context _id p.



(** The run returned a value. *)
Definition succeeds {A} (r : result A * State) : bool :=
  match r with (Ok _, _) => true | (Throw _, _) => false end.

(** The ids an [annotationList] holds, nulls dropped. *)
Definition list_ids (l : option (list (option (ref Annotation)))) : list string :=
  entry_id <$> filter_null (default [] l).

(** [addAnnotationsToAnnotationList], the computation of the new list:
    [Array.from(new Set(list.filter(ann => ann).concat(validAnnotations)
       .map(ann => isAnnotation(ann) ? new ObjectId(ann._id) : new ObjectId(ann))))].
    The members of the set are the [ObjectId] objects that the [map] has just
    created; no two of them are the same object, the set keeps them all. *)
Definition concat_annotationList (l : option (list (option (ref Annotation))))
    (validAnnotations : list Annotation) : list (option (ref Annotation)) :=
  (λ a, Some (Unresolved (entry_id a)))
    <$> (filter_null (default [] l) ++ (Resolved <$> validAnnotations))%list.

(** What [updateAnnotationList] returns, [obj'], against the object [obj] that
    the resolver delivered: the list holds references only; it is the old list
    of ids when the id was among them, the old list with the id appended when
    it was not; it has no duplicates if the old list had none. *)
Definition set_semantics (R : resolver) (entityOrCompId add_to_coll annotationId : string)
    (st : State) (obj' : annotated) (st' : State) : Prop :=
  ∃ d obj,
    R (TId entityOrCompId) add_to_coll (Some 0%Z) st = (Ok (Some d), st')
    ∧ as_annotated d st' = (Ok obj, st')
    ∧ let before := list_ids (annotationList obj) in
      let after := list_ids (annotationList obj') in
      annotationList obj' = Some ((λ id, Some (Unresolved id)) <$> after)
      ∧ (annotationId ∈ before → after = before)
      ∧ (annotationId ∉ before → after = (before ++ [annotationId])%list)
      ∧ (NoDup before → NoDup after).

(** A computation keeps the property [P] of the state, whatever it returns. *)
Definition preserves {A} (P : State → Prop) (c : M A) : Prop :=
  ∀ st r st', P st → c st = (r, st') → P st'.

(** Every result set in the cache has at most [limit] items. *)
Definition explore_cache_bounded (st : State) : Prop :=
  ∀ key items, cache st !! key = Some (CachedItems items) → (length items ≤ limit)%nat.

(** For each item, whether it is an entity with an enabled whitelist. *)
Definition restricted_items (items : list doc) : list bool :=
  (λ d, match d with
        | DEntity e => whitelist_enabled (entity_whitelist e)
        | _ => false
        end) <$> items.

(** An entity without enabled whitelist. *)
Definition public (e : Entity) : Prop :=
  whitelist_enabled (entity_whitelist e) = false.

(** The roles a stored person or institution holds for a context. *)
Definition stored_roles (st : State) (coll _id context : string) : option (list string) :=
  match store st !! (coll, _id) with
  | Some (DPerson p) => mjoin (person_roles p !! context)
  | Some (DInstitution i) => mjoin (institution_roles i !! context)
  | _ => None
  end.

(** *** Further predicates *)



(** The list is there and holds hydrated institutions only. *)
Definition all_hydrated (l : option (list (ref Institution))) : Prop :=
  ∃ l', l = Some l' ∧ Forall (λ r, ∃ i, r = Resolved i) l'.

(** The store and the accounts are those of [st]. *)
Definition same_repository (st st' : State) : Prop :=
  store st' = store st ∧ accounts st' = accounts st.

(** The ids in the [annotationList] of the entity or compilation stored
    under [(coll, _id)]. *)
Definition stored_annotationList (st : State) (coll _id : string) : list string :=
  match store st !! (coll, _id) with
  | Some (DEntity e) => list_ids (entity_annotationList e)
  | Some (DCompilation c) => list_ids (compilation_annotationList c)
  | _ => []
  end.

(** The collection and the id of the object whose list [saveAnnotation]
    updates: the compilation when [relatedCompilation] is a valid id, the
    entity otherwise. *)
Definition annotation_target (annotation : Annotation) : option (string * string) :=
  source ← annotation_source annotation;
  relatedEntityId ← source_relatedEntity source;
  relatedCompId ← source_relatedCompilation source;
  Some (if ObjectId.isValid relatedCompId then ("compilation", relatedCompId)
        else ("entity", relatedEntityId)).

(** Every account is filed under its own [_id]. *)
Definition accounts_keyed (st : State) : Prop :=
  map_Forall (λ k u, user_id u = k) (accounts st).

(** The entity list that the command [add] leaves in the account. *)
Definition added (entityId : string) (u : UserData) : list string :=
  let entity := List.filter truthy (default [] (owned "entity" u)) in
  match List.find (λ obj, bool_decide (obj = entityId)) entity with
  | Some _ => entity
  | None => (entity ++ [entityId])%list
  end.

(** The accounts that [findAllEntityOwners] lists for the id, and its test
    on one account. *)
Definition owners_of (entityId : string) (st : State) : list UserStub :=
  match findAllEntityOwners entityId st with
  | (Ok owners, _) => owners
  | (Throw _, _) => []
  end.

Definition holds_entity (entityId : string) (u : UserData) : bool :=
  match owned "entity" u with
  | Some ids => includes (stringify_ids ids) entityId
  | None => false
  end.

(** What explore sends of a document: a compilation with a flag in place of
    its password, its entities and annotations reduced to their public
    projection; an entity with [{description, licence}] in place of its
    digital entity. *)
Definition sanitized (d : doc) : Prop :=
  match d with
  | DCompilation c =>
      (∃ b, compilation_password c = Some (PasswordFlag b))
      ∧ (∀ id slot, compilation_entities c !! id = Some slot →
           ∃ mediaType name settings, slot = EntityPublic mediaType name settings)
      ∧ (∀ id slot, compilation_annotations c !! id = Some slot →
           ∃ _id, slot = Unresolved _id)
  | DEntity e =>
      ∃ description licence,
        entity_relatedDigitalEntity e = DigitalPublic description licence
  | _ => False
  end.

(** Every result set in the cache is made of such documents. *)
Definition explore_cache_sanitized (st : State) : Prop :=
  ∀ key items, cache st !! key = Some (CachedItems items) → Forall sanitized items.

(** The request is not answered from the cache: [temp && temp?.length > 0]
    fails. *)
Definition cache_miss (env : Env) (request : ExploreRequest) (st : State) : Prop :=
  match cache st !! hash env request with
  | Some (CachedItems (_ :: _)) => False
  | _ => True
  end.

(** The [_id] of the document that an answer carries. *)
Definition sent_id (answer : Answer) : option string :=
  match answered answer with
  | Document d => Some (doc_id d)
  | _ => None
  end.

(** The session user whose name was submitted holds the id. *)
Definition may_remove (userData : option UserData) (username : option string)
    (_id : string) : Prop :=
  ∃ user, userData = Some user
          ∧ username = Some (user_username user)
          ∧ _id ∈ concat (snd <$> user_data user).

(** The documents of a collection. *)
Definition collection (st : State) (coll : string) : list doc :=
  snd <$> List.filter (λ entry, bool_decide (entry.1.1 = coll)) (map_to_list (store st)).

(** The roles that a turn of the loop over the role properties of
    [addAndGetId] adds: [new_roles] when given, else the value of the
    property. *)
Definition submitted_roles (new_roles prop : option (list string)) : list string :=
  match prop with
  | None => []
  | Some given => default given new_roles
  end.

(** The object has a text and it contains every term of the filter, of
    which there is at least one. *)
Definition found_by (lowerCase : string → string) (filter : list string)
    (obj : json) : Prop :=
  ∃ text, asText lowerCase obj = Some text
          ∧ filter ≠ []
          ∧ Forall (λ term, includes text term = true) filter.

(** ** Sample data

    A small repository used to run the definitions: a person [P] with roles in
    two digital entities [A] and [B], an entity [E] with one annotation, a
    compilation [C], and two accounts. *)

Module Sample.

Definition idA := "aaaaaaaaaaaaaaaaaaaaaaaa".
Definition idB := "bbbbbbbbbbbbbbbbbbbbbbbb".
Definition idP := "111111111111111111111111".
Definition idI := "222222222222222222222222".
Definition idE := "eeeeeeeeeeeeeeeeeeeeeeee".
Definition idC := "cccccccccccccccccccccccc".
Definition idN := "999999999999999999999999".
Definition idU1 := "dddddddddddddddddddddddd".
Definition idU2 := "ffffffffffffffffffffffff".

Definition env : Env :=
  {| now := "2020-01-01T00:00:00.000Z";
     saveBase64toImage := fun payload _ _ => payload;
     acknowledged := fun _ _ => true;
     JSON_stringify := doc_name;
     hash := fun request => "explore:" +:+ explore_searchText request;
     localeCompare_le := String.leb |}.

Definition P : Person :=
  {| person_id := idP;
     person_name := "Ada";
     person_roles := {[ idA := Some ["AUTHOR"]; idB := Some ["EDITOR"] ]};
     person_institutions := {[ idA := Some []; idB := Some [] ]};
     person_contact_references := ∅;
     person_role := None;
     person_institution := [] |}.

Definition A : DigitalEntity :=
  {| digital_id := idA;
     digital_description := "first";
     digital_licence := "BY";
     digital_persons := Some [Unresolved idP];
     digital_institutions := Some [];
     digital_tags := None;
     digital_phyObjs := None |}.

Definition N : Annotation :=
  {| annotation_id := idN;
     annotation_body :=
       Some {| body_addr := 1;
               body_content :=
                 Some {| content_relatedPerspective :=
                           Some {| perspective_preview := "stored.png" |} |} |};
     annotation_source :=
       Some {| source_relatedEntity := Some idE;
               source_relatedCompilation := Some idC |};
     annotation_generated := Some "2019-01-01T00:00:00.000Z";
     annotation_lastModificationDate := Some "2019-01-01T00:00:00.000Z";
     annotation_lastModifiedBy :=
       {| agent_id := idU1; agent_name := "First User"; agent_type := "person" |} |}.

Definition E : Entity :=
  {| entity_id := idE;
     entity_name := "Statue";
     entity_mediaType := "model";
     entity_finished := true;
     entity_online := true;
     entity_settings := None;
     entity_whitelist := {| whitelist_enabled := true; whitelist_ids := [idU1] |};
     entity_annotations := {[ idN := Unresolved idN ]};
     entity_annotationList := Some [Some (Unresolved idN)];
     entity_relatedDigitalEntity := DigitalUnresolved idA |}.

Definition C : Compilation :=
  {| compilation_id := idC;
     compilation_name := "Collection";
     compilation_description := "";
     compilation_password := None;
     compilation_whitelist := {| whitelist_enabled := false; whitelist_ids := [] |};
     compilation_relatedOwner := None;
     compilation_entities := {[ idE := EntityUnresolved idE ]};
     compilation_annotations := ∅;
     compilation_annotationList := Some [Some (Unresolved idN)] |}.

(** [U1] owns the entity and the annotation, [U2] the compilation. *)
Definition U1 : UserData :=
  {| user_id := idU1; user_username := "first"; user_fullname := "First User";
     user_mail := "first@example.org";
     user_data := [("entity", [idE]); ("annotation", [idN]); ("model", [idE])] |}.

Definition U2 : UserData :=
  {| user_id := idU2; user_username := "second"; user_fullname := "Second User";
     user_mail := "second@example.org";
     user_data := [("compilation", [idC])] |}.

Definition repository : State :=
  {| store :=
       {[ ("person", idP) := DPerson P;
          ("digitalentity", idA) := DDigitalEntity A;
          ("annotation", idN) := DAnnotation N;
          ("entity", idE) := DEntity E;
          ("model", idE) := DEntity E;
          ("compilation", idC) := DCompilation C ]};
     cache := ∅;
     accounts := {[ idU1 := U1; idU2 := U2 ]};
     next_id := 0 |}.

(** A digital entity in which [P] has no role yet. *)
Definition idD := "dadadadadadadadadadadada".

Definition D : DigitalEntity :=
  {| digital_id := idD;
     digital_description := "third";
     digital_licence := "BY";
     digital_persons := Some [Unresolved idP];
     digital_institutions := Some [];
     digital_tags := None;
     digital_phyObjs := None |}.

(** The annotation [N] as a compilation owner resubmits it: a new object
    (address 2) with another preview, and one with the stored content. *)
Definition N_changed : Annotation :=
  {| annotation_id := idN;
     annotation_body :=
       Some {| body_addr := 2;
               body_content :=
                 Some {| content_relatedPerspective :=
                           Some {| perspective_preview := "changed.png" |} |} |};
     annotation_source := annotation_source N;
     annotation_generated := annotation_generated N;
     annotation_lastModificationDate := annotation_lastModificationDate N;
     annotation_lastModifiedBy := annotation_lastModifiedBy N |}.

Definition N_unchanged : Annotation :=
  {| annotation_id := idN;
     annotation_body :=
       Some {| body_addr := 2;
               body_content :=
                 Some {| content_relatedPerspective :=
                           Some {| perspective_preview := "stored.png" |} |} |};
     annotation_source := annotation_source N;
     annotation_generated := annotation_generated N;
     annotation_lastModificationDate := annotation_lastModificationDate N;
     annotation_lastModifiedBy := annotation_lastModifiedBy N |}.

(** The strategies of the handler: those of the saving module under [src/].
    It has no [savePerson] / [saveInstitution] of the handler's type, and its
    [saveCompilation] works on an array of entities where the handler's
    compilations hold an id-keyed object; these three are taken as given. *)
Definition strategies (R : resolver)
    (saveCompilation : Compilation → UserData → M Compilation)
    (savePerson : Person → UserData → M Person)
    (saveInstitution : Institution → UserData → M Institution) : SavingStrategies :=
  {| strategy_saveCompilation := saveCompilation;
     strategy_saveEntity := saveEntity env;
     strategy_saveAnnotation := saveAnnotation env R;
     strategy_savePerson := savePerson;
     strategy_saveInstitution := saveInstitution;
     strategy_saveDigitalEntity := saveDigitalEntity env R |}.

Definition handler_strategies : SavingStrategies :=
  strategies (resolve 4) (fun c _ => ret c) (fun p _ => ret p) (fun i _ => ret i).

(** An annotation without [target.source], submitted by [U1]. *)
Definition N_malformed : Annotation :=
  {| annotation_id := idN;
     annotation_body := annotation_body N;
     annotation_source := None;
     annotation_generated := None;
     annotation_lastModificationDate := None;
     annotation_lastModifiedBy := annotation_lastModifiedBy N |}.

Definition malformed_request : Request :=
  {| request_userData := U1;
     request_doesEntityExist := true;
     request_isValidObjectId := true;
     request_collectionName := "annotation";
     request_body := DAnnotation N_malformed |}.

(** The repository after the entity [E] has been resolved once and cached. *)
Definition cached_repository : State :=
  set_cache (insert idE (CachedDoc (DEntity E))) repository.

(** [U1] is the only owner of [E]; the command that takes [E] from [U1]. *)
Definition remove_last : OwnerRequest :=
  {| owner_command := "remove"; owner_ownerUsername := None;
     owner_ownerId := Some idU1; owner_targetId := Some idE |}.

(** An entity search for models, without filters or search text. *)
Definition explore_request : ExploreRequest :=
  {| explore_searchEntity := true;
     explore_types := ["model"];
     explore_filters :=
       {| filter_annotatable := false; filter_annotated := false;
          filter_restricted := false; filter_associated := false |};
     explore_searchText := "";
     explore_offset := 0 |}.

(** An institution with a role in [A], and the forms in which [P] and the
    institution are submitted again when [A] is re-saved: [P] now as editor,
    the institution as funder. *)
Definition I : Institution :=
  {| institution_id := idI;
     institution_name := "Museum";
     institution_roles := {[ idA := Some ["PUBLISHER"]; idB := Some ["OWNER"] ]};
     institution_addresses := ∅;
     institution_notes := ∅;
     institution_role := None |}.

Definition P_resubmitted : Person :=
  {| person_id := idP;
     person_name := "Ada";
     person_roles := ∅;
     person_institutions := ∅;
     person_contact_references := ∅;
     person_role := Some ["EDITOR"];
     person_institution := [] |}.

Definition I_resubmitted : Institution :=
  {| institution_id := idI;
     institution_name := "Museum";
     institution_roles := ∅;
     institution_addresses := ∅;
     institution_notes := ∅;
     institution_role := Some ["FUNDER"] |}.

Definition archive : State := set_store (insert ("institution", idI) (DInstitution I)) repository.

(** [P] as a form field of the older strategy. *)
Definition P_field : Field :=
  {| field_id := Some idP;
     field_name := None;
     field_roles := None;
     field_institution_role := None;
     field_person_role := Some ["EDITOR"] |}.

End Sample.

(** ** Further sample data

    A requester who owns nothing, an [add] command, an explore request
    without media types, route parameters, untyped search objects and a
    small [ldap] collection. *)

Module Cases.

(** A person [Q] of the contexts [A] and [B] who lists, for [A], the
    institution [I], itself a member of [A] and [B]; the digital entity [A]
    with [Q] as its person. *)
Definition idQ := "333333333333333333333333".

Definition Q : Person :=
  {| person_id := idQ;
     person_name := "Grace";
     person_roles := {[ Sample.idA := Some ["AUTHOR"]; Sample.idB := Some ["EDITOR"] ]};
     person_institutions := {[ Sample.idA := Some [Unresolved Sample.idI] ]};
     person_contact_references := ∅;
     person_role := None;
     person_institution := [] |}.

Definition A_of_Q : DigitalEntity :=
  {| digital_id := Sample.idA;
     digital_description := "first";
     digital_licence := "BY";
     digital_persons := Some [Unresolved idQ];
     digital_institutions := Some [];
     digital_tags := None;
     digital_phyObjs := None |}.

Definition registry : State :=
  set_store (insert ("person", idQ) (DPerson Q)) Sample.archive.

(** [P] submitted again as editor, listing an institution that is new. *)
Definition I_new : Institution :=
  {| institution_id := "";
     institution_name := "Library";
     institution_roles := ∅;
     institution_addresses := ∅;
     institution_notes := ∅;
     institution_role := Some ["HOLDER"] |}.

Definition P_joining : Person :=
  {| person_id := Sample.idP;
     person_name := "Ada";
     person_roles := ∅;
     person_institutions := ∅;
     person_contact_references := ∅;
     person_role := Some ["EDITOR"];
     person_institution := [Resolved I_new] |}.

(** [P] submitted again as editor, listing the stored institution [I]. *)
Definition P_listing : Person :=
  {| person_id := Sample.idP;
     person_name := "Ada";
     person_roles := ∅;
     person_institutions := ∅;
     person_contact_references := ∅;
     person_role := Some ["EDITOR"];
     person_institution := [Resolved Sample.I_resubmitted] |}.

Definition stranger : UserData :=
  {| user_id := "abababababababababababab"; user_username := "third";
     user_fullname := "Third User"; user_mail := "third@example.org";
     user_data := [] |}.

(** The command that makes [U2] an owner of [E]. *)
Definition add_owner : OwnerRequest :=
  {| owner_command := "add"; owner_ownerUsername := None;
     owner_ownerId := Some Sample.idU2; owner_targetId := Some Sample.idE |}.

Definition no_types : ExploreRequest :=
  {| explore_searchEntity := true;
     explore_types := [];
     explore_filters := explore_filters Sample.explore_request;
     explore_searchText := "";
     explore_offset := 0 |}.

Definition compilation_search : ExploreRequest :=
  {| explore_searchEntity := false;
     explore_types := ["model"];
     explore_filters := explore_filters Sample.explore_request;
     explore_searchText := "";
     explore_offset := 0 |}.

(** A compilation with a password, owned by [U2]. *)
Definition idS := "5c5c5c5c5c5c5c5c5c5c5c5c".

Definition secret : Compilation :=
  {| compilation_id := idS;
     compilation_name := "Private";
     compilation_description := "";
     compilation_password := Some (PasswordString "sesame");
     compilation_whitelist := {| whitelist_enabled := false; whitelist_ids := [] |};
     compilation_relatedOwner := None;
     compilation_entities := {[ Sample.idE := EntityUnresolved Sample.idE ]};
     compilation_annotations := ∅;
     compilation_annotationList := Some [] |}.

Definition vault : State :=
  set_store (insert ("compilation", idS) (DCompilation secret)) Sample.repository.

(** The request spells the identifier [idS] in upper case. *)
Definition secret_params (password : option string) : EntityRequestParams :=
  {| params_identifier := "5C5C5C5C5C5C5C5C5C5C5C5C"; params_collection := "Compilation";
     params_password := password |}.

Definition person_params : EntityRequestParams :=
  {| params_identifier := ""; params_collection := "Person";
     params_password := None |}.

(** The identifier [idE], spelled in upper case. *)
Definition entity_params : EntityRequestParams :=
  {| params_identifier := "EEEEEEEEEEEEEEEEEEEEEEEE"; params_collection := "entity";
     params_password := None |}.

(** Two search objects: a person with a nested institution, and a tag. *)
Definition ada : json :=
  JObject [("name", JString "Ada Lovelace");
           ("age", JNumber 36);
           ("institutions", JArray [JObject [("name", JString "Analytical Society")]])].

Definition tag : json := JObject [("value", JString "Engine"); ("count", JNumber 0)].

(** Two accounts that hold the same session id, and one with its own. *)
Definition account (name : string) (session : option string) : Ldap.Account :=
  {| Ldap.username := name; Ldap.sessionID := session; Ldap.fullname := name;
     Ldap.prename := ""; Ldap.surname := ""; Ldap.status := "";
     Ldap.mail := "";
     Ldap.data := {| Ldap.compilations := [Sample.idC]; Ldap.annotations := [];
                     Ldap.models := [] |} |}.

Definition ldap : list Ldap.Account :=
  [account "first" (Some "s1"); account "second" (Some "s1");
   account "third" (Some "s2")].

(** A new annotation of the entity [E] in the compilation [C]. *)
Definition idN2 := "777777777777777777777777".

Definition N_new : Annotation :=
  {| annotation_id := idN2;
     annotation_body := annotation_body Sample.N_changed;
     annotation_source := annotation_source Sample.N;
     annotation_generated := None;
     annotation_lastModificationDate := None;
     annotation_lastModifiedBy := annotation_lastModifiedBy Sample.N |}.


End Cases.

(** * Properties *)

(** ** Reasoning about the monad *)

Lemma bind_Ok {A B} (c : M A) (k : A → M B) st b st' :
  bind c k st = (Ok b, st') →
  ∃ a st1, c st = (Ok a, st1) ∧ k a st1 = (Ok b, st').
Proof.
  unfold bind. destruct (c st) as [[a|e] st1]; [eauto | discriminate].
Qed.

Lemma ret_Ok {A} (a b : A) st st' : ret a st = (Ok b, st') → a = b ∧ st = st'.
Proof. unfold ret. intros H. by inversion H. Qed.

Lemma throw_Ok {A} e (b : A) st st' : throw e st = (Ok b, st') → False.
Proof. discriminate. Qed.

Ltac inv_M :=
  cbv beta iota in *;
  repeat match goal with
  | H : bind _ _ _ = (Ok _, _) |- _ =>
      apply bind_Ok in H; destruct H as (? & ? & ? & H)
  | H : ret _ _ = (Ok _, _) |- _ => apply ret_Ok in H; destruct H; simplify_eq
  | H : throw _ _ = (Ok _, _) |- _ => by apply throw_Ok in H
  end.

Ltac case_M :=
  match goal with
  | H : (match ?x with _ => _ end) _ = (Ok _, _) |- _ => destruct x eqn:?
  end; inv_M.

Lemma mapM_Forall2 {A B} (f : A → M B) l : ∀ st l' st',
  mapM f l st = (Ok l', st') →
  Forall2 (λ x y, ∃ s1 s2, f x s1 = (Ok y, s2)) l l'.
Proof.
  induction l as [|x l IH]; simpl; intros st l' st' H.
  - inv_M. constructor.
  - inv_M. constructor; eauto.
Qed.

Lemma foldM_invariant {A B} (P : B → Prop) (Q : A → Prop) (f : B → A → M B) l :
  ∀ b st b' st',
  foldM f l b st = (Ok b', st') →
  Forall Q l →
  P b →
  (∀ b x s b' s', Q x → P b → f b x s = (Ok b', s') → P b') →
  P b'.
Proof.
  induction l as [|x l IH]; simpl; intros b st b' st' H HQ Hb Hstep.
  - inv_M. done.
  - inv_M. inversion HQ; subst. eapply IH; eauto.
Qed.

Lemma only_related_single {V} (m : gmap string (option V)) entityId :
  single_key entityId (only_related m entityId).
Proof.
  intros k Hk. unfold only_related. rewrite lookup_insert_ne by done. apply lookup_empty.
Qed.

Lemma removeUnrelatedEntities_only_context obj entityId :
  only_context entityId (removeUnrelatedEntities obj entityId).
Proof.
  destruct obj; simpl; repeat split; apply only_related_single.
Qed.

Lemma single_key_entries {V} entityId (m : gmap string V) :
  single_key entityId m → Forall (λ entry, entry.1 = entityId) (map_to_list m).
Proof.
  intros Hm. apply Forall_forall. intros [k v] Hin.
  apply elem_of_map_to_list in Hin. simpl.
  destruct (decide (k = entityId)) as [|Hne]; [done|].
  rewrite (Hm k Hne) in Hin. discriminate.
Qed.

Lemma single_key_insert {V} entityId (m : gmap string V) v :
  single_key entityId m → single_key entityId (<[entityId := v]> m).
Proof. intros Hm k Hk. rewrite lookup_insert_ne by done. auto. Qed.

Lemma single_key_delete {V} entityId k' (m : gmap string V) :
  single_key entityId m → single_key entityId (delete k' m).
Proof.
  intros Hm k Hk. destruct (decide (k' = k)) as [->|].
  - apply lookup_delete_eq.
  - rewrite lookup_delete_ne by done. auto.
Qed.

Lemma filter_context_only_context obj entityId :
  truthy entityId = true →
  only_context entityId (filter_context obj (Some entityId)).
Proof.
  intros Ht. simpl. rewrite Ht. apply removeUnrelatedEntities_only_context.
Qed.

Lemma resolveInstitution_only_context R institution entityId st i st' :
  truthy entityId = true →
  resolveInstitution R institution (Some entityId) st = (Ok i, st') →
  only_context entityId (PartyInstitution i).
Proof.
  intros Ht H. unfold resolveInstitution in H.
  pose proof (filter_context_only_context institution entityId Ht) as Hctx.
  destruct (filter_context institution (Some entityId)) as [p|i0]; simpl in H; inv_M.
  destruct Hctx as (Hr & Ha & Hn). simpl. repeat split; try done.
  eapply (foldM_invariant (single_key entityId) (λ entry, entry.1 = entityId));
    [eassumption|by apply single_key_entries|exact Ha|].
  intros m [k v] s m' s' Hk Hm Hstep. simpl in Hk. subst k.
  unfold resolve_address_entry in Hstep.
  destruct (negb (isUnresolved v)); inv_M; [done|].
  inv_M.
  match goal with H : match ?x with _ => _ end _ = _ |- _ => destruct x as [d|] end; inv_M.
  - unfold as_address in *. destruct d; inv_M. by apply single_key_insert.
  - by apply single_key_delete.
Qed.

Lemma only_related_singleton {V} (m : gmap string (option V)) entityId :
  only_related m entityId = {[ entityId := mjoin (m !! entityId) ]}.
Proof. unfold only_related. apply insert_empty. Qed.

Lemma resolve_nested_institutions_only R entityId l : ∀ st l' st',
  truthy entityId = true →
  mapM (resolve_nested_institution R (Some entityId)) l st = (Ok l', st') →
  Forall (hydrated_under entityId) (Resolved <$> omap (λ x, x) l').
Proof.
  induction l as [|r l IH]; simpl; intros st l' st' Ht H; inv_M.
  - constructor.
  - unfold resolve_nested_institution in H0. inv_M.
    case_M; simpl.
    + constructor; [|eauto].
      eexists; split; [done|]. eapply resolveInstitution_only_context; eauto.
    + eauto.
Qed.

Lemma resolvePerson_only_context R person entityId st p st' :
  truthy entityId = true →
  resolvePerson R person (Some entityId) st = (Ok p, st') →
  only_context entityId (PartyPerson p) ∧ nested_only_context entityId p.
Proof.
  intros Ht H. unfold resolvePerson in H.
  pose proof (filter_context_only_context person entityId Ht) as Hctx.
  assert (Hinst : ∀ q, filter_context person (Some entityId) = PartyPerson q →
            map_to_list (person_institutions q)
            = [(entityId, mjoin (person_institutions q !! entityId))]).
  { intros q Hq. simpl in Hq. rewrite Ht in Hq. destruct person; simpl in Hq; [|done].
    inversion Hq; subst; simpl. rewrite only_related_singleton.
    rewrite map_to_list_singleton. by rewrite lookup_singleton_eq. }
  destruct (filter_context person (Some entityId)) as [q|i0]; simpl in H; inv_M.
  specialize (Hinst _ eq_refl). destruct Hctx as (Hr & Hi & Hc).
  match goal with
  | H : foldM (resolve_contact_entry _) _ _ _ = (Ok ?c, _) |- _ =>
      assert (Hcontacts : single_key entityId c)
  end.
  { eapply (foldM_invariant (single_key entityId) (λ entry, entry.1 = entityId));
      [eassumption|by apply single_key_entries|exact Hc|].
    intros m [k v] s m' s' Hk Hm Hstep. simpl in Hk. subst k.
    unfold resolve_contact_entry in Hstep.
    destruct (negb (isUnresolved v)); inv_M; [done|].
    inv_M.
    match goal with H : match ?x with _ => _ end _ = _ |- _ => destruct x as [d|] end; inv_M.
    - unfold as_contact in *. destruct d; inv_M. by apply single_key_insert.
    - by apply single_key_delete. }
  match goal with
  | H : foldM (resolve_institutions_entry _ _) _ _ _ = _ |- _ =>
      rewrite Hinst in H; simpl in H; inv_M;
      unfold resolve_institutions_entry in *
  end.
  case_M.
  split.
  - simpl. repeat split; [done| |done]. by apply single_key_insert.
  - intros l' Hl'. simpl in Hl'. rewrite lookup_insert_eq in Hl'.
    inversion Hl'; subst. eapply resolve_nested_institutions_only; eauto.
Qed.

Lemma default_roles_only_context p _id :
  only_context _id p → only_context _id (default_roles p _id).
Proof.
  unfold default_roles. destruct (mjoin (party_roles p !! _id)); [done|].
  destruct p; simpl; intros (Hr & H2 & H3); repeat split; try done;
    by apply single_key_insert.
Qed.

Lemma resolve_person_slot_embedded R _id slot st slot' st' :
  resolve_person_slot R _id slot st = (Ok slot', st') →
  embedded_under _id slot slot'.
Proof.
  unfold resolve_person_slot. intros H. inv_M.
  case_M.
  - right. eexists; split; [done|].
    apply default_roles_only_context, removeUnrelatedEntities_only_context.
  - by left.
Qed.

Lemma resolve_institution_slot_embedded R _id slot st slot' st' :
  resolve_institution_slot R _id slot st = (Ok slot', st') →
  ∃ p, slot' = Resolved p ∧ only_context _id p.
Proof.
  unfold resolve_institution_slot. intros H. destruct slot; inv_M.
  eexists; split; [done|]. apply removeUnrelatedEntities_only_context.
Qed.

Lemma Forall2_impl_exists {A B} (f : A → M B) (P : A → B → Prop) l l' :
  (∀ x y s1 s2, f x s1 = (Ok y, s2) → P x y) →
  Forall2 (λ x y, ∃ s1 s2, f x s1 = (Ok y, s2)) l l' → Forall2 P l l'.
Proof.
  intros HP H. induction H as [|x y l l' (s1 & s2 & Hxy) _ IH]; constructor; eauto.
Qed.

Lemma resolve_parties R _id persons institutions st persons' institutions' st1 st' :
  on_some (mapM (resolve_person_slot R _id)) persons st = (Ok persons', st1) →
  on_some (mapM (resolve_institution_slot R _id)) institutions st1
    = (Ok institutions', st') →
  (∀ l, persons = Some l →
     ∃ l', persons' = Some l' ∧ Forall2 (embedded_under _id) l l')
  ∧ (∀ l', institutions' = Some l' →
       Forall (λ new, ∃ p, new = Resolved p ∧ only_context _id p) l').
Proof.
  intros Hp Hi. split.
  - intros l ->. simpl in Hp. inv_M. eexists; split; [done|].
    eapply Forall2_impl_exists; [|eapply mapM_Forall2; eauto].
    intros. eapply resolve_person_slot_embedded; eauto.
  - intros l' ->. destruct institutions as [l|]; simpl in Hi; inv_M.
    match goal with H : mapM _ _ _ = _ |- _ => apply mapM_Forall2 in H; rename H into HF end.
    eapply Forall2_Forall_r; [exact HF|].
    apply Forall_forall. intros x _ y (s1 & s2 & Hxy).
    eapply resolve_institution_slot_embedded; eauto.
Qed.

Lemma resolveMetaDataEntity_digital R (e e' : DigitalEntity) st st' :
  truthy (digital_id e) = true →
  resolveMetaDataEntity R e st = (Ok e', st') →
  (∀ l, digital_persons e = Some l →
     ∃ l', digital_persons e' = Some l' ∧ Forall2 (embedded_under (digital_id e)) l l')
  ∧ (∀ l', digital_institutions e' = Some l' →
       Forall (λ new, ∃ p, new = Resolved p ∧ only_context (digital_id e) p) l').
Proof.
  intros Ht H. unfold resolveMetaDataEntity in H. simpl in H. rewrite Ht in H.
  simpl in H. inv_M. simpl. eapply resolve_parties; eauto.
Qed.

Lemma resolveMetaDataEntity_physical R (e e' : PhysicalEntity) st st' :
  truthy (physical_id e) = true →
  resolveMetaDataEntity R e st = (Ok e', st') →
  (∀ l, physical_persons e = Some l →
     ∃ l', physical_persons e' = Some l' ∧ Forall2 (embedded_under (physical_id e)) l l')
  ∧ (∀ l', physical_institutions e' = Some l' →
       Forall (λ new, ∃ p, new = Resolved p ∧ only_context (physical_id e) p) l').
Proof.
  intros Ht H. unfold resolveMetaDataEntity in H. simpl in H. rewrite Ht in H.
  simpl in H. inv_M. simpl. eapply resolve_parties; eauto.
Qed.

(** ** Context filtering (resolver) *)

(** The maps of the embedded record itself: a Person or Institution resolved
    as embedded under an owning DigitalEntity / PhysicalEntity id carries, in
    each of its own per-context maps (roles, institutions and
    contact_references of a Person; roles, addresses and notes of an
    Institution), no key other than that owning id.  This holds of
    [removeUnrelatedEntities], of [resolveInstitution] and [resolvePerson]
    called with the owning id (there also of the institutions nested in the
    person's entry), and of every record that [resolveMetaDataEntity] hydrates
    in [persons] and [institutions]; an entry of [persons] that fails to
    resolve is left as it was.  It does not hold of the institutions nested
    in a person that [resolveMetaDataEntity] embeds, see below. *)
Theorem embedded_records_keep_only_owning_context :
  (∀ obj entityId, only_context entityId (removeUnrelatedEntities obj entityId))
  ∧ (∀ R institution entityId st i st',
       truthy entityId = true →
       resolveInstitution R institution (Some entityId) st = (Ok i, st') →
       only_context entityId (PartyInstitution i))
  ∧ (∀ R person entityId st p st',
       truthy entityId = true →
       resolvePerson R person (Some entityId) st = (Ok p, st') →
       only_context entityId (PartyPerson p) ∧ nested_only_context entityId p)
  ∧ (∀ R (e e' : DigitalEntity) st st',
       truthy (digital_id e) = true →
       resolveMetaDataEntity R e st = (Ok e', st') →
       (∀ l, digital_persons e = Some l →
          ∃ l', digital_persons e' = Some l'
                ∧ Forall2 (embedded_under (digital_id e)) l l')
       ∧ (∀ l', digital_institutions e' = Some l' →
            Forall (λ new, ∃ p, new = Resolved p ∧ only_context (digital_id e) p) l'))
  ∧ (∀ R (e e' : PhysicalEntity) st st',
       truthy (physical_id e) = true →
       resolveMetaDataEntity R e st = (Ok e', st') →
       (∀ l, physical_persons e = Some l →
          ∃ l', physical_persons e' = Some l'
                ∧ Forall2 (embedded_under (physical_id e)) l l')
       ∧ (∀ l', physical_institutions e' = Some l' →
            Forall (λ new, ∃ p, new = Resolved p ∧ only_context (physical_id e) p) l')).
Proof.
  split; [exact removeUnrelatedEntities_only_context|].
  split; [exact resolveInstitution_only_context|].
  split; [exact resolvePerson_only_context|].
  split; [exact resolveMetaDataEntity_digital|exact resolveMetaDataEntity_physical].
Qed.

Lemma embedded_records_keep_only_owning_context_witness :
  match resolveMetaDataEntity (resolve 4) Sample.A Sample.repository with
  | (Ok e', _) =>
      ∃ l', digital_persons e' = Some l'
            ∧ Forall2 (embedded_under Sample.idA) [Unresolved Sample.idP] l'
  | (Throw _, _) => False
  end.
Proof.
  destruct embedded_records_keep_only_owning_context as (_ & _ & _ & Hdigital & _).
  assert (Hok : succeeds (resolveMetaDataEntity (resolve 4) Sample.A Sample.repository)
                = true) by (vm_compute; reflexivity).
  destruct (resolveMetaDataEntity (resolve 4) Sample.A Sample.repository)
    as [[e'|err] st'] eqn:Hrun; [|discriminate].
  eapply (proj1 (Hdigital (resolve 4) Sample.A e' _ st' eq_refl Hrun)).
  reflexivity.
Defined.

(** C1.  The claim fails on the persons of [resolveMetaDataEntity].  The
    digital entity [A] lists the person [Q]; [Q] lists, for [A], the
    institution [I], which has roles in the contexts [A] and [B].  The person
    embedded under [A] comes back with its own maps cut down to [A], but the
    institution nested in it still carries its roles for [B]: the person was
    hydrated by the resolver, that is by [resolvePerson] without an owning
    id, and [removeUnrelatedEntities] is applied to the person only.  The
    sibling path [resolvePerson] with the owning id hands the id on to
    [resolveInstitution] and returns the same institution with its roles for
    [A] only. *)
Theorem resolveMetaDataEntity_nested_institution_unfiltered :
  match resolveMetaDataEntity (resolve 6) Cases.A_of_Q Cases.registry with
  | (Ok e', _) =>
      match digital_persons e' with
      | Some [Resolved (PartyPerson p)] =>
          map_to_list (person_roles p) = [(Sample.idA, Some ["AUTHOR"])]
          ∧ match person_institutions p !! Sample.idA with
            | Some (Some [Resolved i]) =>
                institution_id i = Sample.idI
                ∧ institution_roles i !! Sample.idA = Some (Some ["PUBLISHER"])
                ∧ institution_roles i !! Sample.idB = Some (Some ["OWNER"])
            | _ => False
            end
      | _ => False
      end
  | (Throw _, _) => False
  end
  ∧ match resolvePerson (resolve 6) (PartyPerson Cases.Q) (Some Sample.idA)
            Cases.registry with
    | (Ok p, _) =>
        match person_institutions p !! Sample.idA with
        | Some (Some [Resolved i]) =>
            institution_id i = Sample.idI
            ∧ institution_roles i !! Sample.idA = Some (Some ["PUBLISHER"])
            ∧ institution_roles i !! Sample.idB = None
        | _ => False
        end
    | (Throw _, _) => False
    end.
Proof. vm_compute. repeat split; reflexivity. Qed.

(** Context isolation: the person [P] is author in [A] and editor in [B];
    resolved under [A] the roles map is [{A: ["AUTHOR"]}] only, resolved
    under [B] it is [{B: ["EDITOR"]}] only. *)
Example context_isolation :
  match resolvePerson (resolve 4) (PartyPerson Sample.P) (Some Sample.idA)
          Sample.repository,
        resolvePerson (resolve 4) (PartyPerson Sample.P) (Some Sample.idB)
          Sample.repository with
  | (Ok underA, _), (Ok underB, _) =>
      map_to_list (person_roles underA) = [(Sample.idA, Some ["AUTHOR"])]
      ∧ map_to_list (person_roles underB) = [(Sample.idB, Some ["EDITOR"])]
  | _, _ => False
  end.
Proof. vm_compute. split; reflexivity. Qed.

(** ** Default roles of the owning context *)









(** ** Shallow stop of the resolver *)

Lemma shallow_stop_never depth : shallow_stop depth = false.
Proof. destruct depth as [d|]; simpl; [|done]. by destruct (d =? 0)%Z. Qed.

Lemma resolve_strategy_ignores_depth R depth resolve_result :
  resolve_strategy R depth resolve_result = resolve_strategy R None resolve_result.
Proof. unfold resolve_strategy. by rewrite !shallow_stop_never. Qed.

(** The [depth] argument has no influence on [resolve]. *)
Lemma resolve_ignores_depth fuel obj coll depth st :
  resolve fuel obj coll depth st = resolve fuel obj coll None st.
Proof.
  destruct fuel as [|fuel]; [done|]. simpl. unfold resolve_body.
  destruct (parsedId obj) as [id|]; [|done].
  destruct (negb (ObjectId.isValid id)); [done|].
  unfold bind, catch.
  destruct (cache_lookup id st) as [[[d|]|e] st1]; try done.
  destruct (findOne coll id st1) as [[r|e] st2]; [|done].
  by rewrite resolve_strategy_ignores_depth.
Qed.

(** C4.  [resolve] called with [depth = 0] on the stored entity [E] does not
    return the stored record: the annotation reference in [annotations] and
    the [relatedDigitalEntity] reference come back hydrated.  The guard
    [depth && depth === 0] is false for every [depth]. *)
Theorem resolve_depth_zero_hydrates :
  store Sample.repository !! ("entity", Sample.idE) = Some (DEntity Sample.E)
  ∧ entity_annotations Sample.E !! Sample.idN = Some (Unresolved Sample.idN)
  ∧ match resolve 5 (TId Sample.idE) "entity" (Some 0%Z) Sample.repository with
    | (Ok (Some (DEntity e)), _) =>
        entity_annotations e !! Sample.idN = Some (Resolved Sample.N)
        ∧ isDigitalEntity_slot (entity_relatedDigitalEntity e) = true
    | _ => False
    end.
Proof. vm_compute. repeat split; reflexivity. Qed.

(** ** Annotation gate of [saveAnnotation] *)

(** C3.  The requester [U2] owns the compilation [C] but not the annotation
    [N].  Resubmitting [N] with another body is accepted and the new body is
    what [saveAnnotation] returns; the only submission it turns down with
    "Permission denied" is the one whose body is the stored object itself. *)
Theorem compilation_owner_may_change_body :
  isUserOwnerOfEntity Sample.U2 Sample.idN = false
  ∧ isUserOwnerOfEntity Sample.U2 Sample.idC = true
  ∧ (annotation_body Sample.N ≫= body_content)
    ≠ (annotation_body Sample.N_changed ≫= body_content)
  ∧ match saveAnnotation Sample.env (resolve 4) Sample.N_changed Sample.U2 true
            Sample.repository with
    | (Ok saved, _) => annotation_body saved = annotation_body Sample.N_changed
    | (Throw _, _) => False
    end
  ∧ fst (saveAnnotation Sample.env (resolve 4) Sample.N Sample.U2 true Sample.repository)
    = Throw (Rejected (Some "Permission denied")).
Proof. vm_compute. repeat split; try reflexivity. discriminate. Qed.

(** An unchanged resubmission (same content, in a new object) is accepted. *)
Example compilation_owner_may_resubmit :
  succeeds (saveAnnotation Sample.env (resolve 4) Sample.N_unchanged Sample.U2 true
              Sample.repository) = true.
Proof. vm_compute. reflexivity. Qed.

(** ** Cache flush of [addEntityToCollection] *)

(** C5, as stated, fails: the save of a malformed annotation is answered with
    status 500 and the entry that was cached before the request is gone. *)
Lemma failed_save_flushes_cache :
  ¬ (∀ env strategies fuel req st response st',
       addEntityToCollection env strategies fuel req st = (Ok response, st') →
       status response = 500 →
       cache st' = cache st).
Proof.
  intros claim.
  assert (Hrun :
    match addEntityToCollection Sample.env Sample.handler_strategies 4
            Sample.malformed_request Sample.cached_repository with
    | (Ok response, st') =>
        status response = 500 ∧ cache st' !! Sample.idE = None
    | (Throw _, _) => False
    end) by (vm_compute; done).
  destruct (addEntityToCollection Sample.env Sample.handler_strategies 4
              Sample.malformed_request Sample.cached_repository)
    as [[response|err] st'] eqn:Heq; [|done].
  destruct Hrun as [H500 Hgone].
  rewrite (claim _ _ _ _ _ _ _ Heq H500) in Hgone.
  vm_compute in Hgone. discriminate.
Qed.

(** C5, amended.  [addEntityToCollection] flushes the cache before it does
    anything else: what was cached before the request has no influence on the
    run, and the saving strategy starts from an empty cache.  When the
    strategy rejects (or throws), the handler answers with status 500 and the
    error, and leaves the state as the strategy left it: the submitted entity
    is not written to its collection. *)
Theorem addEntityToCollection_flushes_first env strategies fuel req :
  (∀ st cached_before,
     addEntityToCollection env strategies fuel req (set_cache (λ _, cached_before) st)
     = addEntityToCollection env strategies fuel req st)
  ∧ (∀ st _id st0 err st1,
       (RepoCache.flush ;;; request_id req) st = (Ok _id, st0) →
       savingPromise strategies req _id (with_doc_id _id (request_body req)) st0
         = (Throw err, st1) →
       err ≠ Unsettled → err ≠ OutOfFuel →
       cache st0 = ∅
       ∧ addEntityToCollection env strategies fuel req st
         = (Ok {| status := 500; sent := SentError err |}, st1)).
Proof.
  split.
  - intros st c. unfold addEntityToCollection, bind at 1 3. simpl.
    reflexivity.
  - intros st _id st0 err st1 Hid Hsave Hne1 Hne2.
    unfold bind at 1 in Hid. simpl in Hid.
    split.
    + unfold request_id in Hid. destruct (request_isValidObjectId req); simpl in Hid.
      * unfold ret in Hid. by simplify_eq.
      * unfold new_ObjectId, bind, get_state, modify, ret in Hid. by simplify_eq.
    + unfold addEntityToCollection. unfold bind at 1. simpl.
      unfold bind at 1. rewrite Hid.
      unfold bind at 1. unfold catch. unfold bind at 1. rewrite Hsave.
      destruct err; done.
Qed.

Lemma addEntityToCollection_flushes_first_witness :
  cache (set_cache (λ _, ∅) Sample.cached_repository) = ∅
  ∧ addEntityToCollection Sample.env Sample.handler_strategies 4
      Sample.malformed_request Sample.cached_repository
    = (Ok {| status := 500;
             sent := SentError (Rejected (Some "Invalid annotation")) |},
       set_cache (λ _, ∅) Sample.cached_repository).
Proof.
  apply (proj2 (addEntityToCollection_flushes_first Sample.env
                  Sample.handler_strategies 4 Sample.malformed_request)
           Sample.cached_repository Sample.idN
           (set_cache (λ _, ∅) Sample.cached_repository)
           (Rejected (Some "Invalid annotation"))
           (set_cache (λ _, ∅) Sample.cached_repository)).
  - reflexivity.
  - reflexivity.
  - discriminate.
  - discriminate.
Defined.

(** ** Annotation lists *)

Lemma find_entry_Some annotationId l a :
  List.find (λ a, bool_decide (entry_id a = annotationId)) l = Some a →
  annotationId ∈ entry_id <$> l.
Proof.
  intros H. apply find_some in H as [Hin Heq].
  apply bool_decide_eq_true in Heq. subst.
  apply list_elem_of_fmap. exists a. split; [done|]. by apply list_elem_of_In.
Qed.

Lemma find_entry_None annotationId l :
  List.find (λ a, bool_decide (entry_id a = annotationId)) l = None →
  annotationId ∉ entry_id <$> l.
Proof.
  intros H Hin. apply list_elem_of_fmap in Hin as (a & -> & Hin).
  apply list_elem_of_In in Hin.
  pose proof (find_none _ _ H a Hin) as Hf. simpl in Hf.
  by rewrite bool_decide_eq_false in Hf.
Qed.

Lemma list_ids_references (l : list (ref Annotation)) :
  list_ids (Some ((λ a, Some (Unresolved (entry_id a))) <$> l)) = entry_id <$> l.
Proof.
  unfold list_ids, filter_null. simpl.
  induction l as [|a l IH]; [done|]. cbn. cbn in IH. by rewrite IH.
Qed.

Lemma annotationList_with l obj : annotationList (with_annotationList l obj) = l.
Proof. by destruct obj. Qed.

Lemma as_annotated_state d obj s s' : as_annotated d s = (Ok obj, s') → s' = s.
Proof. destruct d; simpl; intros H; inv_M; done. Qed.

(** C6.  [updateAnnotationList] appends the annotation id with set semantics:
    an id that the list already holds, as a bare id or as a resolved
    annotation, leaves the list of ids as it is, an id that it does not hold
    is appended once, and a list without duplicate ids stays without. *)
Theorem updateAnnotationList_set_semantics
    R entityOrCompId add_to_coll annotationId st obj' st' :
  updateAnnotationList R entityOrCompId add_to_coll annotationId st = (Ok obj', st') →
  set_semantics R entityOrCompId add_to_coll annotationId st obj' st'.
Proof.
  unfold updateAnnotationList, set_semantics. intros H. inv_M. case_M.
  match goal with H : as_annotated _ _ = (Ok ?o, _) |- _ =>
    pose proof (as_annotated_state _ _ _ _ H); subst; rename o into obj
  end.
  eexists _, _. split; [eassumption|]. split; [eassumption|].
  cbv zeta. rewrite annotationList_with, list_ids_references.
  split; [by rewrite <- list_fmap_compose|].
  change (entry_id <$> filter_null (default [] (annotationList obj)))
    with (list_ids (annotationList obj)).
  match goal with |- context [List.find ?f ?l] =>
    destruct (List.find f l) as [a|] eqn:Hfind
  end.
  - apply find_entry_Some in Hfind. done.
  - apply find_entry_None in Hfind.
    change (entry_id <$> filter_null (default [] (annotationList obj)))
      with (list_ids (annotationList obj)) in Hfind.
    rewrite fmap_app. simpl.
    change (entry_id <$> filter_null (default [] (annotationList obj)))
      with (list_ids (annotationList obj)).
    split; [done|]. split; [done|].
    intros Hnd. apply NoDup_app. repeat split; [done| |apply NoDup_singleton].
    intros x Hx Hx'. apply list_elem_of_singleton in Hx'. by subst.
Qed.

Lemma updateAnnotationList_set_semantics_witness :
  match updateAnnotationList (resolve 4) Sample.idC "compilation" Sample.idN
          Sample.repository with
  | (Ok obj', st') =>
      set_semantics (resolve 4) Sample.idC "compilation" Sample.idN
        Sample.repository obj' st'
  | (Throw _, _) => False
  end.
Proof.
  assert (Hok : succeeds (updateAnnotationList (resolve 4) Sample.idC "compilation"
                            Sample.idN Sample.repository) = true)
    by (vm_compute; reflexivity).
  destruct (updateAnnotationList (resolve 4) Sample.idC "compilation" Sample.idN
              Sample.repository) as [[obj'|err] st'] eqn:Hrun; [|discriminate].
  exact (updateAnnotationList_set_semantics _ _ _ _ _ _ _ Hrun).
Defined.

(** Appending the id [N] to the list [[N]] of the compilation leaves [[N]];
    appending another id puts it at the end. *)
Example annotation_dedup :
  match updateAnnotationList (resolve 4) Sample.idC "compilation" Sample.idN
          Sample.repository with
  | (Ok obj', _) => list_ids (annotationList obj') = [Sample.idN]
  | (Throw _, _) => False
  end
  ∧ match updateAnnotationList (resolve 4) Sample.idC "compilation" Sample.idA
            Sample.repository with
    | (Ok obj', _) => list_ids (annotationList obj') = [Sample.idN; Sample.idA]
    | (Throw _, _) => False
    end.
Proof. vm_compute. split; reflexivity. Qed.

(** The list that [addAnnotationsToAnnotationList] stores is the old list of
    ids followed by the ids of the inserted copies; it has no duplicates when
    the old list has none and the copies carry ids that are new and distinct
    (they come from [new ObjectId()]). *)
Lemma concat_annotationList_ids l validAnnotations :
  list_ids (Some (concat_annotationList l validAnnotations))
  = (list_ids l ++ (annotation_id <$> validAnnotations))%list.
Proof.
  unfold concat_annotationList. rewrite list_ids_references, fmap_app.
  f_equal. by rewrite <- list_fmap_compose.
Qed.

Lemma concat_annotationList_NoDup l validAnnotations :
  NoDup (list_ids l) →
  NoDup (annotation_id <$> validAnnotations) →
  (∀ id, id ∈ list_ids l → id ∉ annotation_id <$> validAnnotations) →
  NoDup (list_ids (Some (concat_annotationList l validAnnotations))).
Proof.
  intros H1 H2 H3. rewrite concat_annotationList_ids. by apply NoDup_app.
Qed.

(** ** Owner-array commands *)

Lemma findAllEntityOwners_state entityId st r st' :
  findAllEntityOwners entityId st = (r, st') → st' = st.
Proof. unfold findAllEntityOwners, bind, get_state, ret. intros H. by simplify_eq. Qed.

(** In [applyActionToEntityOwner], a [remove] that is answered with
    [{status: 'ok'}] has counted a number of owners other than one: with
    exactly one owner the command is rejected before any write. *)
Lemma applyActionToEntityOwner_last_owner env R request st reply st' :
  owner_command request = "remove" →
  applyActionToEntityOwner env R request st = (Ok reply, st') →
  reply = ReplyOk →
  ∃ st1 owners,
    findAllEntityOwners (default "" (owner_targetId request)) st1 = (Ok owners, st1)
    ∧ length owners ≠ 1.
Proof.
  intros Hcmd H ->. unfold applyActionToEntityOwner in H. rewrite Hcmd in H.
  simpl in H.
  repeat match type of H with
  | (if ?c then _ else _) _ = _ => destruct c; [by inv_M|]
  end.
  inv_M.
  repeat match goal with
  | H : (if ?c then _ else _) _ = _ |- _ => destruct c eqn:?; [by inv_M|]
  end.
  inv_M. case_M.
  match goal with
  | H : findAllEntityOwners _ ?s = (Ok ?o, _) |- _ =>
      pose proof (findAllEntityOwners_state _ _ _ _ H); subst;
      exists s, o; split; [done|]
  end.
  match goal with
  | H : (if (?n =? 1)%nat then _ else _) _ = _ |- _ =>
      destruct (Nat.eqb_spec n 1); [by inv_M|done]
  end.
Qed.

(** On the sample repository the newer command turns the removal of the only
    owner down and writes nothing. *)
Example applyActionToEntityOwner_rejects_last_owner :
  match applyActionToEntityOwner Sample.env Mongo_resolve_fetched Sample.remove_last
          Sample.repository with
  | (Ok reply, st') =>
      reply = ReplyError "Cannot remove last owner"
      ∧ (owned "entity" <$> accounts st' !! Sample.idU1) = Some (Some [Sample.idE])
  | (Throw _, _) => False
  end.
Proof. vm_compute. split; reflexivity. Qed.

(** C7.  [applyActionToModelOwner] has no guard: [U1] is the only account
    that owns the model [E], the command [remove] is answered with
    [{status: 'ok'}], and afterwards no account owns [E]. *)
Theorem applyActionToModelOwner_removes_last_owner :
  owned "model" Sample.U1 = Some [Sample.idE]
  ∧ owned "model" Sample.U2 = None
  ∧ match applyActionToModelOwner Sample.env Mongo_resolve_fetched Sample.remove_last
            Sample.repository with
    | (Ok reply, st') =>
        reply = ReplyOk
        ∧ (owned "model" <$> accounts st' !! Sample.idU1) = Some (Some [])
        ∧ (owned "model" <$> accounts st' !! Sample.idU2) = Some None
    | (Throw _, _) => False
    end.
Proof. vm_compute. repeat split; reflexivity. Qed.

(** ** The resolver touches the cache only through [set] and [del] *)

Section Preservation.

Variable P : State → Prop.
Hypothesis P_cache_set : ∀ st key d, P st → P (set_cache (insert key (CachedDoc d)) st).
Hypothesis P_cache_del : ∀ st key, P st → P (set_cache (delete key) st).

Lemma preserves_ret {A} (a : A) : preserves P (ret a).
Proof. intros st r st' HP H. unfold ret in H. by simplify_eq. Qed.

Lemma preserves_throw {A} e : preserves P (@throw A e).
Proof. intros st r st' HP H. unfold throw in H. by simplify_eq. Qed.

Lemma preserves_bind {A B} (c : M A) (k : A → M B) :
  preserves P c → (∀ a, preserves P (k a)) → preserves P (bind c k).
Proof.
  intros Hc Hk st r st' HP H. unfold bind in H.
  destruct (c st) as [[a|e] st1] eqn:Hcst.
  - eapply Hk; [|eassumption]. eapply Hc; eauto.
  - simplify_eq. eapply Hc; eauto.
Qed.

Lemma preserves_catch {A} (c : M A) (h : error → M A) :
  preserves P c → (∀ e, preserves P (h e)) → preserves P (catch c h).
Proof.
  intros Hc Hh st r st' HP H. unfold catch in H.
  destruct (c st) as [[a|e] st1] eqn:Hcst.
  - simplify_eq. eapply Hc; eauto.
  - assert (P st1) by (eapply Hc; eauto).
    destruct e; simplify_eq; try done; eapply Hh; eauto.
Qed.

Lemma preserves_get_state : preserves P get_state.
Proof. intros st r st' HP H. unfold get_state in H. by simplify_eq. Qed.

Lemma preserves_foldM {A B} (f : B → A → M B) l :
  (∀ b x, preserves P (f b x)) → ∀ b, preserves P (foldM f l b).
Proof.
  intros Hf. induction l as [|x l IH]; intros b; simpl.
  - apply preserves_ret.
  - apply preserves_bind; auto.
Qed.

Lemma preserves_mapM {A B} (f : A → M B) l :
  (∀ x, preserves P (f x)) → preserves P (mapM f l).
Proof.
  intros Hf. induction l as [|x l IH]; simpl.
  - apply preserves_ret.
  - apply preserves_bind; [auto|]. intros y.
    apply preserves_bind; [auto|]. intros ys. apply preserves_ret.
Qed.

Lemma preserves_set key d : preserves P (RepoCache.set key (CachedDoc d)).
Proof.
  intros st r st' HP H. unfold RepoCache.set, modify in H. simplify_eq. auto.
Qed.

Lemma preserves_del key : preserves P (RepoCache.del key).
Proof.
  intros st r st' HP H. unfold RepoCache.del, modify in H. simplify_eq. auto.
Qed.

Ltac preserve :=
  repeat first
    [ apply preserves_ret
    | apply preserves_throw
    | apply preserves_get_state
    | apply preserves_set
    | apply preserves_del
    | assumption
    | solve [auto]
    | apply preserves_bind; [|intros ?]
    | apply preserves_catch; [|intros ?]
    | apply preserves_foldM; intros ? ?
    | apply preserves_mapM; intros ?
    | match goal with
      | |- preserves _ (match ?x with _ => _ end) => destruct x
      | |- preserves _ (if ?b then _ else _) => destruct b
      end ].

Section Resolver.

Variable R : resolver.
Hypothesis R_preserves : ∀ obj coll depth, preserves P (R obj coll depth).

Lemma preserves_resolveInstitution i entityId :
  preserves P (resolveInstitution R i entityId).
Proof.
  unfold resolveInstitution, as_institution, resolve_address_entry, as_address.
  preserve.
Qed.

Lemma preserves_resolvePerson p entityId :
  preserves P (resolvePerson R p entityId).
Proof.
  pose proof preserves_resolveInstitution.
  unfold resolvePerson, as_person, resolve_contact_entry, as_contact,
    resolve_institutions_entry, resolve_nested_institution, as_party.
  preserve.
Qed.

Lemma preserves_resolveMetaDataEntity {T} `{IMetaDataEntity T} (e : T) :
  preserves P (resolveMetaDataEntity R e).
Proof.
  pose proof preserves_resolveInstitution.
  unfold resolveMetaDataEntity, on_some, resolve_person_slot,
    resolve_institution_slot, as_party.
  preserve.
Qed.

Lemma preserves_resolveDigitalEntity d :
  preserves P (resolveDigitalEntity R d).
Proof.
  pose proof (@preserves_resolveMetaDataEntity DigitalEntity _).
  pose proof (@preserves_resolveMetaDataEntity PhysicalEntity _).
  unfold resolveDigitalEntity, on_some, resolve_tag, resolve_phyObj_slot,
    as_tag, as_physical, on_some.
  preserve.
Qed.

Lemma preserves_resolveEntity e : preserves P (resolveEntity R e).
Proof.
  unfold resolveEntity, resolve_annotation_key, as_annotation, as_digital.
  preserve.
Qed.

Lemma preserves_resolveCompilation c : preserves P (resolveCompilation R c).
Proof.
  unfold resolveCompilation, resolve_annotation_key, resolve_entity_key,
    as_annotation, as_entity.
  preserve.
Qed.

Lemma preserves_resolve_body obj coll depth :
  preserves P (resolve_body R obj coll depth).
Proof.
  pose proof preserves_resolveInstitution.
  pose proof preserves_resolvePerson.
  pose proof preserves_resolveDigitalEntity.
  pose proof preserves_resolveEntity.
  pose proof preserves_resolveCompilation.
  unfold resolve_body, cache_lookup, RepoCache.get, findOne, resolve_strategy.
  preserve.
Qed.

End Resolver.

Lemma preserves_resolve fuel : ∀ obj coll depth,
  preserves P (resolve fuel obj coll depth).
Proof.
  induction fuel as [|fuel IH]; intros obj coll depth; simpl.
  - apply preserves_throw.
  - by apply preserves_resolve_body.
Qed.

End Preservation.

(** ** Explore: at most [limit] results *)

Lemma bounded_set st key d :
  explore_cache_bounded st →
  explore_cache_bounded (set_cache (insert key (CachedDoc d)) st).
Proof.
  intros H k items. simpl. destruct (decide (key = k)) as [->|Hne].
  - rewrite lookup_insert_eq. discriminate.
  - rewrite lookup_insert_ne by done. apply H.
Qed.

Lemma bounded_del st key :
  explore_cache_bounded st → explore_cache_bounded (set_cache (delete key) st).
Proof.
  intros H k items. simpl. destruct (decide (key = k)) as [->|Hne].
  - rewrite lookup_delete_eq. discriminate.
  - rewrite lookup_delete_ne by done. apply H.
Qed.

Lemma bounded_items st key items :
  (length items ≤ limit)%nat →
  explore_cache_bounded st →
  explore_cache_bounded (set_cache (insert key (CachedItems items)) st).
Proof.
  intros Hlen H k items'. simpl. destruct (decide (key = k)) as [->|Hne].
  - rewrite lookup_insert_eq. intros. by simplify_eq.
  - rewrite lookup_insert_ne by done. apply H.
Qed.

Ltac case_step H :=
  repeat (cbv beta iota zeta in H;
    match type of H with
    | bind _ _ _ = (Ok _, _) =>
        let H' := fresh "Hrun" in
        apply bind_Ok in H; destruct H as (? & ? & H' & H)
    | ret _ _ = (Ok _, _) => apply ret_Ok in H; destruct H; simplify_eq
    | throw _ _ = (Ok _, _) => by apply throw_Ok in H
    | (match ?x with _ => _ end) _ = (Ok _, _) => destruct x eqn:?
    | (if ?b then _ else _) _ = (Ok _, _) => destruct b eqn:?
    end).

Section Scan.

Variable env : Env.
Variable fuel : nat.
Variable userData : option UserData.
Variable request : ExploreRequest.

Lemma explore_entity_step entities _entity st r st' :
  explore_entity env fuel userData request entities _entity st = (Ok r, st') →
  r = entities ∨ ∃ e, r = (entities ++ [e])%list.
Proof.
  unfold explore_entity. intros H. case_step H; eauto.
Qed.

Lemma explore_compilation_step compilations _comp st r st' :
  explore_compilation fuel userData request compilations _comp st = (Ok r, st') →
  r = compilations ∨ ∃ c, r = (compilations ++ [c])%list.
Proof.
  unfold explore_compilation. intros H. case_step H; eauto.
Qed.

Lemma scan_entities_limit cursor : ∀ entities st r st',
  (length entities ≤ limit)%nat →
  scan_entities env fuel userData request cursor entities st = (Ok r, st') →
  (length r ≤ limit)%nat.
Proof.
  induction cursor as [|d cursor IH]; intros entities st r st' Hlen H;
    simpl in H; unfold canContinue in H; simpl in H.
  - inv_M. done.
  - destruct (length entities <? limit)%nat eqn:Hlt; simpl in H; [|inv_M; done].
    destruct (0 <? length (explore_types request))%nat; simpl in H; [|inv_M; done].
    apply Nat.ltb_lt in Hlt. inv_M.
    eapply IH; [|eassumption].
    match goal with H : explore_entity _ _ _ _ _ _ _ = _ |- _ =>
      apply explore_entity_step in H as [->|[e ->]]
    end; [done|]. rewrite length_app. simpl. lia.
Qed.

Lemma scan_compilations_limit cursor : ∀ compilations st r st',
  (length compilations ≤ limit)%nat →
  scan_compilations fuel userData request cursor compilations st = (Ok r, st') →
  (length r ≤ limit)%nat.
Proof.
  induction cursor as [|d cursor IH]; intros compilations st r st' Hlen H;
    simpl in H; unfold canContinue in H; simpl in H.
  - inv_M. done.
  - destruct (length compilations <? limit)%nat eqn:Hlt; simpl in H; [|inv_M; done].
    destruct (0 <? length (explore_types request))%nat; simpl in H; [|inv_M; done].
    apply Nat.ltb_lt in Hlt. inv_M.
    eapply IH; [|eassumption].
    match goal with H : explore_compilation _ _ _ _ _ _ = _ |- _ =>
      apply explore_compilation_step in H as [->|[e ->]]
    end; [done|]. rewrite length_app. simpl. lia.
Qed.

Lemma scan_entities_full cursor entities st :
  (limit ≤ length entities)%nat →
  scan_entities env fuel userData request cursor entities st = (Ok entities, st).
Proof.
  intros Hlen. destruct cursor as [|d cursor]; simpl; unfold canContinue; simpl;
    [done|].
  destruct (Nat.ltb_spec (length entities) limit); [lia|done].
Qed.

Lemma scan_compilations_full cursor compilations st :
  (limit ≤ length compilations)%nat →
  scan_compilations fuel userData request cursor compilations st
  = (Ok compilations, st).
Proof.
  intros Hlen. destruct cursor as [|d cursor]; simpl; unfold canContinue; simpl;
    [done|].
  destruct (Nat.ltb_spec (length compilations) limit); [lia|done].
Qed.

Lemma preserves_scan_entities P cursor :
  (∀ st key d, P st → P (set_cache (insert key (CachedDoc d)) st)) →
  (∀ st key, P st → P (set_cache (delete key) st)) →
  ∀ entities, preserves P (scan_entities env fuel userData request cursor entities).
Proof.
  intros Hset Hdel. induction cursor as [|d cursor IH]; intros entities; simpl;
    unfold canContinue; simpl.
  - by apply preserves_ret.
  - destruct (_ && _); [|by apply preserves_ret].
    apply preserves_bind; [|done].
    pose proof (preserves_resolve P Hset Hdel fuel).
    unfold explore_entity, as_entity.
    repeat first
      [ apply preserves_ret | apply preserves_throw | solve [auto]
      | apply preserves_bind; [|intros ?]
      | match goal with
        | |- preserves _ (match ?x with _ => _ end) => destruct x
        | |- preserves _ (if ?b then _ else _) => destruct b
        end ].
Qed.

Lemma preserves_scan_compilations P cursor :
  (∀ st key d, P st → P (set_cache (insert key (CachedDoc d)) st)) →
  (∀ st key, P st → P (set_cache (delete key) st)) →
  ∀ compilations,
    preserves P (scan_compilations fuel userData request cursor compilations).
Proof.
  intros Hset Hdel. induction cursor as [|d cursor IH]; intros compilations; simpl;
    unfold canContinue; simpl.
  - by apply preserves_ret.
  - destruct (_ && _); [|by apply preserves_ret].
    apply preserves_bind; [|done].
    pose proof (preserves_resolve P Hset Hdel fuel).
    unfold explore_compilation, as_compilation.
    repeat first
      [ apply preserves_ret | apply preserves_throw | solve [auto]
      | apply preserves_bind; [|intros ?]
      | match goal with
        | |- preserves _ (match ?x with _ => _ end) => destruct x
        | |- preserves _ (if ?b then _ else _) => destruct b
        end ].
Qed.

Lemma findCursor_state coll query offset st r st' :
  findCursor coll query offset st = (r, st') → st' = st.
Proof. unfold findCursor, bind, get_state, ret. intros H. by simplify_eq. Qed.

(** C8.  The scan of explore collects at most [limit] results: a scan that
    holds [limit] results stops without taking another document off the
    cursor, an exhausted cursor ends it (the scan is a recursion on the
    documents the cursor delivers), and the list of items that [explore]
    sends has at most [limit] entries, given that the result sets already
    in the cache have at most [limit] entries, which every run maintains. *)
Theorem explore_at_most_limit :
  (∀ cursor entities st,
     (limit ≤ length entities)%nat →
     scan_entities env fuel userData request cursor entities st = (Ok entities, st))
  ∧ (∀ cursor compilations st,
       (limit ≤ length compilations)%nat →
       scan_compilations fuel userData request cursor compilations st
       = (Ok compilations, st))
  ∧ (∀ st items st',
       explore_cache_bounded st →
       explore env fuel userData request st = (Ok items, st') →
       (length items ≤ limit)%nat ∧ explore_cache_bounded st').
Proof.
  split; [exact scan_entities_full|]. split; [exact scan_compilations_full|].
  intros st items st' Hinv H. unfold explore in H.
  apply bind_Ok in H as (temp & st1 & Htemp & H).
  unfold RepoCache.get, bind, get_state, ret in Htemp. simplify_eq.
  apply bind_Ok in H as (found & st2 & Hitems & H).
  assert (Hfound : (length found ≤ limit)%nat ∧ explore_cache_bounded st2).
  { destruct (cache st1 !! hash env request) as [[d|[|item l]|]|] eqn:Hcache.
    all: try (inv_M; split; [|done]; by eapply Hinv).
    all: destruct (explore_searchEntity request); inv_M;
      repeat match goal with
      | H : findCursor _ _ _ _ = _ |- _ => apply findCursor_state in H; subst
      end;
      rewrite length_fmap; split;
      try (eapply scan_entities_limit; [|eassumption]; simpl; lia);
      try (eapply scan_compilations_limit; [|eassumption]; simpl; lia);
      try (eapply preserves_scan_entities;
             [apply bounded_set|apply bounded_del|exact Hinv|eassumption]);
      try (eapply preserves_scan_compilations;
             [apply bounded_set|apply bounded_del|exact Hinv|eassumption]). }
  destruct Hfound as [Hlen Hinv2].
  apply bind_Ok in H as ([] & st3 & Hset & H). inv_M.
  unfold RepoCache.set, modify in Hset. simplify_eq.
  match goal with
  | |- context [@merge_sort _ ?R ?D found] =>
      pose proof (Permutation_length (@merge_sort_Permutation _ R D found)) as Hsorted
  end.
  split; [by rewrite Hsorted|]. apply bounded_items; [by rewrite Hsorted|done].
Qed.

End Scan.

Lemma explore_at_most_limit_witness :
  match explore Sample.env 6 (Some Sample.U1) Sample.explore_request
          Sample.repository with
  | (Ok items, st') => (length items ≤ limit)%nat ∧ explore_cache_bounded st'
  | (Throw _, _) => False
  end.
Proof.
  assert (Hok : succeeds (explore Sample.env 6 (Some Sample.U1) Sample.explore_request
                            Sample.repository) = true) by (vm_compute; reflexivity).
  assert (Hinv : explore_cache_bounded Sample.repository).
  { intros key items. simpl. rewrite lookup_empty. discriminate. }
  destruct (explore Sample.env 6 (Some Sample.U1) Sample.explore_request
              Sample.repository) as [[items|err] st'] eqn:Hrun; [|discriminate].
  exact (proj2 (proj2 (explore_at_most_limit Sample.env 6 (Some Sample.U1)
                         Sample.explore_request)) _ _ _ Hinv Hrun).
Defined.

(** ** Explore: whitelist visibility *)

Section Anonymous.

Variable env : Env.
Variable fuel : nat.
Variable request : ExploreRequest.

Lemma explore_entity_anonymous entities _entity st r st' :
  explore_entity env fuel None request entities _entity st = (Ok r, st') →
  r = entities ∨ ∃ e, r = (entities ++ [e])%list ∧ public e.
Proof.
  unfold explore_entity. intros H. case_step H; eauto.
  right. eexists. split; [done|]. unfold public. simpl.
  match goal with
  | H : (if whitelist_enabled ?w then _ else _) = Some _ |- _ =>
      by destruct (whitelist_enabled w)
  end.
Qed.

(** During the scan, a requester without session gets no entity whose
    whitelist is enabled. *)
Lemma scan_entities_anonymous cursor : ∀ entities st r st',
  Forall public entities →
  scan_entities env fuel None request cursor entities st = (Ok r, st') →
  Forall public r.
Proof.
  induction cursor as [|d cursor IH]; simpl; intros entities st r st' Hpub H.
  - inv_M. done.
  - destruct (canContinue _ _ _); simpl in H; [|inv_M; done].
    inv_M. eapply IH; [|eassumption].
    match goal with H : explore_entity _ _ _ _ _ _ _ = _ |- _ =>
      apply explore_entity_anonymous in H as [->|(e & -> & He)]
    end; [done|]. apply Forall_app. split; [done|]. by constructor.
Qed.

End Anonymous.

(** On a repository with nothing cached, the anonymous entity search does
    not see the whitelisted entity [E]. *)
Example explore_anonymous_miss :
  fst (explore Sample.env 6 None Sample.explore_request Sample.repository) = Ok [].
Proof. vm_compute. reflexivity. Qed.

(** C10.  The entity [E] has its whitelist enabled.  Its owner [U1] runs an
    entity search; the same request body then comes from a requester without
    session and is answered from the cache, with [E] among the items. *)
Theorem explore_anonymous_gets_whitelisted_from_cache :
  whitelist_enabled (entity_whitelist Sample.E) = true
  ∧ match explore Sample.env 6 (Some Sample.U1) Sample.explore_request
            Sample.repository with
    | (Ok _, st1) =>
        match explore Sample.env 6 None Sample.explore_request st1 with
        | (Ok items, _) =>
            doc_id <$> items = [Sample.idE] ∧ restricted_items items = [true]
        | (Throw _, _) => False
        end
    | (Throw _, _) => False
    end.
Proof. vm_compute. repeat split; reflexivity. Qed.

(** ** Roles of the context being saved *)

Lemma upserted_id_store res fallback userData coll st r st' :
  upserted_id res fallback userData coll st = (r, st') → store st' = store st.
Proof.
  unfold upserted_id. destruct (upsertedId res); simpl.
  - unfold bind, insertCurrentUserData, modify, ret. intros H. by simplify_eq.
  - unfold throw. intros H. by simplify_eq.
Qed.

Lemma updateOne_upsert_acknowledged env coll _id d st :
  acknowledged env coll _id = true →
  ∃ res, updateOne_upsert env coll _id d st
         = (Ok res, set_store (insert (coll, _id) d) st).
Proof.
  intros Hack. unfold updateOne_upsert, bind, get_state, modify, ret. simpl.
  rewrite Hack. eauto.
Qed.

Lemma bind_eval {A B} (c : M A) (k : A → M B) st a st1 :
  c st = (Ok a, st1) → bind c k st = k a st1.
Proof. intros H. unfold bind. by rewrite H. Qed.

Lemma Mongo_resolve_stored coll _id d st :
  truthy _id = true →
  store st !! (coll, _id) = Some d →
  Mongo.resolve (TObj _id) coll None st = (Ok (Some d), st).
Proof.
  intros Ht Hd. simpl. rewrite Ht. unfold findOne, bind, get_state, ret.
  by rewrite Hd.
Qed.

Lemma savePerson_replaces env id userData person stored st insts st1 r st' :
  truthy (person_id person) = true →
  store st !! ("person", person_id person) = Some (DPerson stored) →
  person_id stored = person_id person →
  acknowledged env "person" (person_id person) = true →
  mapM (save_institution_slot env Mongo.resolve id userData)
    (person_institution person) st = (Ok insts, st1) →
  savePerson env Mongo.resolve id userData person st = (r, st') →
  ∃ p', store st' !! ("person", person_id person) = Some (DPerson p')
        ∧ person_roles p' !! id = Some (person_role person)
        ∧ ∀ id', id' ≠ id →
            person_roles p' !! id' = (person_roles stored ∪ person_roles person) !! id'.
Proof.
  intros Ht Hstored Hid Hack Hinsts H.
  unfold savePerson in H.
  erewrite bind_eval in H by (by apply Mongo_resolve_stored).
  erewrite bind_eval in H by reflexivity.
  erewrite bind_eval in H by reflexivity.
  erewrite bind_eval in H by exact Hinsts.
  rewrite Hid in H.
  edestruct (updateOne_upsert_acknowledged env "person" (person_id person)) as [res Hres];
    [exact Hack|].
  erewrite bind_eval in H by exact Hres.
  apply upserted_id_store in H. rewrite H. simpl.
  rewrite lookup_insert_eq. eexists. split; [done|]. simpl. split.
  - apply lookup_insert_eq.
  - intros id' Hne. by rewrite lookup_insert_ne.
Qed.

Lemma saveInstitution_replaces env id userData institution stored st r st' :
  truthy (institution_id institution) = true →
  store st !! ("institution", institution_id institution) = Some (DInstitution stored) →
  institution_id stored = institution_id institution →
  acknowledged env "institution" (institution_id institution) = true →
  saveInstitution env Mongo.resolve id userData institution st = (r, st') →
  ∃ i', store st' !! ("institution", institution_id institution) = Some (DInstitution i')
        ∧ institution_roles i' !! id = Some (institution_role institution)
        ∧ ∀ id', id' ≠ id →
            institution_roles i' !! id'
            = (institution_roles stored ∪ institution_roles institution) !! id'.
Proof.
  intros Ht Hstored Hid Hack H.
  unfold saveInstitution in H.
  erewrite bind_eval in H by (by apply Mongo_resolve_stored).
  erewrite bind_eval in H by reflexivity.
  erewrite bind_eval in H by reflexivity.
  rewrite Hid in H.
  edestruct (updateOne_upsert_acknowledged env "institution"
               (institution_id institution)) as [res Hres];
    [exact Hack|].
  erewrite bind_eval in H by exact Hres.
  apply upserted_id_store in H. rewrite H. simpl.
  rewrite lookup_insert_eq. eexists. split; [done|]. simpl. split.
  - apply lookup_insert_eq.
  - intros id' Hne. by rewrite lookup_insert_ne.
Qed.

(** C2, as stated, fails on two inputs.  Under the older [addAndGetId],
    saving the context [A] again with [P] as editor leaves [P] with the roles
    [AUTHOR] and [EDITOR] for [A].  Under [savePerson], a person who lists
    an institution that is already stored is not written at all: the save of
    the institution ends in a [TypeError] ([res.upsertedId] is [null] for a
    document that was not inserted) before the write of the person, whose
    roles for [A] stay [AUTHOR]. *)
Lemma resaving_does_not_always_replace :
  (stored_roles Sample.repository "person" Sample.idP Sample.idA = Some ["AUTHOR"]
   ∧ field_person_role Sample.P_field = Some ["EDITOR"]
   ∧ match addAndGetId Sample.idA Sample.P_field PersonCollection None
             Sample.repository with
     | (Ok _id, st') =>
         _id = Sample.idP
         ∧ stored_roles st' "person" Sample.idP Sample.idA = Some ["AUTHOR"; "EDITOR"]
         ∧ stored_roles st' "person" Sample.idP Sample.idA
           ≠ field_person_role Sample.P_field
     | (Throw _, _) => False
     end)
  ∧ (stored_roles Sample.archive "person" Sample.idP Sample.idA = Some ["AUTHOR"]
     ∧ person_role Cases.P_listing = Some ["EDITOR"]
     ∧ match savePerson Sample.env Mongo.resolve Sample.idA Sample.U1
               Cases.P_listing Sample.archive with
       | (Throw err, st') =>
           err = TypeError
           ∧ stored_roles st' "person" Sample.idP Sample.idA = Some ["AUTHOR"]
           ∧ stored_roles st' "person" Sample.idP Sample.idA
             ≠ person_role Cases.P_listing
       | (Ok _, _) => False
       end).
Proof. vm_compute. repeat split; try reflexivity; discriminate. Qed.

(** C2, amended.  In the strategy [saveMetaDataEntity], a save of the
    context [id] that reaches its acknowledged write of a stored person (the
    institutions the person lists were saved) or of a stored institution
    writes the record with [roles[id]] equal to exactly the submitted role
    list, whatever the stored list for [id] was, while every entry that the
    stored record has for another context stays as it is.  (What the call
    returns after the write is left open.) *)
Theorem saveMetaDataEntity_replaces_context_roles :
  (∀ env id userData person stored st insts st1 r st',
     truthy (person_id person) = true →
     store st !! ("person", person_id person) = Some (DPerson stored) →
     person_id stored = person_id person →
     acknowledged env "person" (person_id person) = true →
     mapM (save_institution_slot env Mongo.resolve id userData)
       (person_institution person) st = (Ok insts, st1) →
     savePerson env Mongo.resolve id userData person st = (r, st') →
     ∃ p', store st' !! ("person", person_id person) = Some (DPerson p')
           ∧ person_roles p' !! id = Some (person_role person)
           ∧ ∀ id' entry, id' ≠ id →
               person_roles stored !! id' = Some entry →
               person_roles p' !! id' = Some entry)
  ∧ (∀ env id userData institution stored st r st',
       truthy (institution_id institution) = true →
       store st !! ("institution", institution_id institution)
         = Some (DInstitution stored) →
       institution_id stored = institution_id institution →
       acknowledged env "institution" (institution_id institution) = true →
       saveInstitution env Mongo.resolve id userData institution st = (r, st') →
       ∃ i', store st' !! ("institution", institution_id institution)
               = Some (DInstitution i')
             ∧ institution_roles i' !! id = Some (institution_role institution)
             ∧ ∀ id' entry, id' ≠ id →
                 institution_roles stored !! id' = Some entry →
                 institution_roles i' !! id' = Some entry).
Proof.
  split.
  - intros env id userData person stored st insts st1 r st' Ht Hstored Hid Hack Hinsts H.
    destruct (savePerson_replaces env id userData person stored st insts st1 r st'
                Ht Hstored Hid Hack Hinsts H) as (p' & Hp' & Hrole & Hothers).
    exists p'. split; [exact Hp'|]. split; [exact Hrole|].
    intros id' entry Hne Hentry. rewrite (Hothers id' Hne).
    by apply lookup_union_Some_l.
  - intros env id userData institution stored st r st' Ht Hstored Hid Hack H.
    destruct (saveInstitution_replaces env id userData institution stored st r st'
                Ht Hstored Hid Hack H) as (i' & Hi' & Hrole & Hothers).
    exists i'. split; [exact Hi'|]. split; [exact Hrole|].
    intros id' entry Hne Hentry. rewrite (Hothers id' Hne).
    by apply lookup_union_Some_l.
Qed.

(** [P] is stored with the roles [AUTHOR] for [A] and [EDITOR] for [B], [I]
    with [PUBLISHER] for [A] and [OWNER] for [B]; both are saved again for
    [A] with a new role, [P] listing a new institution. *)
Lemma saveMetaDataEntity_replaces_context_roles_witness :
  (∃ p', store (savePerson Sample.env Mongo.resolve Sample.idA Sample.U1
                  Cases.P_joining Sample.archive).2
           !! ("person", Sample.idP) = Some (DPerson p')
         ∧ person_roles p' !! Sample.idA = Some (Some ["EDITOR"])
         ∧ person_roles p' !! Sample.idB = Some (Some ["EDITOR"]))
  ∧ (∃ i', store (saveInstitution Sample.env Mongo.resolve Sample.idA Sample.U1
                    Sample.I_resubmitted Sample.archive).2
             !! ("institution", Sample.idI) = Some (DInstitution i')
           ∧ institution_roles i' !! Sample.idA = Some (Some ["FUNDER"])
           ∧ institution_roles i' !! Sample.idB = Some (Some ["OWNER"])).
Proof.
  destruct saveMetaDataEntity_replaces_context_roles as [Hperson Hinstitution].
  split.
  - destruct (savePerson Sample.env Mongo.resolve Sample.idA Sample.U1
                Cases.P_joining Sample.archive) as [r st'] eqn:Hrun.
    assert (Hstored : store Sample.archive !! ("person", person_id Cases.P_joining)
                      = Some (DPerson Sample.P)) by (vm_compute; reflexivity).
    assert (Hsaved : succeeds (mapM (save_institution_slot Sample.env Mongo.resolve
                                       Sample.idA Sample.U1)
                                 (person_institution Cases.P_joining) Sample.archive)
                     = true) by (vm_compute; reflexivity).
    destruct (mapM (save_institution_slot Sample.env Mongo.resolve Sample.idA Sample.U1)
                (person_institution Cases.P_joining) Sample.archive)
      as [[insts|err] st1] eqn:Hinsts; [|discriminate Hsaved].
    destruct (Hperson Sample.env Sample.idA Sample.U1 Cases.P_joining Sample.P
                Sample.archive insts st1 r st'
                eq_refl Hstored eq_refl eq_refl Hinsts Hrun)
      as (p' & Hp' & Hrole & Hothers).
    exists p'. split; [exact Hp'|]. split; [exact Hrole|].
    apply Hothers; [intros Heq; discriminate Heq|vm_compute; reflexivity].
  - destruct (saveInstitution Sample.env Mongo.resolve Sample.idA Sample.U1
                Sample.I_resubmitted Sample.archive) as [r st'] eqn:Hrun.
    assert (Hstored : store Sample.archive
                        !! ("institution", institution_id Sample.I_resubmitted)
                      = Some (DInstitution Sample.I)) by (vm_compute; reflexivity).
    destruct (Hinstitution Sample.env Sample.idA Sample.U1 Sample.I_resubmitted
                Sample.I Sample.archive r st' eq_refl Hstored eq_refl eq_refl Hrun)
      as (i' & Hi' & Hrole & Hothers).
    exists i'. split; [exact Hi'|]. split; [exact Hrole|].
    apply Hothers; [intros Heq; discriminate Heq|vm_compute; reflexivity].
Defined.

(** On the sample, [P] had the role [AUTHOR] in [A]; after the save it has the
    submitted role there, and its roles in the other context [B] are the
    stored ones.  The call itself ends in a [TypeError] after the write:
    [res.upsertedId] is [null] for a record that was not inserted. *)
Example savePerson_keeps_other_context :
  stored_roles Sample.archive "person" Sample.idP Sample.idA = Some ["AUTHOR"]
  ∧ stored_roles (savePerson Sample.env Mongo.resolve Sample.idA Sample.U1
                    Sample.P_resubmitted Sample.archive).2 "person" Sample.idP Sample.idA
    = Some ["EDITOR"]
  ∧ stored_roles (savePerson Sample.env Mongo.resolve Sample.idA Sample.U1
                    Sample.P_resubmitted Sample.archive).2 "person" Sample.idP Sample.idB
    = stored_roles Sample.archive "person" Sample.idP Sample.idB
  ∧ (savePerson Sample.env Mongo.resolve Sample.idA Sample.U1
       Sample.P_resubmitted Sample.archive).1 = Throw TypeError.
Proof. vm_compute. repeat split; reflexivity. Qed.

(** * Further properties of the code *)

(** ** The resolver reads the repository and fills the cache *)

Lemma resolve_reads fuel obj coll depth st r st' :
  resolve fuel obj coll depth st = (r, st') →
  store st' = store st ∧ accounts st' = accounts st ∧ next_id st' = next_id st.
Proof.
  intros Hrun.
  eapply (preserves_resolve
            (λ s, store s = store st ∧ accounts s = accounts st
                  ∧ next_id s = next_id st));
    [done | done | | exact Hrun].
  done.
Qed.

Lemma resolve_store fuel obj coll depth st r st' :
  resolve fuel obj coll depth st = (r, st') → store st' = store st.
Proof. intros H. by apply resolve_reads in H as [? _]. Qed.

(** X1.  [resolve] writes to the cache only: whatever it is called on and
    whatever it returns, the store, the accounts and the id generator are
    afterwards what they were. *)
Theorem resolve_never_writes fuel obj coll depth st :
  let st' := (resolve fuel obj coll depth st).2 in
  store st' = store st ∧ accounts st' = accounts st ∧ next_id st' = next_id st.
Proof.
  destruct (resolve fuel obj coll depth st) as [r st'] eqn:Hrun. simpl.
  by eapply resolve_reads.
Qed.

Lemma cache_lookup_Some id st d st' :
  cache_lookup id st = (Ok (Some d), st') →
  st' = st ∧ cache st !! id = Some (CachedDoc d) ∧ truthy (doc_id d) = true.
Proof.
  unfold cache_lookup, RepoCache.get, RepoCache.del. intros H. inv_M.
  unfold get_state in *. simplify_eq.
  destruct (cache _ !! id) as [[d'| |]|] eqn:Hc; inv_M.
  destruct (truthy (doc_id d')) eqn:Ht; inv_M. done.
Qed.

(** X2.  A document that [resolve] returns is in the cache under the parsed
    id afterwards, and a second [resolve] of the same target is answered
    from there: with the same document, for any collection name and depth,
    and without a change of state (given that the document has an [_id],
    the test the code makes on a cached value). *)
Theorem resolve_result_is_cached fuel obj coll depth st d st' :
  resolve fuel obj coll depth st = (Ok (Some d), st') →
  ∃ id, parsedId obj = Some id
        ∧ cache st' !! id = Some (CachedDoc d)
        ∧ (truthy (doc_id d) = true →
           ∀ fuel' coll' depth',
             resolve (S fuel') obj coll' depth' st' = (Ok (Some d), st')).
Proof.
  destruct fuel as [|fuel]; [discriminate|]. simpl. unfold resolve_body.
  destruct (parsedId obj) as [id|] eqn:Hid; [|intros H; inv_M].
  destruct (ObjectId.isValid id) eqn:Hvalid; simpl; [|intros H; inv_M].
  intros H. exists id. split; [done|].
  assert (Hcached : cache st' !! id = Some (CachedDoc d)).
  { inv_M. match goal with H : cache_lookup _ _ = _ |- _ => rename H into Hlook end.
    destruct x as [d'|].
    - inv_M. by apply cache_lookup_Some in Hlook as (-> & ? & _).
    - unfold catch in H.
      destruct (bind _ _ x0) as [[[r|]|e] s] eqn:Hrun;
        [| |destruct e; simplify_eq; unfold ret in H; simplify_eq].
      + simplify_eq. inv_M. case_M. unfold RepoCache.set, modify in *.
        simplify_eq. simpl. by rewrite lookup_insert_eq.
      + simplify_eq. }
  split; [done|]. intros Ht fuel' coll' depth'.
  unfold bind, cache_lookup, RepoCache.get, bind, get_state, ret.
  rewrite Hcached, Ht. done.
Qed.

Lemma resolve_result_is_cached_witness :
  ∃ d st', resolve 4 (TId Sample.idE) "entity" None Sample.repository = (Ok (Some d), st')
           ∧ cache st' !! Sample.idE = Some (CachedDoc d).
Proof.
  assert (Hok : match resolve 4 (TId Sample.idE) "entity" None Sample.repository with
                | (Ok (Some _), _) => true
                | _ => false
                end = true) by (vm_compute; reflexivity).
  destruct (resolve 4 (TId Sample.idE) "entity" None Sample.repository)
    as [[[d|]|e] st'] eqn:Hrun; try discriminate Hok.
  exists d, st'. split; [reflexivity|].
  destruct (resolve_result_is_cached 4 (TId Sample.idE) "entity" None
              Sample.repository d st' Hrun) as (id & Hid & Hcached & _).
  injection Hid as <-. exact Hcached.
Defined.

(** ** Hydration leaves no dangling entry *)

(** A loop over [Object.entries(m)] / [for (const id in m)] whose turn for
    the entry [e] touches no key but [e.1] and leaves under [e.1] nothing
    but a value that satisfies [Q]: afterwards every entry satisfies [Q],
    and no key was added. *)
Lemma foldM_entries_aux {V} (f : gmap string V → string * V → M (gmap string V))
    (Q : string → V → Prop) :
  (∀ m e s m' s', f m e s = (Ok m', s') →
     (∀ k, k ≠ e.1 → m' !! k = m !! k)
     ∧ (m !! e.1 = Some e.2 → ∀ v, m' !! e.1 = Some v → Q e.1 v)) →
  ∀ l m st m' st',
    NoDup (fst <$> l) →
    (∀ k v, (k, v) ∈ l → m !! k = Some v) →
    foldM f l m st = (Ok m', st') →
    ∀ k v, m' !! k = Some v →
      ((k ∈ (fst <$> l)) ∧ Q k v) ∨ ((k ∉ (fst <$> l)) ∧ m !! k = Some v).
Proof.
  intros Hstep. induction l as [|e l IH]; simpl; intros m st m' st' Hnd Hin H k v Hk.
  - inv_M. right. split; [apply not_elem_of_nil|done].
  - inv_M. match goal with H : f _ _ _ = _ |- _ => apply Hstep in H as [Hother Hkey] end.
    apply NoDup_cons in Hnd as [Hhead Hnd].
    eapply IH in H; [|done| |exact Hk].
    + destruct H as [[Hl HQ]|[Hl Hv]].
      * left. split; [by apply elem_of_cons; right|done].
      * destruct (decide (k = e.1)) as [->|Hne].
        -- left. split; [by apply elem_of_cons; left|].
           apply Hkey; [|done]. apply Hin. destruct e. by apply elem_of_cons; left.
        -- right. rewrite <- Hother by done. split; [|done].
           intros [?|?]%elem_of_cons; done.
    + intros k' v' Hin'. rewrite Hother.
      * apply Hin. by apply elem_of_cons; right.
      * intros ->. apply Hhead. apply list_elem_of_fmap. by exists (e.1, v').
Qed.

Lemma foldM_entries {V} (f : gmap string V → string * V → M (gmap string V))
    (Q : string → V → Prop) m st m' st' :
  (∀ m e s m' s', f m e s = (Ok m', s') →
     (∀ k, k ≠ e.1 → m' !! k = m !! k)
     ∧ (m !! e.1 = Some e.2 → ∀ v, m' !! e.1 = Some v → Q e.1 v)) →
  foldM f (map_to_list m) m st = (Ok m', st') →
  ∀ k v, m' !! k = Some v → is_Some (m !! k) ∧ Q k v.
Proof.
  intros Hstep H k v Hk.
  eapply (foldM_entries_aux f Q Hstep) in H as [[Hl HQ]|[Hl Hv]]; [| |
    apply NoDup_fst_map_to_list | by intros ?? ?%elem_of_map_to_list | exact Hk].
  - split; [|done]. apply list_elem_of_fmap in Hl as ([k' v'] & -> & Hin).
    apply elem_of_map_to_list in Hin. by eexists.
  - exfalso. apply Hl. apply list_elem_of_fmap. exists (k, v).
    split; [done|]. by apply elem_of_map_to_list.
Qed.







Lemma mapM_length {A B} (f : A → M B) l : ∀ st l' st',
  mapM f l st = (Ok l', st') → length l' = length l.
Proof.
  intros st l' st' H. apply mapM_Forall2 in H. symmetry. by eapply Forall2_length.
Qed.

Lemma length_omap_le {A B} (f : A → option B) (l : list A) :
  (length (omap f l) ≤ length l)%nat.
Proof. induction l as [|x l IH]; csimpl; [lia|]. destruct (f x); simpl; lia. Qed.

Lemma resolve_address_entry_step R m e s m' s' :
  resolve_address_entry R m e s = (Ok m', s') →
  (∀ k, k ≠ e.1 → m' !! k = m !! k)
  ∧ (m !! e.1 = Some e.2 → ∀ v, m' !! e.1 = Some v → isUnresolved v = false).
Proof.
  unfold resolve_address_entry. destruct e as [id address]. simpl. intros H.
  destruct (isUnresolved address) eqn:Hu; simpl in H; inv_M.
  - case_M.
    + destruct d; simpl in *; inv_M. split.
      * intros k Hk. by rewrite lookup_insert_ne.
      * intros _ v. rewrite lookup_insert_eq. by intros [= <-].
    + split.
      * intros k Hk. by rewrite lookup_delete_ne.
      * intros _ v. by rewrite lookup_delete_eq.
  - split; [done|]. intros -> v [= <-]. done.
Qed.

Lemma resolve_contact_entry_step R m e s m' s' :
  resolve_contact_entry R m e s = (Ok m', s') →
  (∀ k, k ≠ e.1 → m' !! k = m !! k)
  ∧ (m !! e.1 = Some e.2 → ∀ v, m' !! e.1 = Some v → isUnresolved v = false).
Proof.
  unfold resolve_contact_entry. destruct e as [id contact]. simpl. intros H.
  destruct (isUnresolved contact) eqn:Hu; simpl in H; inv_M.
  - case_M.
    + destruct d; simpl in *; inv_M. split.
      * intros k Hk. by rewrite lookup_insert_ne.
      * intros _ v. rewrite lookup_insert_eq. by intros [= <-].
    + split.
      * intros k Hk. by rewrite lookup_delete_ne.
      * intros _ v. by rewrite lookup_delete_eq.
  - split; [done|]. intros -> v [= <-]. done.
Qed.

Lemma resolve_institutions_entry_step R entityId m e s m' s' :
  resolve_institutions_entry R entityId m e s = (Ok m', s') →
  (∀ k, k ≠ e.1 → m' !! k = m !! k)
  ∧ (m !! e.1 = Some e.2 → ∀ v, m' !! e.1 = Some v → all_hydrated v).
Proof.
  unfold resolve_institutions_entry. destruct e as [id [l|]]; simpl; intros H; inv_M.
  split.
  - intros k Hk. by rewrite lookup_insert_ne.
  - intros _ v. rewrite lookup_insert_eq. intros [= <-]. eexists. split; [done|].
    apply Forall_fmap, Forall_forall. intros i _. by eexists.
Qed.

Lemma resolveInstitution_no_bare_address R institution entityId st i' st' :
  resolveInstitution R institution entityId st = (Ok i', st') →
  ∃ i, filter_context institution entityId = PartyInstitution i
       ∧ ∀ id slot, institution_addresses i' !! id = Some slot →
           is_Some (institution_addresses i !! id) ∧ isUnresolved slot = false.
Proof.
  unfold resolveInstitution. intros H. inv_M.
  destruct (filter_context institution entityId) as [p|i]; simpl in *; inv_M.
  eexists. split; [done|]. simpl. intros id slot Hslot.
  eapply (foldM_entries _ (λ _ v, isUnresolved v = false));
    [apply resolve_address_entry_step | eassumption | exact Hslot].
Qed.

Lemma resolvePerson_no_bare_contact R person entityId st p' st' :
  resolvePerson R person entityId st = (Ok p', st') →
  ∃ p, filter_context person entityId = PartyPerson p
       ∧ (∀ id slot, person_contact_references p' !! id = Some slot →
            is_Some (person_contact_references p !! id) ∧ isUnresolved slot = false)
       ∧ (∀ id l, person_institutions p' !! id = Some l →
            is_Some (person_institutions p !! id) ∧ all_hydrated l).
Proof.
  unfold resolvePerson. intros H. inv_M.
  destruct (filter_context person entityId) as [p|i]; simpl in *; inv_M.
  eexists. split; [done|]. simpl. split.
  - intros id slot Hslot.
    eapply (foldM_entries _ (λ _ v, isUnresolved v = false));
      [apply resolve_contact_entry_step | eassumption | exact Hslot].
  - intros id l Hl.
    eapply (foldM_entries _ (λ _ v, all_hydrated v));
      [apply resolve_institutions_entry_step | eassumption | exact Hl].
Qed.

(** X5.  [resolveInstitution] and [resolvePerson] leave no bare reference
    behind: in the returned institution no address is a reference, in the
    returned person no contact is a reference and every list of institutions
    holds hydrated institutions only (a reference that does not resolve is
    deleted or dropped); the keys are keys of the record after the context
    filter, none is added. *)
Theorem resolved_parties_hold_no_bare_reference R :
  (∀ institution entityId st i' st',
     resolveInstitution R institution entityId st = (Ok i', st') →
     ∃ i, filter_context institution entityId = PartyInstitution i
          ∧ ∀ id slot, institution_addresses i' !! id = Some slot →
              is_Some (institution_addresses i !! id) ∧ isUnresolved slot = false)
  ∧ (∀ person entityId st p' st',
       resolvePerson R person entityId st = (Ok p', st') →
       ∃ p, filter_context person entityId = PartyPerson p
            ∧ (∀ id slot, person_contact_references p' !! id = Some slot →
                 is_Some (person_contact_references p !! id)
                 ∧ isUnresolved slot = false)
            ∧ (∀ id l, person_institutions p' !! id = Some l →
                 is_Some (person_institutions p !! id) ∧ all_hydrated l)).
Proof.
  split.
  - apply resolveInstitution_no_bare_address.
  - apply resolvePerson_no_bare_contact.
Qed.

(** X6.  [resolveDigitalEntity] returns [tags] as an array of hydrated
    tags, never longer than the stored one and never undefined (a tag that
    does not resolve is dropped); [phyObjs] keeps its length, each entry
    hydrated or left as it was. *)
Theorem resolveDigitalEntity_tags_and_phyObjs R digitalEntity st e' st' :
  resolveDigitalEntity R digitalEntity st = (Ok e', st') →
  (∃ tags, digital_tags e' = Some tags
           ∧ Forall (λ t, ∃ tag, t = Resolved tag) tags
           ∧ (length tags ≤ length (default [] (digital_tags digitalEntity)))%nat)
  ∧ match digital_phyObjs digitalEntity, digital_phyObjs e' with
    | Some old, Some new =>
        Forall2 (λ o n, n = o ∨ ∃ p, n = Resolved p) old new
    | None, None => True
    | _, _ => False
    end.
Proof.
  unfold resolveDigitalEntity. intros H. inv_M. simpl.
  assert (Htags : digital_tags x = digital_tags digitalEntity
                  ∧ digital_phyObjs x = digital_phyObjs digitalEntity).
  { match goal with H : resolveMetaDataEntity _ _ _ = _ |- _ => rename H into Hm end.
    unfold resolveMetaDataEntity in Hm.
    destruct (negb _); inv_M; [done|]. simpl. done. }
  destruct Htags as [Ht Hp]. rewrite Ht, Hp in *. split.
  - eexists. split; [done|]. split.
    + apply Forall_fmap, Forall_forall. intros t _. by eexists.
    + rewrite length_fmap.
      match goal with H : mapM _ _ _ = _ |- _ => apply mapM_length in H as <- end.
      apply length_omap_le.
  - unfold on_some in *. destruct (digital_phyObjs digitalEntity) as [old|]; inv_M; [|done].
    match goal with H : mapM _ _ _ = _ |- _ => apply mapM_Forall2 in H end.
    eapply Forall2_impl; [eassumption|]. simpl. intros o n (s1 & s2 & Hs).
    unfold resolve_phyObj_slot in Hs. inv_M. case_M; [|by left].
    right. by eexists.
Qed.

Lemma resolveDigitalEntity_tags_and_phyObjs_witness :
  ∃ e' st', resolveDigitalEntity (resolve 4) Sample.A Sample.repository = (Ok e', st')
            ∧ ∃ tags, digital_tags e' = Some tags
                      ∧ Forall (λ t, ∃ tag, t = Resolved tag) tags
                      ∧ (length tags ≤ length (default [] (digital_tags Sample.A)))%nat.
Proof.
  assert (Hok : succeeds (resolveDigitalEntity (resolve 4) Sample.A Sample.repository)
                = true) by (vm_compute; reflexivity).
  destruct (resolveDigitalEntity (resolve 4) Sample.A Sample.repository)
    as [[e'|e] st'] eqn:Hrun; [|discriminate Hok].
  exists e', st'. split; [reflexivity|].
  exact (proj1 (resolveDigitalEntity_tags_and_phyObjs _ _ _ _ _ Hrun)).
Defined.

Lemma resolved_parties_hold_no_bare_reference_witness :
  ∃ p' st', resolvePerson (resolve 4) (PartyPerson Sample.P) (Some Sample.idA)
              Sample.repository = (Ok p', st')
            ∧ ∀ id l, person_institutions p' !! id = Some l → all_hydrated l.
Proof.
  assert (Hok : succeeds (resolvePerson (resolve 4) (PartyPerson Sample.P)
                            (Some Sample.idA) Sample.repository) = true)
    by (vm_compute; reflexivity).
  destruct (resolvePerson (resolve 4) (PartyPerson Sample.P) (Some Sample.idA)
              Sample.repository) as [[p'|e] st'] eqn:Hrun; [|discriminate Hok].
  exists p', st'. split; [reflexivity|]. intros id l Hl.
  destruct (proj2 (resolved_parties_hold_no_bare_reference (resolve 4))
              _ _ _ _ _ Hrun) as (p & _ & _ & Hinst).
  exact (proj2 (Hinst id l Hl)).
Defined.

(** ** [saveAnnotation]: who may save, and what a save writes *)

Lemma bind_Throw {A B} (c : M A) (k : A → M B) st e st' :
  bind c k st = (Throw e, st') →
  c st = (Throw e, st') ∨ ∃ a st1, c st = (Ok a, st1) ∧ k a st1 = (Throw e, st').
Proof.
  unfold bind. destruct (c st) as [[a|e0] st1]; [eauto|]. intros [= -> ->]. by left.
Qed.

Lemma promise_executor_Throw {A} (body : M A) st e st' :
  promise_executor body st = (Throw e, st') → ∃ e0, body st = (Throw e0, st').
Proof.
  unfold promise_executor. destruct (body st) as [[a|e0] st1]; [discriminate|].
  destruct e0; intros [= <- <-]; eauto.
Qed.

Lemma promise_executor_Ok {A} (body : M A) st a st' :
  promise_executor body st = (Ok a, st') → body st = (Ok a, st').
Proof.
  unfold promise_executor. destruct (body st) as [[a0|e0] st1]; [done|].
  destruct e0; discriminate.
Qed.

(** X7.  A requester who owns neither the existing annotation nor the
    compilation it belongs to cannot save it: [saveAnnotation] rejects with a
    message and leaves the state as it was, whatever the annotation holds. *)
Theorem saveAnnotation_stranger_rejected env R annotation userData st :
  isUserOwnerOfEntity userData (annotation_id annotation) = false →
  (∀ source c, annotation_source annotation = Some source →
     source_relatedCompilation source = Some c →
     isUserOwnerOfEntity userData c = false) →
  ∃ message, saveAnnotation env R annotation userData true st
             = (Throw (Rejected (Some message)), st).
Proof.
  intros Howner Hcomp. unfold saveAnnotation, promise_executor, reject, throw.
  rewrite Howner.
  destruct (annotation_source annotation) as [source|]; [|by eexists].
  destruct (annotation_body annotation) as [body|]; [|by eexists].
  destruct (body_content body) as [content|]; [|by eexists].
  destruct (content_relatedPerspective content) as [perspective|]; [|by eexists].
  destruct (source_relatedEntity source) as [e|]; [|by eexists].
  destruct (source_relatedCompilation source) as [c|] eqn:Hc; [|by eexists].
  destruct (negb (ObjectId.isValid e)); [by eexists|].
  destruct (negb (ObjectId.isValid c) && negb (isUserOwnerOfEntity userData e));
    [by eexists|].
  rewrite (Hcomp source c eq_refl Hc). simpl. by eexists.
Qed.

Lemma saveAnnotation_stranger_rejected_witness :
  ∃ message, saveAnnotation Sample.env (resolve 4) Sample.N_changed Cases.stranger true
               Sample.repository
             = (Throw (Rejected (Some message)), Sample.repository).
Proof.
  apply (saveAnnotation_stranger_rejected Sample.env (resolve 4) Sample.N_changed
           Cases.stranger Sample.repository).
  - reflexivity.
  - intros source c _ _. reflexivity.
Defined.

(** X8.  A save that fails has written nothing: when [saveAnnotation]
    rejects (or its promise does not settle), the store and the accounts
    are what they were, for any resolver that only reads them. *)
Theorem saveAnnotation_failure_writes_nothing
    env R annotation userData doesEntityExist st e st' :
  (∀ obj coll depth s, same_repository s (R obj coll depth s).2) →
  saveAnnotation env R annotation userData doesEntityExist st = (Throw e, st') →
  same_repository st st'.
Proof.
  intros HR H. apply promise_executor_Throw in H as [e0 H]. clear e.
  unfold reject, throw in H.
  destruct (annotation_source annotation) as [source|]; [|by simplify_eq].
  destruct (annotation_body annotation) as [body|]; [|by simplify_eq].
  destruct (body_content body) as [content|]; [|by simplify_eq].
  destruct (content_relatedPerspective content) as [perspective|]; [|by simplify_eq].
  destruct (source_relatedEntity source) as [re|]; [|by simplify_eq].
  destruct (source_relatedCompilation source) as [rc|] eqn:Hc; [|by simplify_eq].
  destruct (negb (ObjectId.isValid re)); [by simplify_eq|].
  destruct (negb (ObjectId.isValid rc) && negb (isUserOwnerOfEntity userData re));
    [by simplify_eq|].
  apply bind_Throw in H as [H|(? & st1 & Hgate & H)].
  - (* the ownership gate *)
    destruct (negb _); [|discriminate].
    destruct (isUserOwnerOfEntity userData rc); [|by simplify_eq].
    apply bind_Throw in H as [H|(old & s1 & Hold & H)].
    + pose proof (HR (TObj (annotation_id annotation)) "annotation" None st) as HRs.
      rewrite H in HRs. simpl in HRs. done.
    + pose proof (HR (TObj (annotation_id annotation)) "annotation" None st) as HRs.
      rewrite Hold in HRs. simpl in HRs.
      destruct old as [[]|]; try discriminate.
      destruct (same_body _ _); [by simplify_eq|discriminate].
  - assert (Hst1 : same_repository st st1).
    { destruct (negb _); [|unfold ret in Hgate; by simplify_eq].
      destruct (isUserOwnerOfEntity userData rc); [|discriminate].
      apply bind_Ok in Hgate as (old & s1 & Hold & Hgate).
      pose proof (HR (TObj (annotation_id annotation)) "annotation" None st) as HRs.
      rewrite Hold in HRs. simpl in HRs.
      destruct old as [[]|]; unfold ret in Hgate; try by simplify_eq.
      destruct (same_body _ _); [discriminate|by simplify_eq]. }
    cbv zeta in H.
    apply bind_Throw in H as [H|(obj & st2 & Hupd & H)].
    + unfold updateAnnotationList in H.
      apply bind_Throw in H as [H|(r & s2 & Hr & H)].
      * match type of H with R ?o ?c ?d _ = _ => pose proof (HR o c d st1) as HRs end.
        rewrite H in HRs. simpl in HRs. destruct Hst1, HRs. split; congruence.
      * match type of Hr with R ?o ?c ?d _ = _ => pose proof (HR o c d st1) as HRs end.
        rewrite Hr in HRs. simpl in HRs.
        assert (st' = s2) as ->.
        { destruct r as [d|]; [|unfold throw in H; by simplify_eq].
          apply bind_Throw in H as [H|(? & ? & ? & H)]; [|discriminate].
          destruct d; simpl in H; unfold throw in H; by simplify_eq. }
        destruct Hst1, HRs. split; congruence.
    + assert (Hst2 : same_repository st st2).
      { unfold updateAnnotationList in Hupd.
        apply bind_Ok in Hupd as (r & s2 & Hr & Hupd).
        match type of Hr with R ?o ?c ?d _ = _ => pose proof (HR o c d st1) as HRs end.
        rewrite Hr in HRs. simpl in HRs.
        destruct r as [d|]; [|discriminate].
        apply bind_Ok in Hupd as (o & s3 & Ho & Hupd).
        apply as_annotated_state in Ho as ->. unfold ret in Hupd. simplify_eq.
        destruct Hst1, HRs. split; congruence. }
      apply bind_Throw in H as [H|(ok & st3 & Hok & H)].
      * unfold update_annotationList in H.
        destruct (acknowledged _ _ _); discriminate.
      * unfold update_annotationList in Hok.
        destruct (acknowledged _ _ _).
        -- unfold bind, modify, ret in Hok. simplify_eq. simpl in H.
           destruct (if doesEntityExist then _ else _); discriminate.
        -- unfold ret in Hok. simplify_eq. simpl in H. unfold throw in H.
           by simplify_eq.
Qed.

Lemma saveAnnotation_failure_writes_nothing_witness :
  same_repository Sample.repository
    (saveAnnotation Sample.env (resolve 4) Sample.N Sample.U2 true Sample.repository).2.
Proof.
  assert (Hfails : succeeds (saveAnnotation Sample.env (resolve 4) Sample.N Sample.U2
                               true Sample.repository) = false)
    by (vm_compute; reflexivity).
  destruct (saveAnnotation Sample.env (resolve 4) Sample.N Sample.U2 true
              Sample.repository) as [[a|e] st'] eqn:Hrun; [discriminate Hfails|].
  apply (saveAnnotation_failure_writes_nothing Sample.env (resolve 4) Sample.N
           Sample.U2 true Sample.repository e st'); [|exact Hrun].
  intros obj coll depth s.
  destruct (resolve 4 obj coll depth s) as [r s'] eqn:Hres.
  apply resolve_reads in Hres as (Hstore & Haccounts & _). by split.
Defined.

Lemma insertCurrentUserData_store userData _id kind st r st' :
  insertCurrentUserData userData _id kind st = (r, st') → store st' = store st.
Proof. unfold insertCurrentUserData, modify. intros H. by simplify_eq. Qed.

(** X9.  A save that succeeds (with the resolver of [services/mongo.ts])
    has put the id of the annotation into the [annotationList] of its
    target in the store, the related compilation when that is a valid id,
    the related entity otherwise, and returns the annotation stamped with the
    requester as last modifier and the time of the save.  The [_id] of the
    annotation is an ObjectId, as the handler sets it, and the ids of the
    related entity and compilation are in canonical form whenever the driver
    accepts them, so that [annotation_target] is the target the code
    chooses. *)
Theorem saveAnnotation_registers_annotation
    env annotation userData doesEntityExist st saved st' :
  ObjectId.isValid (annotation_id annotation) = true →
  (∀ source id, annotation_source annotation = Some source →
     source_relatedEntity source = Some id ∨ source_relatedCompilation source = Some id →
     ObjectId.accepts id = true → ObjectId.isValid id = true) →
  saveAnnotation env Mongo.resolve annotation userData doesEntityExist st
    = (Ok saved, st') →
  ∃ coll target,
    annotation_target annotation = Some (coll, target)
    ∧ annotation_id annotation ∈ stored_annotationList st' coll target
    ∧ annotation_id saved = annotation_id annotation
    ∧ annotation_lastModifiedBy saved
      = {| agent_id := user_id userData; agent_name := user_fullname userData;
           agent_type := "person" |}
    ∧ annotation_lastModificationDate saved = Some (now env).
Proof.
  intros _ _ H. apply promise_executor_Ok in H. unfold reject in H.
  destruct (annotation_source annotation) as [source|] eqn:Hs; [|discriminate].
  destruct (annotation_body annotation) as [body|]; [|discriminate].
  destruct (body_content body) as [content|]; [|discriminate].
  destruct (content_relatedPerspective content) as [perspective|]; [|discriminate].
  destruct (source_relatedEntity source) as [re|] eqn:Hre; [|discriminate].
  destruct (source_relatedCompilation source) as [rc|] eqn:Hc; [|discriminate].
  destruct (negb (ObjectId.isValid re)); [discriminate|].
  destruct (negb (ObjectId.isValid rc) && negb (isUserOwnerOfEntity userData re));
    [discriminate|].
  assert (Htarget : annotation_target annotation
                    = Some (if ObjectId.isValid rc then ("compilation", rc)
                            else ("entity", re))).
  { unfold annotation_target. rewrite Hs. simpl. rewrite Hre. simpl. by rewrite Hc. }
  rewrite Htarget. clear Htarget.
  apply bind_Ok in H as ([] & st1 & Hgate & H).
  assert (st1 = st) as ->.
  { destruct (negb _); [|unfold ret in Hgate; by simplify_eq].
    destruct (isUserOwnerOfEntity userData rc); [|discriminate].
    apply bind_Ok in Hgate as (old & s1 & Hold & Hgate).
    unfold Mongo.resolve in Hold. destruct (truthy _) in Hold;
      unfold findOne, bind, get_state, ret in Hold; simplify_eq.
    - destruct (store _ !! _) as [[]|]; unfold ret in Hgate; try by simplify_eq.
      destruct (same_body _ _); [discriminate|by simplify_eq].
    - unfold ret in Hgate. by simplify_eq. }
  cbv zeta in H.
  apply bind_Ok in H as (obj & st2 & Hupd & H).
  apply bind_Ok in H as (ok & st3 & Hok & H).
  destruct ok; simpl in H; [|discriminate].
  apply bind_Ok in H as ([] & st4 & Hins & H). apply ret_Ok in H as [<- <-].
  simpl.
  exists (if negb (ObjectId.isValid rc) then "entity" else "compilation"),
         (if negb (ObjectId.isValid rc) then re else rc).
  split; [by destruct (ObjectId.isValid rc)|]. split; [|done].
  assert (Hstore : store st4 = store st3).
  { destruct (if doesEntityExist then _ else _).
    - by eapply insertCurrentUserData_store.
    - unfold ret in Hins. by simplify_eq. }
  unfold stored_annotationList. rewrite Hstore.
  unfold updateAnnotationList in Hupd.
  apply bind_Ok in Hupd as (r & s2 & Hr & Hupd).
  unfold Mongo.resolve, findOne, bind, get_state, ret in Hr. simplify_eq.
  set (coll := if negb (ObjectId.isValid rc) then "entity" else "compilation") in *.
  set (target := if negb (ObjectId.isValid rc) then re else rc) in *.
  destruct (store s2 !! (coll, target)) as [d|] eqn:Hd; [|discriminate].
  apply bind_Ok in Hupd as (o & s3 & Ho & Hupd).
  pose proof (as_annotated_state _ _ _ _ Ho) as ->.
  apply ret_Ok in Hupd as [<- <-].
  unfold update_annotationList in Hok.
  destruct (acknowledged env coll target); [|discriminate].
  unfold bind, modify, ret in Hok. simplify_eq. simpl. rewrite Hd.
  rewrite annotationList_with.
  assert (Hin : annotation_id annotation
                ∈ list_ids (Some ((λ a, Some (Unresolved (entry_id a))) <$>
                     match List.find (λ a, bool_decide (entry_id a = annotation_id annotation))
                             (filter_null (default [] (annotationList o))) with
                     | Some _ => filter_null (default [] (annotationList o))
                     | None => (filter_null (default [] (annotationList o))
                                ++ [Unresolved (annotation_id annotation)])%list
                     end))).
  { rewrite list_ids_references.
    destruct (List.find _ _) eqn:Hfind.
    - by eapply find_entry_Some.
    - rewrite fmap_app. apply elem_of_app. right. simpl. by apply list_elem_of_singleton. }
  destruct d; simpl in Ho; unfold ret, throw in Ho; simplify_eq;
    rewrite lookup_insert_eq; exact Hin.
Qed.

(** A new annotation of [E] in [C]: its id is not in the list of [C] before
    the save and is in it afterwards. *)
Lemma saveAnnotation_registers_annotation_witness :
  bool_decide (Cases.idN2 ∈ stored_annotationList Sample.repository "compilation"
                               Sample.idC) = false
  ∧ ∃ saved st',
      saveAnnotation Sample.env Mongo.resolve Cases.N_new Sample.U1 false
        Sample.repository = (Ok saved, st')
      ∧ Cases.idN2 ∈ stored_annotationList st' "compilation" Sample.idC.
Proof.
  split; [vm_compute; reflexivity|].
  assert (Hok : succeeds (saveAnnotation Sample.env Mongo.resolve Cases.N_new Sample.U1
                            false Sample.repository) = true)
    by (vm_compute; reflexivity).
  destruct (saveAnnotation Sample.env Mongo.resolve Cases.N_new Sample.U1 false
              Sample.repository) as [[saved|e] st'] eqn:Hrun; [|discriminate Hok].
  exists saved, st'. split; [reflexivity|].
  assert (Hcanonical : ∀ source id,
            annotation_source Cases.N_new = Some source →
            source_relatedEntity source = Some id
            ∨ source_relatedCompilation source = Some id →
            ObjectId.accepts id = true → ObjectId.isValid id = true).
  { intros source id Hsource Hid _. injection Hsource as <-.
    destruct Hid as [Hid|Hid]; injection Hid as <-; reflexivity. }
  destruct (saveAnnotation_registers_annotation Sample.env Cases.N_new Sample.U1 false
              Sample.repository saved st' eq_refl Hcanonical Hrun)
    as (coll & target & Htarget & Hin & _).
  injection Htarget as <- <-. exact Hin.
Defined.

(** ** Owner commands *)

Ltac step_M H :=
  repeat (cbv beta iota zeta in H;
    match type of H with
    | ret _ _ = _ => unfold ret in H; simplify_eq
    | throw _ _ = _ => unfold throw in H; simplify_eq
    | (if ?c then _ else _) _ = _ => destruct c eqn:?
    end).

Lemma update_account_state env coll account data st ok st' :
  update_account env coll account data st = (Ok ok, st') →
  (ok = false ∧ st' = st)
  ∨ (ok = true
     ∧ st' = set_accounts (insert (user_id account) (with_data data account)) st).
Proof.
  unfold update_account. destruct (acknowledged _ _ _).
  - unfold bind, modify, ret. intros [= <- <-]. by right.
  - unfold ret. intros [= <- <-]. by left.
Qed.

Lemma update_account_Ok env coll account data st :
  ∃ ok st', update_account env coll account data st = (Ok ok, st').
Proof.
  unfold update_account. destruct (acknowledged _ _ _);
    unfold bind, modify, ret; eauto.
Qed.

Lemma find_account_state ownerId ownerUsername st r st' :
  find_account ownerId ownerUsername st = (r, st') → st' = st.
Proof.
  unfold find_account, bind, get_state. intros H. step_M H; done.
Qed.

Lemma accounts_keyed_to_list st :
  Forall (λ p, user_id p.2 = p.1) (map_to_list (accounts st)) → accounts_keyed st.
Proof.
  intros H k u Hk. apply elem_of_map_to_list in Hk.
  by apply (proj1 (Forall_forall _ _) H (k, u)).
Qed.

Section OwnerCommands.

Variable env : Env.
Variable R : string → string → M fetched.
Hypothesis R_reads : ∀ id coll st, (R id coll st).2 = st.

Lemma R_state id coll st r st' : R id coll st = (r, st') → st' = st.
Proof. intros H. pose proof (R_reads id coll st) as HR. by rewrite H in HR. Qed.

Lemma applyActionToEntityOwner_state_unless_ok request st r st' :
  applyActionToEntityOwner env R request st = (r, st') →
  r ≠ Ok ReplyOk → st' = st.
Proof.
  unfold applyActionToEntityOwner. intros H Hr. step_M H; try done.
  unfold bind in H. destruct (R _ _ st) as [[f|e] s1] eqn:HR;
    apply R_state in HR as ->; [|by simplify_eq].
  step_M H; try done.
  destruct (find_account _ _ st) as [[account|e] s1] eqn:Hacc;
    apply find_account_state in Hacc as ->; [|by simplify_eq].
  destruct account as [account|]; [|step_M H; done].
  step_M H.
  - destruct (update_account_Ok env "users" account
                (set_owned "entity"
                   match List.find (λ obj, bool_decide
                           (obj = default "" (owner_targetId request)))
                         (List.filter truthy (default [] (owned "entity" account))) with
                   | Some _ => List.filter truthy (default [] (owned "entity" account))
                   | None => (List.filter truthy (default [] (owned "entity" account))
                              ++ [default "" (owner_targetId request)])%list
                   end (user_data account)) st) as (ok & s2 & Hupd).
    rewrite Hupd in H. apply update_account_state in Hupd as [[-> ->]|[-> ->]];
      unfold ret in H; by simplify_eq.
  - destruct (findAllEntityOwners _ st) as [[owners|e] s1] eqn:Hown.
    + apply findAllEntityOwners_state in Hown as ->.
      step_M H; try done.
      destruct (update_account_Ok env "users" account
                  (set_owned "entity"
                     (List.filter (λ e, negb (bool_decide
                             (e = default "" (owner_targetId request))))
                        (List.filter truthy (default [] (owned "entity" account))))
                     (user_data account)) st) as (ok & s2 & Hupd).
      rewrite Hupd in H. apply update_account_state in Hupd as [[-> ->]|[-> ->]];
        unfold ret in H; by simplify_eq.
    + unfold findAllEntityOwners, bind, get_state, ret in Hown. discriminate.
Qed.

(** X10.  An owner command writes only when it answers [{status: 'ok'}]:
    with any other answer (an error reply or a failed promise) the accounts
    and the store are exactly what they were. *)
Theorem applyActionToEntityOwner_writes_only_on_ok request st r st' :
  applyActionToEntityOwner env R request st = (r, st') →
  r ≠ Ok ReplyOk → st' = st.
Proof. apply applyActionToEntityOwner_state_unless_ok. Qed.

End OwnerCommands.

Lemma applyActionToEntityOwner_writes_only_on_ok_witness :
  (applyActionToEntityOwner Sample.env Mongo_resolve_fetched Sample.remove_last
     Sample.repository).2 = Sample.repository.
Proof.
  assert (Hr : (applyActionToEntityOwner Sample.env Mongo_resolve_fetched
                  Sample.remove_last Sample.repository).1
               = Ok (ReplyError "Cannot remove last owner"))
    by (vm_compute; reflexivity).
  destruct (applyActionToEntityOwner Sample.env Mongo_resolve_fetched
              Sample.remove_last Sample.repository) as [r st'] eqn:Hrun.
  simpl in Hr. simpl.
  apply (applyActionToEntityOwner_writes_only_on_ok Sample.env Mongo_resolve_fetched
           (λ _ _ _, eq_refl) Sample.remove_last Sample.repository r st' Hrun).
  rewrite Hr. intros Heq. discriminate Heq.
Defined.

Lemma owned_set_owned kind ids data u :
  owned kind (with_data (set_owned kind ids data) u) = Some ids.
Proof.
  unfold owned. simpl. induction data as [|[k old] data IH]; simpl.
  - by rewrite bool_decide_eq_true_2.
  - destruct (bool_decide (k = kind)) eqn:Hk; simpl; rewrite Hk; [done|exact IH].
Qed.

Lemma set_owned_idem kind ids data :
  set_owned kind ids (set_owned kind ids data) = set_owned kind ids data.
Proof.
  induction data as [|[k old] data IH]; simpl.
  - by rewrite bool_decide_eq_true_2.
  - destruct (bool_decide (k = kind)) eqn:Hk; simpl; rewrite Hk; [done|by rewrite IH].
Qed.

Lemma filter_truthy_idem (l : list string) :
  List.filter truthy (List.filter truthy l) = List.filter truthy l.
Proof. apply forallb_filter_id, forallb_filter. Qed.

Lemma find_id_Some (l : list string) id :
  id ∈ l → List.find (λ obj, bool_decide (obj = id)) l = Some id.
Proof.
  induction l as [|x l IH]; [by intros ?%elem_of_nil|].
  intros Hin. simpl. destruct (bool_decide (x = id)) eqn:Hx.
  - by apply bool_decide_eq_true in Hx as ->.
  - apply bool_decide_eq_false in Hx. apply elem_of_cons in Hin as [->|Hin]; [done|auto].
Qed.

Lemma find_id_In (l : list string) id x :
  List.find (λ obj, bool_decide (obj = id)) l = Some x → id ∈ l.
Proof.
  intros H. apply find_some in H as [Hin Hx]. apply bool_decide_eq_true in Hx as ->.
  by apply list_elem_of_In.
Qed.

Lemma Mongo_resolve_fetched_reads id coll st :
  (Mongo_resolve_fetched id coll st).2 = st.
Proof. done. Qed.

Lemma Mongo_resolve_fetched_defined id coll st :
  ∃ f, Mongo_resolve_fetched id coll st = (Ok f, st) ∧ is_undefined f = false.
Proof.
  unfold Mongo_resolve_fetched, Mongo.resolve, findOne, bind, get_state, ret.
  destruct (store st !! (coll, id)); by eexists.
Qed.

Lemma added_In entityId u : entityId ∈ added entityId u.
Proof.
  unfold added. destruct (List.find _ _) eqn:Hfind.
  - by eapply find_id_In.
  - apply elem_of_app. right. by apply list_elem_of_singleton.
Qed.

Lemma added_truthy entityId u :
  truthy entityId = true → List.filter truthy (added entityId u) = added entityId u.
Proof.
  intros Ht. unfold added. destruct (List.find _ _).
  - apply filter_truthy_idem.
  - rewrite List.filter_app, filter_truthy_idem. simpl. by rewrite Ht.
Qed.

Lemma applyActionToEntityOwner_add_run env request ownerId st r st' :
  owner_command request = "add" →
  owner_ownerId request = Some ownerId →
  truthy ownerId = true →
  applyActionToEntityOwner env Mongo_resolve_fetched request st = (r, st') →
  r = Ok ReplyOk →
  ∃ entityId u,
    owner_targetId request = Some entityId
    ∧ truthy entityId = true
    ∧ ObjectId.isValid entityId = true
    ∧ ObjectId.isValid ownerId = true
    ∧ accounts st !! ownerId = Some u
    ∧ acknowledged env "users" (user_id u) = true
    ∧ st' = set_accounts
              (insert (user_id u)
                 (with_data (set_owned "entity" (added entityId u) (user_data u)) u)) st.
Proof.
  intros Hcmd Hid Ht H ->. unfold applyActionToEntityOwner in H.
  rewrite Hcmd, Hid in H. simpl in H. rewrite Ht in H. simpl in H.
  destruct (owner_targetId request) as [entityId|] eqn:Htarget; simpl in H;
    [|by step_M H].
  step_M H.
  destruct (Mongo_resolve_fetched_defined entityId "entity" st) as (f & Hf & Hdef).
  unfold bind at 1 in H. rewrite Hf, Hdef in H.
  unfold find_account in H. simpl in H. rewrite Ht in H.
  unfold bind, get_state in H.
  destruct (ObjectId.isValid ownerId) eqn:Hvalid; [|discriminate].
  unfold ret in H.
  destruct (accounts st !! ownerId) as [u|] eqn:Hu; [|discriminate].
  change (match List.find (λ obj, bool_decide (obj = entityId))
                  (List.filter truthy (default [] (owned "entity" u))) with
          | Some _ => List.filter truthy (default [] (owned "entity" u))
          | None => (List.filter truthy (default [] (owned "entity" u))
                     ++ [entityId])%list
          end) with (added entityId u) in H.
  unfold update_account in H.
  destruct (acknowledged env "users" (user_id u)) eqn:Hack; [|discriminate].
  unfold bind, modify, ret in H. simplify_eq.
  match goal with
  | Hq : negb (truthy entityId) || _ = false |- _ =>
      apply orb_false_iff in Hq as [Hx1 Hx2];
      apply negb_false_iff in Hx1, Hx2
  end.
  by exists entityId, u.
Qed.

Lemma isValid_truthy s : ObjectId.isValid s = true → truthy s = true.
Proof. by destruct s. Qed.

(** X11.  For an owner id and an entity id in canonical form (24 lower-case
    hexadecimal digits, as the driver prints an id; another spelling of the
    entity id would be pushed again), the command [add] makes the addressed
    account hold the entity id, leaves every other account and the store
    alone, and repeating the command changes nothing further. *)
Theorem applyActionToEntityOwner_add_idempotent
    env request ownerId entityId st st' :
  owner_command request = "add" →
  owner_ownerId request = Some ownerId →
  owner_targetId request = Some entityId →
  ObjectId.isValid ownerId = true →
  ObjectId.isValid entityId = true →
  accounts_keyed st →
  applyActionToEntityOwner env Mongo_resolve_fetched request st = (Ok ReplyOk, st') →
  ∃ u',
    accounts st' !! ownerId = Some u'
    ∧ (∃ ids, owned "entity" u' = Some ids ∧ entityId ∈ ids)
    ∧ (∀ k, k ≠ ownerId → accounts st' !! k = accounts st !! k)
    ∧ store st' = store st
    ∧ applyActionToEntityOwner env Mongo_resolve_fetched request st' = (Ok ReplyOk, st').
Proof.
  intros Hcmd Hid Htarget0 Hvalid_owner _ Hkeyed H.
  pose proof (isValid_truthy _ Hvalid_owner) as Ht.
  destruct (applyActionToEntityOwner_add_run _ _ _ _ _ _ Hcmd Hid Ht H eq_refl)
    as (entityId' & u & Htarget & Hte & Hve & Hvo & Hu & Hack & ->).
  rewrite Htarget0 in Htarget. injection Htarget as <-.
  pose proof Htarget0 as Htarget.
  pose proof (Hkeyed _ _ Hu) as Hkey. simpl in Hkey.
  set (u' := with_data (set_owned "entity" (added entityId u) (user_data u)) u).
  exists u'. simpl. rewrite Hkey.
  split; [by rewrite lookup_insert_eq|].
  split; [exists (added entityId u); split; [apply owned_set_owned|apply added_In]|].
  split; [by intros k Hk; rewrite lookup_insert_ne|]. split; [done|].
  unfold applyActionToEntityOwner. rewrite Hcmd, Hid, Htarget. simpl.
  rewrite Ht, Hvo, Hte, Hve, andb_false_r. simpl.
  unfold bind at 1.
  destruct (Mongo_resolve_fetched_defined entityId "entity"
              (set_accounts (insert ownerId u') st)) as (f & -> & ->).
  unfold find_account. simpl. rewrite Ht, Hvo.
  unfold bind, get_state, ret. simpl. rewrite lookup_insert_eq.
  replace (owned "entity" u') with (Some (added entityId u))
    by (symmetry; apply owned_set_owned).
  simpl. rewrite (added_truthy _ _ Hte), (find_id_Some _ _ (added_In entityId u)).
  unfold update_account. simpl. rewrite Hack.
  unfold bind, modify, ret. simpl. rewrite Hkey, set_owned_idem.
  unfold set_accounts. simpl. by rewrite insert_insert_eq.
Qed.

Lemma applyActionToEntityOwner_add_idempotent_witness :
  ∃ st' u',
    applyActionToEntityOwner Sample.env Mongo_resolve_fetched Cases.add_owner
      Sample.repository = (Ok ReplyOk, st')
    ∧ accounts st' !! Sample.idU2 = Some u'
    ∧ applyActionToEntityOwner Sample.env Mongo_resolve_fetched Cases.add_owner st'
      = (Ok ReplyOk, st').
Proof.
  assert (Hr : (applyActionToEntityOwner Sample.env Mongo_resolve_fetched
                  Cases.add_owner Sample.repository).1 = Ok ReplyOk)
    by (vm_compute; reflexivity).
  destruct (applyActionToEntityOwner Sample.env Mongo_resolve_fetched
              Cases.add_owner Sample.repository) as [r st'] eqn:Hrun.
  simpl in Hr. subst r.
  assert (Hkeyed : accounts_keyed Sample.repository)
    by (apply accounts_keyed_to_list; vm_compute; repeat constructor).
  destruct (applyActionToEntityOwner_add_idempotent Sample.env Cases.add_owner
              Sample.idU2 Sample.idE Sample.repository st'
              eq_refl eq_refl eq_refl eq_refl eq_refl Hkeyed Hrun)
    as (u' & Hu' & _ & _ & _ & Hagain).
  exists st', u'. split; [reflexivity|]. split; [exact Hu'|exact Hagain].
Defined.

Lemma owners_of_length entityId st :
  length (owners_of entityId st)
  = length (List.filter (holds_entity entityId) (snd <$> map_to_list (accounts st))).
Proof.
  unfold owners_of, findAllEntityOwners, bind, get_state, ret. simpl.
  by rewrite length_fmap.
Qed.

Lemma filter_length_Permutation {A} (f : A → bool) (l l' : list A) :
  l ≡ₚ l' → length (List.filter f l) = length (List.filter f l').
Proof.
  induction 1 as [|x l l' _ IH|x y l|l1 l2 l3 _ IH1 _ IH2]; simpl.
  - done.
  - destruct (f x); simpl; by rewrite IH.
  - destruct (f x), (f y); done.
  - by rewrite IH1.
Qed.

Lemma owners_after_update entityId st k u u' :
  accounts st !! k = Some u →
  (length (owners_of entityId st)
   ≤ S (length (owners_of entityId (set_accounts (insert k u') st))))%nat.
Proof.
  intros Hu. rewrite !owners_of_length. simpl.
  rewrite (filter_length_Permutation _ (snd <$> map_to_list (accounts st))
             (snd <$> (k, u) :: map_to_list (delete k (accounts st)))).
  2: { apply fmap_Permutation. symmetry. by apply map_to_list_delete. }
  rewrite (filter_length_Permutation _
             (snd <$> map_to_list (<[k:=u']> (accounts st)))
             (snd <$> (k, u') :: map_to_list (delete k (accounts st)))).
  2: { apply fmap_Permutation. rewrite <- insert_delete_eq.
       apply map_to_list_insert, lookup_delete_eq. }
  simpl. destruct (holds_entity entityId u), (holds_entity entityId u'); simpl; lia.
Qed.

Lemma find_account_found ownerId ownerUsername st u st' :
  find_account ownerId ownerUsername st = (Ok (Some u), st') →
  ∃ k, accounts st !! k = Some u.
Proof.
  unfold find_account, bind, get_state. intros H. step_M H.
  - eauto.
  - match goal with H : List.find _ _ = Some _ |- _ => apply find_some in H as [Hin _] end.
    apply list_elem_of_In, list_elem_of_fmap in Hin as ([k u'] & -> & Hin).
    apply elem_of_map_to_list in Hin. eauto.
Qed.

Section RemoveOwner.

Variable env : Env.
Variable R : string → string → M fetched.
Hypothesis R_reads : ∀ id coll st, (R id coll st).2 = st.

Lemma applyActionToEntityOwner_remove_run request entityId st st' :
  owner_command request = "remove" →
  owner_targetId request = Some entityId →
  applyActionToEntityOwner env R request st = (Ok ReplyOk, st') →
  ∃ k u u',
    accounts st !! k = Some u
    ∧ length (owners_of entityId st) ≠ 1%nat
    ∧ st' = set_accounts (insert (user_id u) u') st.
Proof.
  intros Hcmd Htarget H. unfold applyActionToEntityOwner in H.
  rewrite Hcmd, Htarget in H. simpl in H. step_M H.
  unfold bind at 1 in H. destruct (R entityId "entity" st) as [[f|e] s1] eqn:HR;
    [|discriminate].
  apply (R_state R R_reads) in HR as ->. step_M H.
  unfold bind at 1 in H.
  destruct (find_account _ _ st) as [[account|e] s1] eqn:Hacc; [|discriminate].
  pose proof (find_account_state _ _ _ _ _ Hacc) as ->.
  destruct account as [u|]; [|by step_M H].
  apply find_account_found in Hacc as [k Hk].
  unfold bind at 1 in H.
  destruct (findAllEntityOwners entityId st) as [[owners|e] s1] eqn:Hown;
    [|discriminate].
  pose proof (findAllEntityOwners_state _ _ _ _ Hown) as ->.
  step_M H.
  match goal with Hn : (length owners =? 1)%nat = false |- _ =>
    apply Nat.eqb_neq in Hn; rename Hn into Hlen end.
  unfold bind at 1 in H.
  match type of H with context [update_account ?e ?c ?a ?d ?s] =>
    destruct (update_account e c a d s) as [[ok|e'] s2] eqn:Hupd; [|discriminate]
  end.
  apply update_account_state in Hupd as [[-> ->]|[-> ->]]; unfold ret in H;
    [discriminate|]. simplify_eq.
  eexists k, u, _. split; [done|]. split; [|done].
  unfold owners_of. by rewrite Hown.
Qed.

(** X12.  An entity that has an owner still has one after a [remove]
    command of [applyActionToEntityOwner], whatever the command answers
    (accounts filed under their own [_id], a resolver that only reads): the
    command cannot leave an entity without owner. *)
Theorem applyActionToEntityOwner_remove_keeps_an_owner request entityId st r st' :
  accounts_keyed st →
  owner_command request = "remove" →
  owner_targetId request = Some entityId →
  applyActionToEntityOwner env R request st = (r, st') →
  owners_of entityId st ≠ [] →
  owners_of entityId st' ≠ [].
Proof.
  intros Hkeyed Hcmd Htarget H Hbefore.
  assert (r = Ok ReplyOk ∨ r ≠ Ok ReplyOk) as [->|Hr]
    by (destruct r as [[]|]; auto).
  - destruct (applyActionToEntityOwner_remove_run _ _ _ _ Hcmd Htarget H)
      as (k & u & u' & Hk & Hlen & ->).
    pose proof (Hkeyed _ _ Hk) as Hkey. simpl in Hkey. rewrite Hkey.
    pose proof (owners_after_update entityId st k u u' Hk) as Hle.
    destruct (owners_of entityId st) as [|o1 [|o2 l]]; [done|done|].
    destruct (owners_of entityId _); [simpl in Hle; lia|done].
  - by rewrite (applyActionToEntityOwner_state_unless_ok env R R_reads _ _ _ _ H Hr).
Qed.

End RemoveOwner.

(** [U2] is added as a second owner of [E], then [U1] is removed. *)
Lemma applyActionToEntityOwner_remove_keeps_an_owner_witness :
  owners_of Sample.idE
    (applyActionToEntityOwner Sample.env Mongo_resolve_fetched Sample.remove_last
       (applyActionToEntityOwner Sample.env Mongo_resolve_fetched Cases.add_owner
          Sample.repository).2).2 ≠ [].
Proof.
  set (st := (applyActionToEntityOwner Sample.env Mongo_resolve_fetched
                Cases.add_owner Sample.repository).2).
  assert (Hkeyed : accounts_keyed st)
    by (apply accounts_keyed_to_list; vm_compute; repeat constructor).
  assert (Hbefore : owners_of Sample.idE st ≠ [])
    by (vm_compute; intros Heq; discriminate Heq).
  destruct (applyActionToEntityOwner Sample.env Mongo_resolve_fetched
              Sample.remove_last st) as [r st'] eqn:Hrun.
  exact (applyActionToEntityOwner_remove_keeps_an_owner Sample.env
           Mongo_resolve_fetched (λ _ _ _, eq_refl) Sample.remove_last Sample.idE
           st r st' Hkeyed eq_refl eq_refl Hrun Hbefore).
Defined.

(** *** Substring tests on JSON text *)

Lemma append_nil_l (b : string) : "" +:+ b = b.
Proof. reflexivity. Qed.

Lemma append_cons x (a b : string) : String x a +:+ b = String x (a +:+ b).
Proof. reflexivity. Qed.

Lemma append_nil_r (a : string) : a +:+ "" = a.
Proof. induction a as [|x a IH]; [done|]. by rewrite append_cons, IH. Qed.

Lemma append_assoc (a b c : string) : (a +:+ b) +:+ c = a +:+ (b +:+ c).
Proof.
  induction a as [|x a IH]; [done|]. by rewrite !append_cons, IH.
Qed.

Lemma substring_prefix (b c : string) : substring 0 (String.length b) (b +:+ c) = b.
Proof.
  induction b as [|x b IH].
  - rewrite append_nil_l. by destruct c.
  - rewrite append_cons. simpl. by rewrite IH.
Qed.

Lemma substring_middle (a b c : string) :
  substring (String.length a) (String.length b) (a +:+ b +:+ c) = b.
Proof.
  induction a as [|x a IH].
  - rewrite append_nil_l. apply substring_prefix.
  - rewrite append_cons. simpl. exact IH.
Qed.

Lemma includes_middle (a b c : string) : includes (a +:+ b +:+ c) b = true.
Proof.
  unfold includes.
  destruct (String.index 0 b (a +:+ b +:+ c)) eqn:Hindex; [done|].
  destruct b as [|x b].
  - rewrite append_nil_l in Hindex. destruct (a +:+ c); discriminate.
  - exfalso.
    eapply (index_correct3 0 (String.length a)); [exact Hindex|done|lia|].
    apply substring_middle.
Qed.

Lemma join_middle sep (l1 l2 : list string) x :
  ∃ a c, join sep (l1 ++ x :: l2) = a +:+ x +:+ c.
Proof.
  induction l1 as [|y l1 (a & c & IH)]; simpl.
  - destruct l2 as [|z l2].
    + exists "", "". by rewrite append_nil_l, append_nil_r.
    + by exists "", (sep +:+ join sep (z :: l2)).
  - destruct (l1 ++ x :: l2)%list as [|z l] eqn:Hl; [by destruct l1|].
    rewrite IH. exists (y +:+ sep +:+ a), c. by rewrite !append_assoc.
Qed.

Lemma includes_stringify_ids ids id :
  id ∈ ids → includes (stringify_ids ids) id = true.
Proof.
  intros (l1 & l2 & ->)%list_elem_of_split. unfold stringify_ids.
  rewrite fmap_app, fmap_cons.
  destruct (join_middle "," (quoted <$> l1) (quoted <$> l2) (quoted id)) as (a & c & ->).
  unfold quoted.
  replace ("[" +:+ (a +:+ (dquote +:+ id +:+ dquote) +:+ c) +:+ "]")
    with (("[" +:+ a +:+ dquote) +:+ id +:+ (dquote +:+ c +:+ "]")).
  - apply includes_middle.
  - by rewrite !append_assoc.
Qed.

(** X13.  [findAllEntityOwners] misses no owner: for a valid id (its
    callers check that), every account whose [data.entity] list holds the
    id is among the owners it returns (as the stub of the account), and the
    query changes nothing. *)
Theorem findAllEntityOwners_lists_every_owner entityId st k u ids :
  ObjectId.isValid entityId = true →
  accounts st !! k = Some u →
  owned "entity" u = Some ids →
  entityId ∈ ids →
  ∃ owners, findAllEntityOwners entityId st = (Ok owners, st)
            ∧ userStub u ∈ owners.
Proof.
  intros _ Hu Hids Hin. unfold findAllEntityOwners, bind, get_state, ret.
  eexists. split; [done|].
  apply list_elem_of_fmap. exists u. split; [done|].
  apply list_elem_of_In, filter_In. split.
  - apply list_elem_of_In, list_elem_of_fmap. exists (k, u). split; [done|].
    by apply elem_of_map_to_list.
  - rewrite Hids. by apply includes_stringify_ids.
Qed.

Lemma findAllEntityOwners_lists_every_owner_witness :
  ∃ owners, findAllEntityOwners Sample.idE Sample.repository
            = (Ok owners, Sample.repository)
            ∧ userStub Sample.U1 ∈ owners.
Proof.
  apply (findAllEntityOwners_lists_every_owner Sample.idE Sample.repository
           Sample.idU1 Sample.U1 [Sample.idE]).
  - reflexivity.
  - reflexivity.
  - reflexivity.
  - apply list_elem_of_singleton. reflexivity.
Defined.

(** ** Explore: what leaves the server *)

Lemma project_entity_public slot slot' :
  project_entity slot = Some slot' →
  ∃ mediaType name settings, slot' = EntityPublic mediaType name settings.
Proof. destruct slot; simpl; intros [= <-]. by eexists _, _, _. Qed.

Lemma project_annotation_reference slot slot' :
  project_annotation slot = Some slot' → ∃ _id, slot' = Unresolved _id.
Proof. destruct slot; simpl; intros [= <-]. by eexists. Qed.

Lemma project_digital_public slot :
  ∃ description licence, project_digital slot = DigitalPublic description licence.
Proof. destruct slot; simpl; by eexists _, _. Qed.

Section Sanitized.

Variable env : Env.
Variable fuel : nat.
Variable userData : option UserData.
Variable request : ExploreRequest.

Lemma explore_compilation_sanitized compilations _comp st r st' :
  explore_compilation fuel userData request compilations _comp st = (Ok r, st') →
  Forall (λ c, sanitized (DCompilation c)) compilations →
  Forall (λ c, sanitized (DCompilation c)) r.
Proof.
  unfold explore_compilation. intros H Hall. case_step H; try done.
  apply Forall_app. split; [done|]. apply Forall_singleton.
  simpl. split; [by eexists|]. split.
  - intros id slot (slot0 & Hs & _)%lookup_omap_Some. by eapply project_entity_public.
  - intros id slot (slot0 & Hs & _)%lookup_omap_Some.
    by eapply project_annotation_reference.
Qed.

Lemma explore_entity_sanitized entities _entity st r st' :
  explore_entity env fuel userData request entities _entity st = (Ok r, st') →
  Forall (λ e, sanitized (DEntity e)) entities →
  Forall (λ e, sanitized (DEntity e)) r.
Proof.
  unfold explore_entity. intros H Hall. case_step H; try done.
  apply Forall_app. split; [done|]. apply Forall_singleton.
  simpl. apply project_digital_public.
Qed.

Lemma scan_compilations_sanitized cursor : ∀ compilations st r st',
  scan_compilations fuel userData request cursor compilations st = (Ok r, st') →
  Forall (λ c, sanitized (DCompilation c)) compilations →
  Forall (λ c, sanitized (DCompilation c)) r.
Proof.
  induction cursor as [|d cursor IH]; intros compilations st r st' H Hall; simpl in H.
  - inv_M. done.
  - destruct (canContinue _ _ _); simpl in H; [|inv_M; done].
    inv_M. eapply IH; [eassumption|]. by eapply explore_compilation_sanitized.
Qed.

Lemma scan_entities_sanitized cursor : ∀ entities st r st',
  scan_entities env fuel userData request cursor entities st = (Ok r, st') →
  Forall (λ e, sanitized (DEntity e)) entities →
  Forall (λ e, sanitized (DEntity e)) r.
Proof.
  induction cursor as [|d cursor IH]; intros entities st r st' H Hall; simpl in H.
  - inv_M. done.
  - destruct (canContinue _ _ _); simpl in H; [|inv_M; done].
    inv_M. eapply IH; [eassumption|]. by eapply explore_entity_sanitized.
Qed.

Lemma sanitized_set st key d :
  explore_cache_sanitized st →
  explore_cache_sanitized (set_cache (insert key (CachedDoc d)) st).
Proof.
  intros H k items. simpl. destruct (decide (key = k)) as [->|Hne].
  - rewrite lookup_insert_eq. discriminate.
  - rewrite lookup_insert_ne by done. apply H.
Qed.

Lemma sanitized_del st key :
  explore_cache_sanitized st → explore_cache_sanitized (set_cache (delete key) st).
Proof.
  intros H k items. simpl. destruct (decide (key = k)) as [->|Hne].
  - rewrite lookup_delete_eq. discriminate.
  - rewrite lookup_delete_ne by done. apply H.
Qed.

(** X14.  Nothing but projections leaves explore: when the result sets in
    the cache are of that form, each compilation it sends carries a flag
    where the store has the password and only the public projection of its
    entities and annotations, each entity only [{description, licence}] of
    its digital entity; and every result set in the cache stays of that
    form. *)
Theorem explore_sends_projections st items st' :
  explore_cache_sanitized st →
  explore env fuel userData request st = (Ok items, st') →
  Forall sanitized items ∧ explore_cache_sanitized st'.
Proof.
  intros Hinv H. unfold explore in H.
  apply bind_Ok in H as (temp & st1 & Htemp & H).
  unfold RepoCache.get, bind, get_state, ret in Htemp. simplify_eq.
  apply bind_Ok in H as (found & st2 & Hitems & H).
  assert (Hfound : Forall sanitized found ∧ explore_cache_sanitized st2).
  { destruct (cache st1 !! hash env request) as [[d|[|item l]|]|] eqn:Hcache.
    all: try (inv_M; split; [|done]; by eapply Hinv).
    all: destruct (explore_searchEntity request); inv_M;
      repeat match goal with
      | H : findCursor _ _ _ _ = _ |- _ => apply findCursor_state in H; subst
      end;
      split;
      try (apply Forall_fmap; eapply scan_entities_sanitized; [eassumption|constructor]);
      try (apply Forall_fmap; eapply scan_compilations_sanitized;
             [eassumption|constructor]);
      try (eapply preserves_scan_entities;
             [apply sanitized_set|apply sanitized_del|exact Hinv|eassumption]);
      try (eapply preserves_scan_compilations;
             [apply sanitized_set|apply sanitized_del|exact Hinv|eassumption]). }
  destruct Hfound as [Hall Hinv2].
  apply bind_Ok in H as ([] & st3 & Hset & H). inv_M.
  unfold RepoCache.set, modify in Hset. simplify_eq.
  match goal with
  | |- context [@merge_sort _ ?R ?D found] =>
      pose proof (@merge_sort_Permutation _ R D found) as Hsorted
  end.
  assert (Forall sanitized (merge_sort (locale_order env) found)) as Hs
    by (by rewrite Hsorted).
  split; [done|].
  intros k items'. simpl. destruct (decide (hash env request = k)) as [->|Hne].
  - rewrite lookup_insert_eq. intros. by simplify_eq.
  - rewrite lookup_insert_ne by done. apply Hinv2.
Qed.

End Sanitized.

Lemma explore_sends_projections_witness :
  ∃ items st',
    explore Sample.env 6 (Some Sample.U2) Cases.compilation_search Cases.vault
      = (Ok items, st')
    ∧ Forall sanitized items.
Proof.
  assert (Hok : succeeds (explore Sample.env 6 (Some Sample.U2)
                            Cases.compilation_search Cases.vault) = true)
    by (vm_compute; reflexivity).
  assert (Hinv : explore_cache_sanitized Cases.vault).
  { intros key items. simpl. rewrite lookup_empty. intros Heq. discriminate Heq. }
  destruct (explore Sample.env 6 (Some Sample.U2) Cases.compilation_search
              Cases.vault) as [[items|err] st'] eqn:Hrun; [|discriminate Hok].
  exists items, st'. split; [reflexivity|].
  exact (proj1 (explore_sends_projections Sample.env 6 (Some Sample.U2)
                  Cases.compilation_search Cases.vault items st' Hinv Hrun)).
Defined.

Lemma explore_run env fuel userData request st items st' :
  explore env fuel userData request st = (Ok items, st') →
  ∃ (D : RelDecision (locale_order env)) found,
    items = @merge_sort _ (locale_order env) D found
    ∧ cache st' !! hash env request = Some (CachedItems items)
    ∧ (cache_miss env request st →
       if explore_searchEntity request then
         ∃ cursor entities s1 s2,
           scan_entities env fuel userData request cursor [] s1 = (Ok entities, s2)
           ∧ found = DEntity <$> entities
       else
         ∃ cursor compilations s1 s2,
           scan_compilations fuel userData request cursor [] s1 = (Ok compilations, s2)
           ∧ found = DCompilation <$> compilations).
Proof.
  intros H. unfold explore in H.
  apply bind_Ok in H as (temp & st1 & Htemp & H).
  unfold RepoCache.get, bind, get_state, ret in Htemp. simplify_eq.
  apply bind_Ok in H as (found & st2 & Hitems & H).
  apply bind_Ok in H as ([] & st3 & Hset & H). inv_M.
  unfold RepoCache.set, modify in Hset. simplify_eq.
  match goal with
  | |- context [@merge_sort _ ?R ?D found] => exists D, found
  end.
  split; [done|]. split; [simpl; by rewrite lookup_insert_eq|].
  unfold cache_miss. intros Hmiss.
  destruct (cache st1 !! hash env request) as [[d|[|item l]|]|] eqn:Hcache;
    try done.
  all: destruct (explore_searchEntity request); inv_M; by eexists _, _, _, _.
Qed.

(** X15.  The answer of explore is ordered by name (for a total
    [localeCompare]), and it is exactly what the cache holds under the hash
    of the request afterwards. *)
Theorem explore_sorted_and_cached env fuel userData request st items st' :
  (∀ a b, localeCompare_le env a b = true ∨ localeCompare_le env b a = true) →
  explore env fuel userData request st = (Ok items, st') →
  Sorted (locale_order env) items
  ∧ cache st' !! hash env request = Some (CachedItems items).
Proof.
  intros Htotal H. apply explore_run in H as (D & found & -> & Hcached & _).
  split; [|done]. apply Sorted_merge_sort.
  intros a b. destruct (Htotal (doc_name a) (doc_name b)); [by left|by right].
Qed.

Lemma explore_sorted_and_cached_witness :
  ∃ items st',
    explore Sample.env 6 (Some Sample.U1) Sample.explore_request Sample.repository
      = (Ok items, st')
    ∧ Sorted (locale_order Sample.env) items
    ∧ cache st' !! hash Sample.env Sample.explore_request = Some (CachedItems items).
Proof.
  assert (Hok : succeeds (explore Sample.env 6 (Some Sample.U1) Sample.explore_request
                            Sample.repository) = true)
    by (vm_compute; reflexivity).
  destruct (explore Sample.env 6 (Some Sample.U1) Sample.explore_request
              Sample.repository) as [[items|err] st'] eqn:Hrun; [|discriminate Hok].
  exists items, st'. split; [reflexivity|].
  exact (explore_sorted_and_cached Sample.env 6 (Some Sample.U1)
           Sample.explore_request Sample.repository items st'
           String.leb_total Hrun).
Defined.

(** X16.  A request without media types that is not answered from the
    cache finds nothing: the answer is the empty list, and the only change
    of state is that the empty list is cached for the request. *)
Theorem explore_without_types env fuel userData request st :
  explore_types request = [] →
  cache_miss env request st →
  explore env fuel userData request st
  = (Ok [], set_cache (insert (hash env request) (CachedItems [])) st).
Proof.
  intros Htypes Hmiss. unfold explore, cache_miss in *.
  unfold bind at 1. unfold RepoCache.get, bind at 1, get_state, ret.
  assert (Hscan_e : ∀ cursor s,
            scan_entities env fuel userData request cursor [] s = (Ok [], s)).
  { intros [|d cursor] s; simpl; [done|]. unfold canContinue. rewrite Htypes.
    simpl. rewrite ?andb_false_r. done. }
  assert (Hscan_c : ∀ cursor s,
            scan_compilations fuel userData request cursor [] s = (Ok [], s)).
  { intros [|d cursor] s; simpl; [done|]. unfold canContinue. rewrite Htypes.
    simpl. rewrite ?andb_false_r. done. }
  destruct (cache st !! hash env request) as [[d|[|item l]|]|] eqn:Hcache;
    try done.
  all: destruct (explore_searchEntity request);
    unfold findCursor, bind, get_state, ret;
    rewrite ?Hscan_e, ?Hscan_c; done.
Qed.

Lemma explore_without_types_witness :
  explore Sample.env 6 (Some Sample.U1) Cases.no_types Sample.repository
  = (Ok [], set_cache (insert (hash Sample.env Cases.no_types) (CachedItems []))
              Sample.repository).
Proof.
  apply (explore_without_types Sample.env 6 (Some Sample.U1) Cases.no_types
           Sample.repository).
  - reflexivity.
  - unfold cache_miss. simpl. rewrite lookup_empty. exact I.
Defined.

(** X17.  An entity search without session that is not answered from the
    cache returns only entities whose whitelist is not enabled. *)
Theorem explore_anonymous_scan_is_public env fuel request st items st' :
  explore_searchEntity request = true →
  cache_miss env request st →
  explore env fuel None request st = (Ok items, st') →
  Forall (λ d, ∃ e, d = DEntity e ∧ public e) items.
Proof.
  intros Hmode Hmiss H. apply explore_run in H as (D & found & -> & _ & Hfound).
  specialize (Hfound Hmiss). rewrite Hmode in Hfound.
  destruct Hfound as (cursor & entities & s1 & s2 & Hscan & ->).
  rewrite merge_sort_Permutation. apply Forall_fmap.
  apply scan_entities_anonymous in Hscan; [|constructor].
  eapply Forall_impl; [exact Hscan|]. intros e He. by exists e.
Qed.

Lemma explore_anonymous_scan_is_public_witness :
  ∃ items st',
    explore Sample.env 6 None Sample.explore_request Sample.repository
      = (Ok items, st')
    ∧ Forall (λ d, ∃ e, d = DEntity e ∧ public e) items.
Proof.
  assert (Hok : succeeds (explore Sample.env 6 None Sample.explore_request
                            Sample.repository) = true)
    by (vm_compute; reflexivity).
  assert (Hmiss : cache_miss Sample.env Sample.explore_request Sample.repository).
  { unfold cache_miss. simpl. rewrite lookup_empty. exact I. }
  destruct (explore Sample.env 6 None Sample.explore_request Sample.repository)
    as [[items|err] st'] eqn:Hrun; [|discriminate Hok].
  exists items, st'. split; [reflexivity|].
  exact (explore_anonymous_scan_is_public Sample.env 6 Sample.explore_request
           Sample.repository items st' eq_refl Hmiss Hrun).
Defined.

(** ** Canonical identifiers *)

Lemma string_of_list_ascii_length l :
  String.length (string_of_list_ascii l) = length l.
Proof. induction l as [|c l IH]; simpl; [done|by rewrite IH]. Qed.

Lemma is_hex_lower_hex c :
  ObjectId.is_hex_digit c = true → ObjectId.is_hex (ObjectId.lower_hex c) = true.
Proof. destruct c as [[] [] [] [] [] [] [] []]; vm_compute; congruence. Qed.

Lemma lower_hex_is_hex c : ObjectId.is_hex c = true → ObjectId.lower_hex c = c.
Proof. destruct c as [[] [] [] [] [] [] [] []]; vm_compute; congruence. Qed.

Lemma is_hex_is_hex_digit c :
  ObjectId.is_hex c = true → ObjectId.is_hex_digit c = true.
Proof. unfold ObjectId.is_hex_digit. by intros ->. Qed.

Lemma byte_hex_is_hex c : forallb ObjectId.is_hex (ObjectId.byte_hex c) = true.
Proof. destruct c as [[] [] [] [] [] [] [] []]; vm_compute; reflexivity. Qed.

Lemma flat_map_byte_hex l :
  length (List.flat_map ObjectId.byte_hex l) = (2 * length l)%nat
  ∧ forallb ObjectId.is_hex (List.flat_map ObjectId.byte_hex l) = true.
Proof.
  induction l as [|c l [IHl IHh]]; [done|]. split.
  - cbn [List.flat_map]. rewrite length_app, IHl. simpl. lia.
  - cbn [List.flat_map]. by rewrite forallb_app, byte_hex_is_hex, IHh.
Qed.

Lemma length_list_ascii_of_string s :
  length (list_ascii_of_string s) = String.length s.
Proof. induction s as [|c s IH]; simpl; [done|by rewrite IH]. Qed.

(** A text in canonical form is accepted by the driver and printed as it is. *)
Lemma isValid_accepts s : ObjectId.isValid s = true → ObjectId.accepts s = true.
Proof.
  unfold ObjectId.isValid, ObjectId.accepts.
  intros [Hlen Hhex]%andb_true_iff. rewrite Hlen. simpl.
  apply orb_true_iff. right.
  apply forallb_forall. intros c Hc. apply is_hex_is_hex_digit.
  by apply (proj1 (forallb_forall _ _) Hhex).
Qed.

Lemma toHexString_isValid s : ObjectId.isValid s = true → ObjectId.toHexString s = s.
Proof.
  unfold ObjectId.isValid, ObjectId.toHexString.
  intros [Hlen Hhex]%andb_true_iff. apply Nat.eqb_eq in Hlen. rewrite Hlen. simpl.
  rewrite <- (string_of_list_ascii_of_string s) at 2. f_equal.
  induction (list_ascii_of_string s) as [|c l IH]; [done|].
  simpl in Hhex. apply andb_true_iff in Hhex as [Hc Hl].
  simpl. by rewrite lower_hex_is_hex, IH.
Qed.

Lemma parse_isValid s : ObjectId.isValid s = true → ObjectId.parse s = s.
Proof.
  intros H. unfold ObjectId.parse. rewrite (isValid_accepts s H).
  by apply toHexString_isValid.
Qed.

(** What the driver prints is in canonical form. *)
Lemma isValid_toHexString s :
  ObjectId.accepts s = true → ObjectId.isValid (ObjectId.toHexString s) = true.
Proof.
  unfold ObjectId.accepts, ObjectId.isValid, ObjectId.toHexString.
  rewrite string_of_list_ascii_length, list_ascii_of_string_of_list_ascii.
  destruct (String.length s =? 12)%nat eqn:H12.
  - intros _. apply Nat.eqb_eq in H12.
    destruct (flat_map_byte_hex (list_ascii_of_string s)) as [Hl Hh].
    rewrite Hl, Hh, length_list_ascii_of_string, H12. reflexivity.
  - simpl. intros [Hlen Hhex]%andb_true_iff.
    rewrite length_map, length_list_ascii_of_string, Hlen. simpl.
    apply forallb_forall. intros c (c0 & <- & Hc0)%in_map_iff.
    apply is_hex_lower_hex. by apply (proj1 (forallb_forall _ _) Hhex).
Qed.

(** A text that the driver refuses is not in canonical form either, so that
    after [parse] the two tests agree. *)
Lemma isValid_parse s : ObjectId.isValid (ObjectId.parse s) = ObjectId.accepts s.
Proof.
  unfold ObjectId.parse. destruct (ObjectId.accepts s) eqn:Ha.
  - by apply isValid_toHexString.
  - destruct (ObjectId.isValid s) eqn:Hv; [|done].
    apply isValid_accepts in Hv. congruence.
Qed.

(** ** [concatFix] of the older [saveDigitalEntity] *)

Lemma filter_eq_length_0 (final : list string) _id :
  (length (List.filter (λ o, bool_decide (o = _id)) final) =? 0)%nat = true
  ↔ _id ∉ final.
Proof.
  rewrite Nat.eqb_eq. induction final as [|x final IH]; simpl.
  - split; [intros _; apply not_elem_of_nil|done].
  - destruct (bool_decide (x = _id)) eqn:Hx.
    + apply bool_decide_eq_true in Hx as ->. simpl. split; [lia|].
      intros Hn. exfalso. apply Hn. by apply elem_of_cons; left.
    + apply bool_decide_eq_false in Hx. rewrite IH, not_elem_of_cons.
      split; [by split|by intros []].
Qed.

Lemma push_distinct_spec result : ∀ final,
  NoDup final →
  NoDup (push_distinct final result)
  ∧ ∀ _id, _id ∈ push_distinct final result
           ↔ _id ∈ final
             ∨ ∃ res, res ∈ result
                      ∧ ObjectId.toHexString (default "" (field_id res)) = _id.
Proof.
  induction result as [|res result IH]; simpl; intros final Hnd.
  - split; [done|]. intros _id. split; [by left|].
    intros [?|(res & Hin & _)]; [done|]. by apply elem_of_nil in Hin.
  - destruct (length _ =? 0)%nat eqn:Hfresh.
    + apply filter_eq_length_0 in Hfresh.
      destruct (IH (final ++ [ObjectId.toHexString (default "" (field_id res))])%list)
        as [Hnd' Hin'].
      { apply NoDup_app. split; [done|]. split; [|apply NoDup_singleton].
        intros x Hx Hx'. apply list_elem_of_singleton in Hx'. by subst. }
      split; [done|]. intros _id. rewrite Hin', elem_of_app, list_elem_of_singleton.
      split.
      * intros [[?| ->]|(r & Hr & Hid)]; [by left| |].
        -- right. exists res. split; [by apply elem_of_cons; left|done].
        -- right. exists r. split; [by apply elem_of_cons; right|done].
      * intros [?|(r & Hr & Hid)]; [by left; left|].
        apply elem_of_cons in Hr as [->|Hr]; [by left; right|].
        right. by exists r.
    + assert (Hold : ObjectId.toHexString (default "" (field_id res)) ∈ final).
      { destruct (decide (ObjectId.toHexString (default "" (field_id res)) ∈ final))
          as [|Hn]; [done|].
        apply filter_eq_length_0 in Hn. congruence. }
      destruct (IH final Hnd) as [Hnd' Hin']. split; [done|].
      intros _id. rewrite Hin'. split.
      * intros [?|(r & Hr & Hid)]; [by left|].
        right. exists r. split; [by apply elem_of_cons; right|done].
      * intros [?|(r & Hr & Hid)]; [by left|].
        apply elem_of_cons in Hr as [->|Hr]; [left; by rewrite <- Hid|].
        right. by exists r.
Qed.

Lemma foldl_app_elem_of {A} (rest : list (list A)) : ∀ first x,
  x ∈ foldl (λ result arr, (result ++ arr)%list) first rest
  ↔ x ∈ first ∨ ∃ arr, arr ∈ rest ∧ x ∈ arr.
Proof.
  induction rest as [|arr rest IH]; simpl; intros first x.
  - split; [by left|]. intros [?|(arr & Hin & _)]; [done|]. by apply elem_of_nil in Hin.
  - rewrite IH, elem_of_app. split.
    + intros [[?|?]|(a & Ha & Hx)]; [by left| |].
      * right. exists arr. split; [by apply elem_of_cons; left|done].
      * right. exists a. split; [by apply elem_of_cons; right|done].
    + intros [?|(a & Ha & Hx)]; [by left; left|].
      apply elem_of_cons in Ha as [->|Ha]; [by left; right|].
      right. by exists a.
Qed.

(** X18.  [concatFix] returns the ids of the objects of its arrays whose
    [_id] the driver accepts (12 bytes, or 24 hexadecimal digits in either
    case), each as [new ObjectId(_id)] prints it and each once: objects
    without such an [_id] are dropped, spellings of one id are merged, and
    every id returned is in canonical form. *)
Theorem concatFix_distinct_valid_ids first rest :
  NoDup (concatFix first rest)
  ∧ (∀ x, x ∈ concatFix first rest
          ↔ ∃ obj _id, (obj ∈ first ∨ ∃ arr, arr ∈ rest ∧ obj ∈ arr)
                       ∧ field_id obj = Some _id
                       ∧ ObjectId.accepts _id = true
                       ∧ x = ObjectId.toHexString _id)
  ∧ Forall (λ x, ObjectId.isValid x = true) (concatFix first rest).
Proof.
  unfold concatFix.
  destruct (push_distinct_spec
              (List.filter filterEntitiesWithoutID
                 (foldl (λ result arr, (result ++ arr)%list) first rest)) []
              NoDup_nil_2) as [Hnd Hin].
  assert (Hchar : ∀ x,
            x ∈ push_distinct []
                  (List.filter filterEntitiesWithoutID
                     (foldl (λ result arr, (result ++ arr)%list) first rest))
            ↔ ∃ obj _id, (obj ∈ first ∨ ∃ arr, arr ∈ rest ∧ obj ∈ arr)
                         ∧ field_id obj = Some _id
                         ∧ ObjectId.accepts _id = true
                         ∧ x = ObjectId.toHexString _id).
  { intros x. rewrite Hin. split.
    - intros [Hnil|(res & Hres & Hid)]; [by apply elem_of_nil in Hnil|].
      apply list_elem_of_In, filter_In in Hres as [Hres Hvalid].
      apply list_elem_of_In, foldl_app_elem_of in Hres.
      unfold filterEntitiesWithoutID in Hvalid.
      destruct (field_id res) as [i|] eqn:Hi; [|done]. simpl in Hid.
      by exists res, i.
    - intros (obj & _id & Hobj & Hid & Hvalid & ->). right. exists obj. split.
      + apply list_elem_of_In, filter_In. split.
        * by apply list_elem_of_In, foldl_app_elem_of.
        * unfold filterEntitiesWithoutID. by rewrite Hid.
      + by rewrite Hid. }
  split; [done|]. split; [exact Hchar|].
  apply Forall_forall. intros x Hx.
  apply Hchar in Hx as (obj & _id & _ & _ & Hvalid & ->).
  by apply isValid_toHexString.
Qed.

(** Two spellings of one id and an object without id. *)
Example concatFix_merges_spellings :
  concatFix
    [{| field_id := Some "AAAAAAAAAAAAAAAAAAAAAAAA"; field_name := None;
        field_roles := None; field_institution_role := None;
        field_person_role := None |}]
    [[{| field_id := Some Sample.idA; field_name := None; field_roles := None;
         field_institution_role := None; field_person_role := None |};
      {| field_id := None; field_name := Some "new"; field_roles := None;
         field_institution_role := None; field_person_role := None |};
      {| field_id := Some "person-00001"; field_name := None; field_roles := None;
         field_institution_role := None; field_person_role := None |}]]
  = [Sample.idA; "706572736f6e2d3030303031"].
Proof. vm_compute. reflexivity. Qed.

(** ** Reading and deleting documents *)

(** X19.  [getEntityFromCollection] hands a compilation that has a password
    out only to its owner (the session user who holds the identifier as the
    driver prints it) or to a request that carries that password, and the
    handler does not change the store. *)
Theorem getEntityFromCollection_password_gate
    fuel userData lowerCase params st answer st' :
  getEntityFromCollection fuel userData lowerCase params st = (Ok answer, st') →
  store st' = store st
  ∧ ∀ c pw,
      answered answer = Document (DCompilation c) →
      compilation_password c = Some (PasswordString pw) →
      truthy pw = true →
      isOwner userData (ObjectId.parse (params_identifier params)) = true
      ∨ params_password params = Some pw.
Proof.
  unfold getEntityFromCollection. intros H.
  apply bind_Ok in H as (entity & st1 & Hres & H).
  apply resolve_store in Hres as Hstore.
  assert (st' = st1) as ->.
  { destruct entity as [[]|]; step_M H; done. }
  split; [done|]. intros c pw Hsent Hpw Ht.
  destruct entity as [[]|]; step_M H; simpl in Hsent; try discriminate.
  simplify_eq.
  match goal with Hgate : _ || _ || _ = true |- _ => rename Hgate into Hg end.
  unfold isPasswordProtected, isPasswordCorrect in Hg. rewrite Hpw, Ht in Hg.
  simpl in Hg. apply orb_true_iff in Hg as [Ho|Hc]; [by left|right].
  apply bool_decide_eq_true in Hc.
  destruct (params_password params) as [p|]; [|subst; done].
  destruct (truthy p); subst; done.
Qed.

(** The identifier of the request is spelled in upper case. *)
Lemma getEntityFromCollection_password_gate_witness :
  ∃ answer st',
    getEntityFromCollection 4 None toLowerCase (Cases.secret_params (Some "sesame"))
      Cases.vault = (Ok answer, st')
    ∧ sent_id answer = Some Cases.idS
    ∧ store st' = store Cases.vault.
Proof.
  assert (Hok : match (getEntityFromCollection 4 None toLowerCase
                         (Cases.secret_params (Some "sesame")) Cases.vault).1 with
                | Ok answer => sent_id answer
                | Throw _ => None
                end = Some Cases.idS)
    by (vm_compute; reflexivity).
  destruct (getEntityFromCollection 4 None toLowerCase
              (Cases.secret_params (Some "sesame")) Cases.vault)
    as [[answer|err] st'] eqn:Hrun; [|discriminate Hok].
  exists answer, st'. split; [reflexivity|]. split; [exact Hok|].
  exact (proj1 (getEntityFromCollection_password_gate 4 None toLowerCase
                  (Cases.secret_params (Some "sesame")) Cases.vault answer st' Hrun)).
Defined.

(** Without the password the same request gets an empty answer. *)
Example getEntityFromCollection_wrong_password :
  (getEntityFromCollection 4 None toLowerCase (Cases.secret_params (Some "guess"))
     Cases.vault).1
  = Ok {| answer_status := 200; answered := NoBody |}.
Proof. vm_compute. reflexivity. Qed.

Lemma mapM_preserves_store {A B} (f : A → M B) l :
  (∀ x st r st', f x st = (r, st') → store st' = store st) →
  ∀ st r st', mapM f l st = (r, st') → store st' = store st.
Proof.
  intros Hf. induction l as [|x l IH]; simpl; intros st r st' H.
  - unfold ret in H. by simplify_eq.
  - unfold bind in H. destruct (f x st) as [[y|e] s1] eqn:Hx.
    + apply Hf in Hx. destruct (mapM f l s1) as [[ys|e] s2] eqn:Hl.
      * apply IH in Hl. unfold ret in H. simplify_eq. congruence.
      * apply IH in Hl. simplify_eq. congruence.
    + apply Hf in Hx. by simplify_eq.
Qed.

(** X20.  [getAllEntitiesFromCollection] lists only persons, institutions
    and tags: for any other collection the answer is the empty list and the
    state is unchanged.  The answer is always a 200 with at most one document
    per stored document of the collection, and the store is unchanged. *)
Theorem getAllEntitiesFromCollection_allowed fuel params st answer st' :
  getAllEntitiesFromCollection fuel params st = (Ok answer, st') →
  let coll := toLowerCase (params_collection params) in
  answer_status answer = 200
  ∧ store st' = store st
  ∧ ∃ l, answered answer = Documents l
         ∧ (length l ≤ length (collection st coll))%nat
         ∧ (coll ∉ ["person"; "institution"; "tag"] → l = [] ∧ st' = st).
Proof.
  unfold getAllEntitiesFromCollection. intros H. cbv zeta.
  destruct (bool_decide _) eqn:Hallowed; simpl in H.
  - apply bool_decide_eq_true in Hallowed.
    apply bind_Ok in H as (docs & st1 & Hdocs & H).
    unfold findAll, bind, get_state, ret in Hdocs. simplify_eq.
    apply bind_Ok in H as (resolved & st2 & Hres & H). apply ret_Ok in H as [<- <-].
    simpl. split; [done|]. split.
    + eapply mapM_preserves_store; [|exact Hres]. intros x s r s'. apply resolve_store.
    + eexists. split; [done|]. split; [|done].
      apply mapM_length in Hres. unfold collection. rewrite <- Hres.
      apply length_omap_le.
  - apply bool_decide_eq_false in Hallowed. apply ret_Ok in H as [<- <-]. simpl.
    split; [done|]. split; [done|]. eexists. split; [done|]. split; [apply Nat.le_0_l|done].
Qed.

Lemma getAllEntitiesFromCollection_allowed_witness :
  ∃ answer st',
    getAllEntitiesFromCollection 4 Cases.person_params Sample.repository
      = (Ok answer, st')
    ∧ answer_status answer = 200%nat
    ∧ store st' = store Sample.repository.
Proof.
  assert (Hok : succeeds (getAllEntitiesFromCollection 4 Cases.person_params
                            Sample.repository) = true)
    by (vm_compute; reflexivity).
  destruct (getAllEntitiesFromCollection 4 Cases.person_params Sample.repository)
    as [[answer|err] st'] eqn:Hrun; [|discriminate Hok].
  exists answer, st'. split; [reflexivity|].
  destruct (getAllEntitiesFromCollection_allowed 4 Cases.person_params
              Sample.repository answer st' Hrun) as (Hstatus & Hstore & _).
  split; [exact Hstatus|exact Hstore].
Defined.

(** X21.  [removeEntityFromCollection] deletes nothing for a requester who
    is not the session user, named in the request, whose account holds the
    identifier as the driver prints it: the state is unchanged and the
    answer is 404, 403 or 401.  An answer 200 means the document with that
    id is gone from its collection and the cache is empty. *)
Theorem removeEntityFromCollection_needs_owner
    env userData lowerCase params username st answer st' :
  removeEntityFromCollection env userData lowerCase params username st
    = (Ok answer, st') →
  (¬ may_remove userData username (ObjectId.parse (params_identifier params)) →
     st' = st ∧ answer_status answer ∈ [404; 403; 401]%nat)
  ∧ (answer_status answer = 200%nat →
       may_remove userData username (ObjectId.parse (params_identifier params))
       ∧ store st' = delete (lowerCase (params_collection params),
                             ObjectId.parse (params_identifier params)) (store st)
       ∧ cache st' = ∅).
Proof.
  unfold removeEntityFromCollection, may_remove. intros H.
  destruct userData as [user|].
  2: { apply ret_Ok in H as [<- <-]. simpl. split; [|done].
       intros _. split; [done|]. set_solver. }
  destruct (bool_decide (username = _)) eqn:Hname; simpl in H.
  2: { apply ret_Ok in H as [<- <-]. simpl. split; [|done].
       intros _. split; [done|]. set_solver. }
  apply bool_decide_eq_true in Hname. cbv zeta in H.
  destruct (List.find _ _) as [x|] eqn:Hfind; simpl in H.
  2: { apply ret_Ok in H as [<- <-]. simpl. split; [|done].
       intros _. split; [done|]. set_solver. }
  apply find_id_In in Hfind.
  destruct (truthy x); simpl in H.
  2: { apply ret_Ok in H as [<- <-]. simpl. split; [|done].
       intros _. split; [done|]. do 2 (apply elem_of_cons; right).
       by apply list_elem_of_singleton. }
  assert (Hmay : ∃ user0, Some user = Some user0
                          ∧ username = Some (user_username user0)
                          ∧ ObjectId.parse (params_identifier params)
                            ∈ concat (snd <$> user_data user0))
    by (by exists user).
  split; [done|]. intros Hstatus. split; [done|].
  apply bind_Ok in H as (deleted & st1 & Hdel & H).
  unfold deleteOne in Hdel. destruct (acknowledged _ _ _).
  2: { apply ret_Ok in Hdel as [<- <-]. simpl in H. apply ret_Ok in H as [<- <-].
       done. }
  unfold bind, modify, ret in Hdel. simplify_eq. simpl in H.
  apply bind_Ok in H as (undone & st2 & Hundo & H).
  unfold undoOwnerOf in Hundo. destruct (acknowledged _ _ _).
  2: { apply ret_Ok in Hundo as [<- <-]. simpl in H. apply ret_Ok in H as [<- <-].
       done. }
  unfold bind, modify, ret in Hundo. simplify_eq. simpl in H.
  unfold bind, RepoCache.flush, modify, ret in H. simplify_eq. done.
Qed.

Lemma removeEntityFromCollection_needs_owner_witness :
  ∃ answer st',
    removeEntityFromCollection Sample.env (Some Sample.U1) toLowerCase Cases.entity_params
      (Some "first") Sample.repository = (Ok answer, st')
    ∧ answer_status answer = 200%nat
    ∧ store st' = delete ("entity", Sample.idE) (store Sample.repository).
Proof.
  assert (Hok : match (removeEntityFromCollection Sample.env (Some Sample.U1) toLowerCase
                          Cases.entity_params (Some "first") Sample.repository).1 with
                | Ok answer => answer_status answer
                | Throw _ => 0%nat
                end = 200%nat)
    by (vm_compute; reflexivity).
  destruct (removeEntityFromCollection Sample.env (Some Sample.U1) toLowerCase
              Cases.entity_params (Some "first") Sample.repository)
    as [[answer|err] st'] eqn:Hrun; [|discriminate Hok].
  simpl in Hok. exists answer, st'. split; [reflexivity|]. split; [exact Hok|].
  destruct (proj2 (removeEntityFromCollection_needs_owner Sample.env
                     (Some Sample.U1) toLowerCase Cases.entity_params (Some "first")
                     Sample.repository answer st' Hrun) Hok) as (_ & Hstore & _).
  exact Hstore.
Defined.




(** ** Sessions of the LDAP accounts *)

Section LdapSessions.

Import Ldap.

Lemma has_session_cleared s a :
  s ≠ None → has_session s (with_session None a) = false.
Proof. intros Hs. apply bool_decide_eq_false_2. simpl. congruence. Qed.

Lemma holders_updateMany_self s ldap :
  is_Some s →
  holders s (updateMany (has_session s) (with_session None) ldap) = 0%nat.
Proof.
  intros [x ->]. unfold holders, find, updateMany.
  induction ldap as [|a ldap IH]; [done|]. rewrite fmap_cons. simpl.
  destruct (has_session (Some x) a) eqn:Ha.
  - rewrite has_session_cleared by done. exact IH.
  - rewrite Ha. exact IH.
Qed.

Lemma holders_updateMany_other s s' ldap :
  s' ≠ s → s' ≠ None →
  holders s' (updateMany (has_session s) (with_session None) ldap) = holders s' ldap.
Proof.
  intros Hs Hnone. unfold holders, find, updateMany.
  induction ldap as [|a ldap IH]; [done|]. rewrite fmap_cons. simpl.
  destruct (has_session s a) eqn:Ha.
  - apply bool_decide_eq_true in Ha.
    rewrite has_session_cleared by done.
    assert (has_session s' a = false) as ->
      by (apply bool_decide_eq_false_2; congruence).
    exact IH.
  - destruct (has_session s' a); simpl; by rewrite IH.
Qed.

(** X22.  [checkAccount] lets a request pass exactly when one account
    holds its session id.  A session id held by several accounts is taken
    from all of them, so afterwards at most one account holds the session
    id of the request; other sessions and the number of accounts are
    untouched. *)
Theorem checkAccount_session_unique cookie sessionID' ldap :
  let s := session_of cookie sessionID' in
  let answer := (checkAccount cookie sessionID' ldap).1 in
  let ldap' := (checkAccount cookie sessionID' ldap).2 in
  (answer = Next ↔ holders s ldap = 1%nat)
  ∧ (is_Some s → (holders s ldap' ≤ 1)%nat)
  ∧ (∀ s', s' ≠ s → s' ≠ None → holders s' ldap' = holders s' ldap)
  ∧ length ldap' = length ldap.
Proof.
  cbv zeta. unfold checkAccount.
  set (s := session_of cookie sessionID').
  change (length (find (has_session s) ldap)) with (holders s ldap).
  destruct (holders s ldap) as [|[|n]] eqn:Hn; simpl.
  - repeat split; try done. intros _. lia.
  - repeat split; try done. intros _. lia.
  - split; [split; [done|lia]|]. split; [|split].
    + intros Hs. rewrite holders_updateMany_self by done. lia.
    + intros s' Hs' Hnone. by apply holders_updateMany_other.
    + unfold updateMany. by rewrite length_fmap.
Qed.

Lemma named_app u l1 l2 : named u (l1 ++ l2) = (named u l1 + named u l2)%nat.
Proof. unfold named, find. by rewrite List.filter_app, length_app. Qed.

Lemma updateOne_spec u set ldap :
  (∀ a, username (set a) = username a) →
  (∀ a, data (set a) = data a) →
  named u (updateOne (has_username u) set ldap) = named u ldap
  ∧ Forall2 (λ a a', username a' = username a ∧ data a' = data a)
      ldap (updateOne (has_username u) set ldap).
Proof.
  intros Hname Hdata. induction ldap as [|a ldap [IHn IHf]]; [by split; [|constructor]|].
  simpl. destruct (has_username u a) eqn:Ha.
  - split.
    + unfold named, find. simpl. rewrite Ha.
      unfold has_username at 1. rewrite Hname.
      apply bool_decide_eq_true in Ha. by rewrite bool_decide_eq_true_2.
    + constructor; [done|]. apply Forall_Forall2_diag, Forall_forall. done.
  - split.
    + unfold named, find in *. simpl. rewrite Ha. exact IHn.
    + by constructor.
Qed.

(** X23.  [addToAccounts] never adds a second account for a user name and
    never changes what an account owns: a user name held by at most one
    account stays so, after an answer [ok] exactly one account holds it,
    and every account that existed keeps its name and data. *)
Theorem addToAccounts_keeps_accounts user u s inserted updated fetched ldap :
  let answer := (addToAccounts user u s inserted updated fetched ldap).1 in
  let ldap' := (addToAccounts user u s inserted updated fetched ldap).2 in
  ((named u ldap ≤ 1)%nat → (named u ldap' ≤ 1)%nat)
  ∧ (∀ d, answer = Send "ok" d → named u ldap' = 1%nat)
  ∧ Forall2 (λ a a', username a' = username a ∧ data a' = data a)
      ldap (take (length ldap) ldap').
Proof.
  cbv zeta. unfold addToAccounts.
  change (length (find (has_username u) ldap)) with (named u ldap).
  destruct (named u ldap) as [|[|n]] eqn:Hn.
  - destruct inserted; simpl.
    + rewrite named_app, Hn. unfold named, find. simpl.
      unfold has_username. simpl. rewrite bool_decide_eq_true_2 by done.
      split; [done|]. split; [done|].
      rewrite take_app_length. apply Forall_Forall2_diag, Forall_forall. done.
    + rewrite Hn. split; [done|]. split; [done|].
      rewrite firstn_all. apply Forall_Forall2_diag, Forall_forall. done.
  - destruct updated.
    + match goal with |- context [updateOne ?q ?f ldap] =>
        destruct (updateOne_spec u f ldap) as [Hnamed Hall]; [done|done|];
        set (ldap' := updateOne q f ldap) in *
      end.
      assert (length ldap' = length ldap) as Hlen
        by (symmetry; by eapply Forall2_length).
      destruct fetched; simpl; [destruct (List.find _ ldap'); simpl|];
        rewrite Hnamed, Hn;
        (split; [done|]); (split; [done|]);
        by rewrite <- Hlen, firstn_all.
    + simpl. rewrite Hn. split; [done|]. split; [done|].
      rewrite firstn_all. apply Forall_Forall2_diag, Forall_forall. done.
  - simpl. rewrite Hn. split; [lia|]. split; [done|].
    rewrite firstn_all. apply Forall_Forall2_diag, Forall_forall. done.
Qed.

End LdapSessions.

(** ** Roles under the older [addAndGetId] *)

Lemma set_from_elem_of l : ∀ seen x, x ∈ set_from seen l ↔ x ∈ l ∧ x ∉ seen.
Proof.
  induction l as [|y l IH]; simpl; intros seen x.
  - split; [by intros ?%elem_of_nil|by intros [?%elem_of_nil _]].
  - destruct (bool_decide (y ∈ seen)) eqn:Hy.
    + apply bool_decide_eq_true in Hy. rewrite IH, elem_of_cons. split.
      * intros [? ?]. split; [by right|done].
      * intros [[->|?] ?]; [done|by split].
    + apply bool_decide_eq_false in Hy. rewrite !elem_of_cons, IH, not_elem_of_cons.
      split.
      * intros [->|[? [? ?]]]; [by split; [left|]|by split; [right|]].
      * intros [[->|?] ?]; [by left|].
        destruct (decide (x = y)) as [->|?]; [by left|by right].
Qed.

Lemma add_roles_elem_of new_roles prop context_roles l prop' r :
  add_roles true new_roles prop context_roles = (l, prop') →
  r ∈ l ↔ r ∈ context_roles ∨ r ∈ submitted_roles new_roles prop.
Proof.
  unfold add_roles, submitted_roles. destruct prop as [given|]; intros [= <- <-].
  - rewrite set_from_elem_of, elem_of_app. split.
    + by intros [? _].
    + intros H. split; [done|]. apply not_elem_of_nil.
  - split; [by left|]. intros [?|?%elem_of_nil]; done.
Qed.

Lemma stored_field_roles d found ctx :
  stored_field d = Some found →
  ∃ roles, field_roles found = Some roles
           ∧ roles !! ctx
             = match d with
               | DPerson p => mjoin (person_roles p !! ctx)
               | DInstitution i => mjoin (institution_roles i !! ctx)
               | _ => None
               end.
Proof.
  destruct d; simpl; intros [= <-]; simpl; eexists; (split; [done|]);
    rewrite lookup_omap; by destruct (_ !! ctx).
Qed.

(** X24.  The older [addAndGetId] merges roles when the submitted field
    carries no [roles] map of its own (a map in the field would replace the
    stored one in [{...findResult, ...field}]): saving the context [_digId]
    again for a stored person or institution, submitted under its id in
    canonical form, leaves it with the roles it had for that context
    together with the submitted ones (falsy entries dropped), and the role
    lists of its other contexts stay. *)
Theorem addAndGetId_merges_context_roles
    _digId in_field add_to_coll new_roles st _id d found :
  field_id in_field = Some _id →
  ObjectId.isValid _id = true →
  store st !! (collection_name add_to_coll, _id) = Some d →
  stored_field d = Some found →
  field_roles in_field = None →
  ∃ st' l,
    addAndGetId _digId in_field add_to_coll new_roles st = (Ok _id, st')
    ∧ stored_roles st' (collection_name add_to_coll) _id _digId = Some l
    ∧ (∀ r, r ∈ l ↔
         truthy r = true
         ∧ (r ∈ default [] (stored_roles st (collection_name add_to_coll) _id _digId)
            ∨ r ∈ submitted_roles new_roles
                    (field_institution_role (spread found in_field))
            ∨ r ∈ submitted_roles new_roles
                    (field_person_role (spread found in_field))))
    ∧ (∀ ctx l0, ctx ≠ _digId →
         stored_roles st (collection_name add_to_coll) _id ctx = Some l0 →
         stored_roles st' (collection_name add_to_coll) _id ctx = Some l0).
Proof.
  intros Hid Hvalid Hd Hfound Hroles.
  destruct (stored_field_roles d found _digId Hfound) as (roles & Hr & Hctx).
  assert (Hfr : field_roles (spread found in_field) = Some roles)
    by (unfold spread; simpl; by rewrite Hroles).
  set (field := spread found in_field) in *.
  unfold addAndGetId. cbv zeta. rewrite Hid, Hvalid.
  cbn [default from_option id]. unfold bind at 1. unfold ret at 1.
  unfold bind at 1. unfold findOne, bind at 1, get_state, ret at 1 2. rewrite Hd.
  cbn [mbind option_bind]. rewrite Hfound. fold field. rewrite Hfr.
  cbn [default from_option id].
  destruct (add_roles true new_roles (field_institution_role field)
              (default [] (roles !! _digId))) as [c1 p1] eqn:H1.
  destruct (add_roles true new_roles (field_person_role field) c1)
    as [c2 p2] eqn:H2.
  unfold bind, modify, ret. eexists _, _. split; [reflexivity|].
  assert (Hold : ∀ ctx, stored_roles st (collection_name add_to_coll) _id ctx
                        = roles !! ctx).
  { intros ctx. unfold stored_roles. rewrite Hd.
    destruct (stored_field_roles d found ctx Hfound) as (roles' & Hr' & Hctx').
    rewrite Hr in Hr'. simplify_eq. rewrite Hctx'. by destruct d. }
  assert (Hnew : ∀ ctx,
            stored_roles
              (set_store
                 (insert (collection_name add_to_coll, _id)
                    (field_doc add_to_coll _id
                       {| field_id := None;
                          field_name := field_name field;
                          field_roles := Some (<[_digId := List.filter truthy c2]> roles);
                          field_institution_role := p1;
                          field_person_role := p2 |} (Some d))) st)
              (collection_name add_to_coll) _id ctx
            = (<[_digId := List.filter truthy c2]> roles) !! ctx).
  { intros ctx. unfold stored_roles. simpl. rewrite lookup_insert_eq.
    destruct add_to_coll; simpl; rewrite lookup_fmap;
      by destruct (_ !! ctx). }
  split; [by rewrite Hnew, lookup_insert_eq|]. split.
  - intros r. rewrite Hold.
    rewrite (list_elem_of_In (List.filter truthy c2) r), filter_In, <- list_elem_of_In.
    rewrite (add_roles_elem_of _ _ _ _ _ r H2), (add_roles_elem_of _ _ _ _ _ r H1).
    split; [intros [[[?|?]|?] ?]|intros [? [?|[?|?]]]]; auto.
  - intros ctx l0 Hne. rewrite Hold, Hnew, lookup_insert_ne by done. done.
Qed.

Lemma addAndGetId_merges_context_roles_witness :
  ∃ st' l,
    addAndGetId Sample.idA Sample.P_field PersonCollection None Sample.repository
      = (Ok Sample.idP, st')
    ∧ stored_roles st' "person" Sample.idP Sample.idA = Some l
    ∧ "EDITOR" ∈ l.
Proof.
  assert (Hstored : store Sample.repository !! ("person", Sample.idP)
                    = Some (DPerson Sample.P)) by (vm_compute; reflexivity).
  destruct (addAndGetId_merges_context_roles Sample.idA Sample.P_field
              PersonCollection None Sample.repository Sample.idP (DPerson Sample.P)
              _ eq_refl eq_refl Hstored eq_refl eq_refl)
    as (st' & l & Hrun & Hl & Hin & _).
  exists st', l. split; [exact Hrun|]. split; [exact Hl|].
  apply Hin. split; [reflexivity|]. right. right.
  apply list_elem_of_singleton. reflexivity.
Defined.

(** ** Text search *)

Lemma passes_spec text filter :
  passes text filter = true
  ↔ filter ≠ [] ∧ Forall (λ term, includes text term = true) filter.
Proof.
  induction filter as [|term filter IH]; simpl.
  - split; [done|by intros [? _]].
  - destruct (includes text term) eqn:Hterm; simpl.
    + destruct filter as [|term' filter].
      * split; [|done]. intros _. split; [done|]. by constructor.
      * rewrite IH. split.
        -- intros [_ Hall]. split; [done|]. by constructor.
        -- intros [_ Hall]. split; [done|]. by inversion Hall.
    + split; [done|]. intros [_ Hall]. inversion Hall; congruence.
Qed.

Lemma includes_empty text : includes text "" = true.
Proof. pose proof (includes_middle "" "" text) as H. by rewrite !append_nil_l in H. Qed.

(** X26.  [filterResults] returns, in their order, exactly the objects
    whose text (the nested string values, joined and folded to lower case
    by [String.prototype.toLowerCase], whatever that function does) contains
    every term of the filter; with an empty filter it returns none, with the
    filter of a request without [filter] all. *)
Theorem filterResults_keeps_matching lowerCase filter objs result :
  filterResults lowerCase filter objs = Some result →
  sublist result objs
  ∧ (∀ obj, obj ∈ result ↔ obj ∈ objs ∧ found_by lowerCase filter obj)
  ∧ (filter = [] → result = [])
  ∧ (filter = text_filter lowerCase None → result = objs).
Proof.
  revert result. induction objs as [|obj objs IH]; simpl; intros result H.
  - simplify_eq. split; [done|]. split; [|done].
    intros obj. split; [by intros ?%elem_of_nil|by intros [?%elem_of_nil _]].
  - destruct (asText lowerCase obj) as [text|] eqn:Htext; simpl in H; [|done].
    destruct (filterResults lowerCase filter objs) as [rest|] eqn:Hrest;
      simpl in H; [|done].
    destruct (IH rest eq_refl) as (Hsub & Hin & Hnil & Hall). simplify_eq.
    destruct (passes text filter) eqn:Hpass.
    + apply passes_spec in Hpass as [Hne Hterms].
      split; [by apply sublist_skip|]. split; [|split].
      * intros o. rewrite !elem_of_cons, Hin. split.
        -- intros [->|[? ?]]; [|by split; [right|]].
           split; [by left|]. by exists text.
        -- intros [[->|?] ?]; [by left|by right].
      * intros ->. done.
      * intros Hf. by rewrite (Hall Hf).
    + split; [by apply sublist_cons|]. split; [|split].
      * intros o. rewrite elem_of_cons, Hin. split.
        -- intros [? ?]. by split; [right|].
        -- intros [[->|?] Hfound]; [|done].
           destruct Hfound as (text' & Ht & Hne & Hterms).
           rewrite Htext in Ht. simplify_eq.
           assert (passes text' filter = true) by (by apply passes_spec).
           congruence.
      * done.
      * intros ->. simpl in Hpass. by rewrite includes_empty in Hpass.
Qed.

(** On ASCII text, with the byte-wise folding: the tag [Engine] is found by
    the term [engine], the person is not. *)
Lemma filterResults_keeps_matching_witness :
  filterResults toLowerCase (text_filter toLowerCase (Some ["Engine"]))
    [Cases.ada; Cases.tag] = Some [Cases.tag]
  ∧ found_by toLowerCase ["engine"] Cases.tag.
Proof.
  assert (Hrun : filterResults toLowerCase (text_filter toLowerCase (Some ["Engine"]))
                   [Cases.ada; Cases.tag] = Some [Cases.tag])
    by (vm_compute; reflexivity).
  split; [exact Hrun|].
  destruct (filterResults_keeps_matching toLowerCase
              (text_filter toLowerCase (Some ["Engine"])) [Cases.ada; Cases.tag]
              [Cases.tag] Hrun) as (_ & Hin & _).
  apply (Hin Cases.tag). apply list_elem_of_singleton. reflexivity.
Defined.
